(** * rss_CrimeShield: the ingestion, identity, merge and persistence pipeline

    A shallow embedding of [rss_CrimeShield.py].  The pipeline functions
    ([gen_article_id], [normalize_ids], [dedupe_df], [merge_new],
    [fetch_all_feeds], [df_to_rows], [save_csv], [poll_once]) are
    transcribed as functions over explicit state:

    - a Python [str] is a [string] whose characters are code points
      below 256;
    - a [pandas.DataFrame] is the list of its rows, a row being the ten
      cells of the columns the program uses; a cell is [Some] text or
      [None] (a [None]/[NaN] value, or a column the frame lacks);
    - [uuid.uuid4] consumes 16 bytes of [os.urandom]: the entropy source
      is threaded through every function that may draw from it;
    - the [uuid] module ([uuid5], [uuid4], [str]) is written out, SHA-1
      included; [pandas.to_datetime] and [uuid.UUID(text)] are parameters.

    The second half of the file embeds what surrounds the pipeline: the
    media of an entry ([first_media_url]), the list of feeds ([load_feeds],
    [add_feed], [find_feed_on_page], [remove_selected_feed],
    [discover_feed_urls]), the table of the window ([populate_table],
    [get_selection_ids]), the manual upserts and the image cache
    ([local_image_path], [download_image]). *)

From Stdlib Require Import ZArith Lia Ascii String.
From stdpp Require Import base numbers list strings pretty gmap sets sorting.

Local Open Scope Z_scope.

(** ** Text *)

Definition ord (c : ascii) : Z := Z.of_nat (nat_of_ascii c).
Definition chr (z : Z) : ascii := ascii_of_nat (Z.to_nat (z mod 256)).

(** [str.isspace] on one character, for code points below 256. *)
Definition isspace (c : ascii) : bool :=
  let n := ord c in
  ((9 <=? n) && (n <=? 13)) || ((28 <=? n) && (n <=? 32))
  || (n =? 133) || (n =? 160).

Fixpoint lstrip (s : string) : string :=
  match s with
  | EmptyString => EmptyString
  | String c r => if isspace c then lstrip r else s
  end.

Fixpoint rstrip (s : string) : string :=
  match s with
  | EmptyString => EmptyString
  | String c r =>
      match rstrip r with
      | EmptyString => if isspace c then EmptyString else String c EmptyString
      | r' => String c r'
      end
  end.

(** [s.strip()] *)
Definition strip (s : string) : string := rstrip (lstrip s).

(** [bytes(name, "utf-8")] for code points below 256. *)
Fixpoint utf8 (s : string) : list Z :=
  match s with
  | EmptyString => []
  | String c r =>
      let n := ord c in
      if n <? 128 then n :: utf8 r
      else Z.lor 192 (Z.shiftr n 6) :: Z.lor 128 (Z.land n 63) :: utf8 r
  end.

(** ** SHA-1 ([hashlib.sha1], FIPS 180-4) on 32-bit words *)

Module SHA1.

Definition w32 (x : Z) : Z := x mod 2 ^ 32.
Definition add32 (x y : Z) : Z := w32 (x + y).
Definition rotl (n x : Z) : Z :=
  w32 (Z.lor (Z.shiftl x n) (Z.shiftr x (32 - n))).
Definition not32 (x : Z) : Z := Z.lxor x (2 ^ 32 - 1).

(** big-endian bytes of an [n]-byte integer *)
Fixpoint to_bytes (n : nat) (x : Z) : list Z :=
  match n with
  | O => []
  | S k => Z.land (Z.shiftr x (8 * Z.of_nat k)) 255 :: to_bytes k x
  end.

(** [int.from_bytes(bs, "big")] *)
Definition from_bytes (bs : list Z) : Z :=
  fold_left (fun acc b => Z.lor (Z.shiftl acc 8) b) bs 0.

Definition pad (msg : list Z) : list Z :=
  let l := Z.of_nat (length msg) in
  let k := (55 - l) mod 64 in
  msg ++ [128] ++ repeat 0 (Z.to_nat k) ++ to_bytes 8 (8 * l).

Fixpoint words (n : nat) (bs : list Z) : list Z :=
  match n with
  | O => []
  | S k => from_bytes (take 4 bs) :: words k (drop 4 bs)
  end.

(** extend the 16 words of a block to the 80 words of the schedule *)
Fixpoint extend (n : nat) (w : list Z) : list Z :=
  match n with
  | O => w
  | S k =>
      let i := length w in
      let g j := nth (i - j) w 0 in
      extend k (w ++ [rotl 1 (Z.lxor (Z.lxor (g 3%nat) (g 8%nat))
                                     (Z.lxor (g 14%nat) (g 16%nat)))])
  end.

Definition f (t : nat) (b c d : Z) : Z :=
  if (t <? 20)%nat then Z.lor (Z.land b c) (Z.land (not32 b) d)
  else if (t <? 40)%nat then Z.lxor (Z.lxor b c) d
  else if (t <? 60)%nat
       then Z.lor (Z.lor (Z.land b c) (Z.land b d)) (Z.land c d)
  else Z.lxor (Z.lxor b c) d.

Definition K (t : nat) : Z :=
  if (t <? 20)%nat then 0x5A827999
  else if (t <? 40)%nat then 0x6ED9EBA1
  else if (t <? 60)%nat then 0x8F1BBCDC
  else 0xCA62C1D6.

Definition state : Type := Z * Z * Z * Z * Z.

Definition round (s : state) (tw : nat * Z) : state :=
  let '(a, b, c, d, e) := s in
  let '(t, w) := tw in
  let tmp := add32 (add32 (add32 (add32 (rotl 5 a) (f t b c d)) e) (K t)) w in
  (tmp, a, rotl 30 b, c, d).

Definition compress (h : state) (block : list Z) : state :=
  let w := extend 64 (words 16 block) in
  let '(a, b, c, d, e) := fold_left round (imap (fun t x => (t, x)) w) h in
  let '(h0, h1, h2, h3, h4) := h in
  (add32 h0 a, add32 h1 b, add32 h2 c, add32 h3 d, add32 h4 e).

Fixpoint blocks (fuel : nat) (h : state) (bs : list Z) : state :=
  match fuel, bs with
  | S k, _ :: _ => blocks k (compress h (take 64 bs)) (drop 64 bs)
  | _, _ => h
  end.

Definition init : state :=
  (0x67452301, 0xEFCDAB89, 0x98BADCFE, 0x10325476, 0xC3D2E1F0).

(** [hashlib.sha1(msg).digest()], 20 bytes *)
Definition digest (msg : list Z) : list Z :=
  let p := pad msg in
  let '(h0, h1, h2, h3, h4) := blocks (length p) init p in
  to_bytes 4 h0 ++ to_bytes 4 h1 ++ to_bytes 4 h2 ++ to_bytes 4 h3
  ++ to_bytes 4 h4.

End SHA1.

(** ** The [uuid] module *)

Definition hex_char (d : Z) : ascii :=
  nth (Z.to_nat (d mod 16))
      (list_ascii_of_string "0123456789abcdef") "0"%char.

(** the [n] low hexadecimal digits of [x], most significant first:
    ['%032x' % x] when [n = 32] and [0 <= x < 2^128] *)
Fixpoint hex_digits (n : nat) (x : Z) : string :=
  match n with
  | O => EmptyString
  | S k => String (hex_char (Z.shiftr x (4 * Z.of_nat k))) (hex_digits k x)
  end.

Definition substring_of (a b : nat) (s : string) : string :=
  String.substring a (b - a) s.

(** [str(UUID(int=x))] *)
Definition str_uuid (x : Z) : string :=
  let hex := hex_digits 32 x in
  substring_of 0 8 hex +:+ "-" +:+ substring_of 8 12 hex +:+ "-" +:+
  substring_of 12 16 hex +:+ "-" +:+ substring_of 16 20 hex +:+ "-" +:+
  substring_of 20 32 hex.


(** the dashed layout of [str(UUID)] and its inverse on 32 digits *)
Definition undash (t : string) : string :=
  String.substring 0 8 t +:+ String.substring 9 4 t +:+
  String.substring 14 4 t +:+ String.substring 19 4 t +:+
  String.substring 24 12 t.

(** [UUID(bytes=..., version=v)]: the variant and version bits are forced *)
Definition with_version (v : Z) (x : Z) : Z :=
  let x := Z.land x (Z.lnot (Z.shiftl 0xc000 48)) in
  let x := Z.lor x (Z.shiftl 0x8000 48) in
  let x := Z.land x (Z.lnot (Z.shiftl 0xf000 64)) in
  Z.lor x (Z.shiftl v 76).

(** [uuid.NAMESPACE_URL = UUID('6ba7b811-9dad-11d1-80b4-00c04fd430c8')] *)
Definition NAMESPACE_URL : Z := 0x6ba7b8119dad11d180b400c04fd430c8.

(** [uuid.uuid5(namespace, name)] *)
Definition uuid5 (namespace : Z) (name : string) : Z :=
  let hash := SHA1.digest (SHA1.to_bytes 16 namespace ++ utf8 name) in
  with_version 5 (SHA1.from_bytes (take 16 hash)).

#[global] Arguments uuid5 : simpl never.
#[global] Arguments str_uuid : simpl never.
#[global] Arguments with_version : simpl never.

(** *** The entropy source

    [os.urandom(16)] read as a 128-bit integer: the [n]-th draw of the
    process is [urandom16 n]; [drawn] counts the draws made so far. *)
Record Entropy := { urandom16 : nat -> Z; drawn : nat }.

Definition Rand (A : Type) : Type := Entropy -> A * Entropy.

#[global] Instance rand_ret : MRet Rand := fun A (a : A) e => (a, e).
#[global] Instance rand_bind : MBind Rand :=
  fun A B (k : A -> Rand B) (m : Rand A) e => let '(a, e') := m e in k a e'.

Definition os_urandom16 : Rand Z :=
  fun e => (urandom16 e (drawn e) mod 2 ^ 128,
            {| urandom16 := urandom16 e; drawn := S (drawn e) |}).

(** [uuid.uuid4()] *)
Definition uuid4 : Rand Z :=
  x ← os_urandom16; mret (with_version 4 x).

(** [gen_article_id(url)]; [None] and [""] are both falsy. *)
Definition gen_article_id (url : option string) : Rand string :=
  match url with
  | None | Some EmptyString => x ← uuid4; mret (str_uuid x)
  | Some u => mret (str_uuid (uuid5 NAMESPACE_URL u))
  end.


(** ** Frames

    A row holds the cells of the ten columns of [cols]; columns beyond
    these are dropped by [df[cols]] and never read.  The index labels of a
    frame are distinct in every frame the program builds, so that
    assignment by label is assignment by row. *)

Definition cell : Type := option string.

Record Row := {
  article_id : cell;
  title : cell;
  published_time_utc : cell;
  author : cell;
  description : cell;
  url : cell;
  image_url : cell;
  source_name : cell;
  source_feed_url : cell;
  fetched_at_utc : cell
}.

#[global] Instance Row_eq_dec : EqDecision Row.
Proof. solve_decision. Defined.

Abbreviation DataFrame := (list Row).

(** [df["article_id"] = v] on one row, and likewise for the time column *)
Definition set_article_id (v : cell) (r : Row) : Row :=
  {| article_id := v; title := title r;
     published_time_utc := published_time_utc r; author := author r;
     description := description r; url := url r; image_url := image_url r;
     source_name := source_name r; source_feed_url := source_feed_url r;
     fetched_at_utc := fetched_at_utc r |}.

Definition set_published_time_utc (v : cell) (r : Row) : Row :=
  {| article_id := article_id r; title := title r;
     published_time_utc := v; author := author r;
     description := description r; url := url r; image_url := image_url r;
     source_name := source_name r; source_feed_url := source_feed_url r;
     fetched_at_utc := fetched_at_utc r |}.

(** [.fillna("").astype(str)] on a cell of text *)
Definition fillna (c : cell) : cell := Some (default "" c).

Definition fillna_row (r : Row) : Row :=
  {| article_id := fillna (article_id r); title := fillna (title r);
     published_time_utc := fillna (published_time_utc r);
     author := fillna (author r); description := fillna (description r);
     url := fillna (url r); image_url := fillna (image_url r);
     source_name := fillna (source_name r);
     source_feed_url := fillna (source_feed_url r);
     fetched_at_utc := fillna (fetched_at_utc r) |}.

(** [.str.strip().eq("")] *)
Definition blank (c : cell) : bool :=
  match c with
  | Some s => bool_decide (strip s = "")
  | None => false
  end.

(** the [lambda u: gen_article_id(u) if u else str(uuid.uuid4())] applied
    to the [url] of a row whose id is blank *)
Definition backfill (r : Row) : Rand Row :=
  if blank (article_id r) then
    id ← match url r with
         | Some (String _ _ as u) => gen_article_id (Some u)
         | _ => x ← uuid4; mret (str_uuid x)
         end;
    mret (set_article_id (Some id) r)
  else mret r.

(** [normalize_ids(df)] *)
Definition normalize_ids (df : DataFrame) : Rand DataFrame :=
  match df with
  | [] => mret []
  | _ => mapM backfill (fillna_row <$> df)
  end.

(** every cell holds text *)
Definition filled (r : Row) : Prop := fillna_row r = r.
(** the id is not blank *)
Definition has_id (r : Row) : Prop := blank (article_id r) = false.
(** a row as [normalize_ids] leaves it *)
Definition clean (r : Row) : Prop := filled r ∧ has_id r.

(** how [normalize_ids] turns a row [r] into [r']: missing values are
    filled; an id that is not blank is kept as it is; a blank id is replaced,
    by the id of the URL when the row has one *)
Definition normalized_from (r r' : Row) : Prop :=
  r' = set_article_id (article_id r') (fillna_row r)
  ∧ blank (article_id r') = false
  ∧ (blank (article_id (fillna_row r)) = false -> r' = fillna_row r)
  ∧ (∀ (c : ascii) (u : string),
       blank (article_id (fillna_row r)) = true ->
       url r = Some (String c u) ->
       article_id r' = Some (str_uuid (uuid5 NAMESPACE_URL (String c u)))).

(** [df.drop_duplicates(subset=["article_id"], keep="first")] *)
Fixpoint drop_duplicates_seen (seen : gset cell) (df : DataFrame)
  : DataFrame :=
  match df with
  | [] => []
  | r :: rest =>
      if decide (article_id r ∈ seen) then drop_duplicates_seen seen rest
      else r :: drop_duplicates_seen ({[article_id r]} ∪ seen) rest
  end.

Definition drop_duplicates (df : DataFrame) : DataFrame :=
  drop_duplicates_seen ∅ df.

(** *** Sorting: [sort_values(key, ascending=False, kind="stable")]

    pandas' [nargsort]: the rows whose key is missing are set aside, the
    others are reversed, sorted ascending by a stable sort, reversed again,
    and the rows without a key are appended in their original order. *)
(** the order the sort establishes on keys: later timestamps first, a
    missing timestamp ([NaT]) after every timestamp *)
Definition dt_ge (a b : option Z) : Prop :=
  match a, b with
  | Some x, Some y => y <= x
  | _, None => True
  | None, Some _ => False
  end.

Section Sorting.
Context {A : Type}.

Fixpoint insert_asc (x : Z * A) (l : list (Z * A)) : list (Z * A) :=
  match l with
  | [] => [x]
  | y :: l' => if x.1 <=? y.1 then x :: l else y :: insert_asc x l'
  end.

(** a stable ascending sort (what [argsort(kind="stable")] computes) *)
Definition argsort_stable (l : list (Z * A)) : list (Z * A) :=
  foldr insert_asc [] l.

(** descending, stable: reverse, sort ascending, reverse *)
Definition sort_desc (l : list (Z * A)) : list (Z * A) :=
  reverse (argsort_stable (reverse l)).

Definition non_nans (l : list (option Z * A)) : list (Z * A) :=
  omap (fun kr => match kr.1 with Some k => Some (k, kr.2) | None => None end) l.

Definition nans (l : list (option Z * A)) : list (option Z * A) :=
  filter (fun kr => kr.1 = None) l.

Definition sort_values_desc (l : list (option Z * A))
  : list (option Z * A) :=
  (prod_map Some id <$> sort_desc (non_nans l)) ++ nans l.

Definition key_le : relation (Z * A) := fun x y => x.1 <= y.1.
Definition key_dt_ge : relation (option Z * A) := fun x y => dt_ge x.1 y.1.
End Sorting.

(** *** Timestamps

    A timestamp is a number of nanoseconds since the epoch, UTC. *)

Fixpoint dec_digits (n : nat) (x : Z) : string :=
  match n with
  | O => EmptyString
  | S k => String (chr (48 + (x / 10 ^ Z.of_nat k) mod 10)) (dec_digits k x)
  end.

(** the civil date of a day number (days since 1970-01-01) *)
Definition civil_from_days (days : Z) : Z * Z * Z :=
  let z := days + 719468 in
  let era := z / 146097 in
  let doe := z - era * 146097 in
  let yoe := (doe - doe / 1460 + doe / 36524 - doe / 146096) / 365 in
  let doy := doe - (365 * yoe + yoe / 4 - yoe / 100) in
  let mp := (5 * doy + 2) / 153 in
  let d := doy - (153 * mp + 2) / 5 + 1 in
  let m := if mp <? 10 then mp + 3 else mp - 9 in
  let y := yoe + era * 400 in
  (if m <=? 2 then y + 1 else y, m, d).

Definition floor_s (t : Z) : Z := t - t mod 10 ^ 9.

(** [ts.strftime("%Y-%m-%dT%H:%M:%SZ")] *)
Definition strftime (t : Z) : string :=
  let secs := t / 10 ^ 9 in
  let '(y, m, d) := civil_from_days (secs / 86400) in
  let sod := secs mod 86400 in
  dec_digits 4 y +:+ "-" +:+ dec_digits 2 m +:+ "-" +:+ dec_digits 2 d +:+ "T" +:+
  dec_digits 2 (sod / 3600) +:+ ":" +:+ dec_digits 2 (sod / 60 mod 60) +:+ ":" +:+
  dec_digits 2 (sod mod 60) +:+ "Z".

(** ** Normalise and deduplicate

    [parse_dt col c] is the timestamp [pd.to_datetime(col, errors="coerce",
    utc=True)] holds at an element [c] of the column [col] ([None] is
    [NaT]); the column is an argument because pandas may infer the format
    from it. *)
Section Pipeline.
Variable parse_dt : list cell -> cell -> option Z.

Definition to_datetime (col : list cell) : list (option Z) :=
  parse_dt col <$> col.

(** [dedupe_df(df)] *)
Definition dedupe_df (df : DataFrame) : Rand DataFrame :=
  df ← normalize_ids df;
  let df := match df with [] => df | _ => drop_duplicates df end in
  let dt := to_datetime (published_time_utc <$> df) in
  let df := sort_values_desc (zip dt df) in
  let df := (fun kr => set_published_time_utc (strftime <$> kr.1) kr.2) <$> df in
  normalize_ids df.

(** the rows [dedupe_df] sorts, each with its parsed time *)
Definition keyed (df : DataFrame) : list (option Z * Row) :=
  let col := published_time_utc <$> df in
  (fun r => (parse_dt col (published_time_utc r), r)) <$> df.

(** a sorted row as [dedupe_df] returns it: the time printed again, and
    the empty text for [NaT] *)
Definition reserialize (kr : option Z * Row) : Row :=
  set_published_time_utc (Some (default "" (strftime <$> kr.1))) kr.2.

(** the frame [dedupe_df] holds after [drop_duplicates], and after the
    sort (each row with its parsed time) *)
Definition deduped (df : DataFrame) (e : Entropy) : DataFrame :=
  drop_duplicates (normalize_ids df e).1.

Definition sorted (df : DataFrame) (e : Entropy) : list (option Z * Row) :=
  sort_values_desc (keyed (deduped df e)).

(** [.astype(str)] on a cell *)
Definition astype_str (c : cell) : cell :=
  Some (match c with Some s => s | None => "nan" end).

(** [set(df["article_id"].tolist())] *)
Definition id_set (df : DataFrame) : gset cell :=
  list_to_set (article_id <$> df).

(** [merge_new(existing, freshly)] *)
Definition merge_new (existing freshly : DataFrame)
  : Rand (DataFrame * gset cell) :=
  freshly ← dedupe_df freshly;
  existing ← dedupe_df existing;
  match existing : DataFrame with
  | [] =>
      let added := freshly in
      let total := added in
      mret (total, id_set added)
  | _ =>
      let existing_ids : gset cell :=
        list_to_set (astype_str <$> (article_id <$> existing)) in
      let freshly : DataFrame :=
        (fun r => set_article_id (astype_str (article_id r)) r) <$> freshly in
      let added : DataFrame := filter (fun r => article_id r ∉ existing_ids) freshly in
      total ← dedupe_df (existing ++ added);
      mret (total, id_set added)
  end.

(** the two frames [merge_new] works on: [existing] and [freshly] after
    their [dedupe_df], and the rows of [freshly] it adds *)
Definition merge_fresh (freshly : DataFrame) (e : Entropy) : DataFrame :=
  (dedupe_df freshly e).1.

Definition merge_existing (existing freshly : DataFrame) (e : Entropy)
  : DataFrame :=
  (dedupe_df existing (dedupe_df freshly e).2).1.

Definition merge_added (existing freshly : DataFrame) (e : Entropy)
  : DataFrame :=
  filter (fun r => article_id r ∉ id_set (merge_existing existing freshly e))
         (merge_fresh freshly e).

(** parsing a text of the column and printing it again gives the text *)
Definition reads_back (col : list cell) : Prop :=
  Forall (fun c => Some (default "" (strftime <$> parse_dt col c)) = c) col.

#[global] Instance reads_back_dec (col : list cell) :
  Decision (reads_back col).
Proof. unfold reads_back. apply _. Defined.

End Pipeline.

(** *** A reference parser for examples

    [pd.to_datetime] on the two spellings the program itself writes,
    [YYYY-MM-DDTHH:MM:SS+00:00] ([to_iso]) and [YYYY-MM-DDTHH:MM:SSZ] (the
    snapshot); any other text, and a missing value, is [NaT]. *)

Fixpoint number_from (acc : Z) (s : string) : option Z :=
  match s with
  | EmptyString => Some acc
  | String c r =>
      let n := ord c in
      if (48 <=? n) && (n <=? 57) then number_from (10 * acc + (n - 48)) r
      else None
  end.

Definition number (s : string) : option Z :=
  match s with
  | EmptyString => None
  | _ => number_from 0 s
  end.

Definition is_leap (y : Z) : bool :=
  ((y mod 4 =? 0) && negb (y mod 100 =? 0)) || (y mod 400 =? 0).

Definition days_in_month (y m : Z) : Z :=
  if m =? 2 then (if is_leap y then 29 else 28)
  else if (m =? 4) || (m =? 6) || (m =? 9) || (m =? 11) then 30
  else 31.

(** the day number of a civil date *)
Definition days_from_civil (y m d : Z) : Z :=
  let y := if m <=? 2 then y - 1 else y in
  let era := y / 400 in
  let yoe := y - era * 400 in
  let doy := (153 * (if 2 <? m then m - 3 else m + 9) + 2) / 5 + d - 1 in
  let doe := yoe * 365 + yoe / 4 - yoe / 100 + doy in
  era * 146097 + doe - 719468.

Definition to_datetime_iso (c : cell) : option Z :=
  s ← c;
  let part a n := String.substring a n s in
  let tz := String.substring 19 (String.length s - 19) s in
  if bool_decide (tz = "Z" ∨ tz = "+00:00")
     && bool_decide (part 4 1 = "-" ∧ part 7 1 = "-" ∧ part 10 1 = "T"
                     ∧ part 13 1 = ":" ∧ part 16 1 = ":")%nat
  then
    y ← number (part 0 4)%nat; m ← number (part 5 2)%nat;
    d ← number (part 8 2)%nat; hh ← number (part 11 2)%nat;
    mm ← number (part 14 2)%nat; ss ← number (part 17 2)%nat;
    if (1 <=? m) && (m <=? 12) && (1 <=? d) && (d <=? days_in_month y m)
       && (hh <? 24) && (mm <? 60) && (ss <? 60)
    then Some ((days_from_civil y m d * 86400 + hh * 3600 + mm * 60 + ss)
               * 10 ^ 9)
    else None
  else None.


(** ** Fetching

    What the network and [feedparser] deliver for a feed URL is an oracle:
    either the fetch raises (in [feedparser.parse], before a row is built),
    or it yields the time of the fetch, the title of the feed and its
    entries.  Of an entry the model keeps the values [fetch_feed_rows]
    reads from it: [published] is [to_iso(published_parsed or
    updated_parsed)], [author] is [author or dc_creator or creator],
    [summary] is [summary or description], [media] is [first_media_url]. *)

Record Entry := {
  entry_title : cell;
  entry_link : cell;
  entry_published : cell;
  entry_author : cell;
  entry_summary : cell;
  entry_media : cell
}.

Inductive Fetched :=
  | FetchRaises
  | FetchFeed (fetched_at : string) (feed_title : cell) (entries : list Entry).

(** a value or an exception *)
Inductive Result (A : Type) :=
  | Ok (a : A)
  | Raise.
Arguments Ok {A} a.
Arguments Raise {A}.

Definition SOURCE_FALLBACK : string := "RSS Feed".

(** [s(x)]: [None]/[NaN] to the empty text *)
Definition s (x : cell) : string := default "" x.

(** [a or b] on texts *)
Definition or_else (a b : string) : string :=
  match a with EmptyString => b | _ => a end.

Definition raises (f : Fetched) : bool :=
  match f with FetchRaises => true | FetchFeed _ _ _ => false end.



Section Fetching.
Variable parse_dt : list cell -> cell -> option Z.
(** [urlparse(feed_url).netloc] *)
Variable netloc : string -> string.
Variable feedparser_parse : string -> Fetched.

(** the dict [fetch_feed_rows] appends for one entry *)
Definition entry_row (source_name feed_url fetched_at : string) (en : Entry)
  : Rand Row :=
  id ← gen_article_id (entry_link en);
  mret {| article_id := Some id;
          title := Some (s (entry_title en));
          published_time_utc := Some (s (entry_published en));
          author := Some (s (entry_author en));
          description := Some (s (entry_summary en));
          url := Some (s (entry_link en));
          image_url := Some (s (entry_media en));
          source_name := Some (s (Some source_name));
          source_feed_url := Some (s (Some feed_url));
          fetched_at_utc := Some fetched_at |}.

(** [fetch_feed_rows(feed_url)] *)
Definition fetch_feed_rows (feed_url : string) : Rand (Result DataFrame) :=
  match feedparser_parse feed_url with
  | FetchRaises => mret Raise
  | FetchFeed fetched_at feed_title entries =>
      let source_name :=
        or_else (or_else (s feed_title) (netloc feed_url)) SOURCE_FALLBACK in
      rows ← mapM (entry_row source_name feed_url fetched_at) entries;
      df ← dedupe_df parse_dt rows;
      mret (Ok df)
  end.

(** the loop of [fetch_all_feeds]: [try: frames.append(fetch_feed_rows(u))
    except Exception: pass] *)
Fixpoint fetch_frames (feed_urls : list string) : Rand (list DataFrame) :=
  match feed_urls with
  | [] => mret []
  | u :: rest =>
      r ← fetch_feed_rows u;
      frames ← fetch_frames rest;
      mret (match r with Ok df => df :: frames | Raise => frames end)
  end.

(** [fetch_all_feeds(feed_urls)]; [pd.concat(frames, ignore_index=True)]
    joins the frames, and no frames give the empty frame *)
Definition fetch_all_feeds (feed_urls : list string)
  : Rand (Result DataFrame) :=
  frames ← fetch_frames feed_urls;
  let df : DataFrame := concat frames in
  df ← dedupe_df parse_dt df;
  mret (Ok df).

End Fetching.

(** ** The durable store: [df_to_rows]

    [datetime.now(timezone.utc)] reads a clock: the [n]-th reading of the
    process is [now_at n].  [uuid.UUID(text)] is a parameter, [None] when
    it raises.  A timestamp handed to the driver is the parsed time. *)

Record Clock := { now_at : nat -> Z; reads : nat }.

Definition Sys : Type := Entropy * Clock.
Definition Io (A : Type) : Type := Sys -> A * Sys.

#[global] Instance io_ret : MRet Io := fun A (a : A) w => (a, w).
#[global] Instance io_bind : MBind Io :=
  fun A B (k : A -> Io B) (m : Io A) w => let '(a, w') := m w in k a w'.

(** a computation that only draws entropy, run in [Io] *)
Definition with_entropy {A} (m : Rand A) : Io A :=
  fun w => let '(a, e') := m w.1 in (a, (e', w.2)).

Definition datetime_now : Io Z :=
  fun w => (now_at w.2 (reads w.2),
            (w.1, {| now_at := now_at w.2; reads := S (reads w.2) |})).

(** the tuple [df_to_rows] builds for one row, in the order of the
    columns of [UPSERT_SQL] *)
Record DbRow := {
  db_article_id : Z;
  db_title : string;
  db_published_time : option Z;
  db_author : cell;
  db_description : cell;
  db_url : cell;
  db_image_url : cell;
  db_source_name : cell;
  db_source_feed_url : cell;
  db_fetched_at_utc : Z
}.

(** [str(val)] of a cell *)
Definition str_cell (c : cell) : string :=
  match c with Some t => t | None => "None" end.

(** [x or None] *)
Definition or_None (c : cell) : cell :=
  match c with
  | Some EmptyString => None
  | _ => c
  end.

Section Store.
Variable parse_dt : list cell -> cell -> option Z.
Variable UUID_of_text : string -> option Z.

(** [safe_uuid(val)]: a malformed id falls back to a random UUID *)
Definition safe_uuid (val : cell) : Io Z :=
  match UUID_of_text (str_cell val) with
  | Some u => mret u
  | None => with_entropy uuid4
  end.

(** the tuple of one row; [pub] and [fet] are its parsed times *)
Definition db_row (r : Row) (pub fet : option Z) : Io DbRow :=
  id ← safe_uuid (article_id r);
  fetched ← match fet with
            | Some t => mret t
            | None => datetime_now
            end;
  mret {| db_article_id := id;
          db_title := String.substring 0 10000 (default "" (title r));
          db_published_time := pub;
          db_author := or_None (author r);
          db_description := or_None (description r);
          db_url := or_None (or_None (url r));
          db_image_url := or_None (or_None (image_url r));
          db_source_name := or_None (or_None (source_name r));
          db_source_feed_url := or_None (or_None (source_feed_url r));
          db_fetched_at_utc := fetched |}.

(** [df_to_rows(df)] *)
Definition df_to_rows (df : DataFrame) : Io (list DbRow) :=
  match df with
  | [] => mret []
  | _ =>
      let pub := to_datetime parse_dt (published_time_utc <$> df) in
      let fet := to_datetime parse_dt (fetched_at_utc <$> df) in
      mapM (fun rpf => db_row rpf.1.1 rpf.1.2 rpf.2) (zip (zip df pub) fet)
  end.

(** the id of a row is the text of a UUID *)
Definition wf_id (rpf : Row * option Z * option Z) : Prop :=
  is_Some (UUID_of_text (str_cell (article_id rpf.1.1))).

(** every id of the frame is the text of a UUID *)
Definition well_formed_ids (df : DataFrame) : Prop :=
  Forall (fun r => is_Some (UUID_of_text (str_cell (article_id r)))) df.

(** every [fetched_at_utc] of the frame parses *)
Definition fetched_at_parses (df : DataFrame) : Prop :=
  Forall (fun t => is_Some t) (to_datetime parse_dt (fetched_at_utc <$> df)).

#[global] Instance well_formed_ids_dec (df : DataFrame) :
  Decision (well_formed_ids df).
Proof. unfold well_formed_ids. apply _. Defined.

#[global] Instance fetched_at_parses_dec (df : DataFrame) :
  Decision (fetched_at_parses df).
Proof. unfold fetched_at_parses. apply _. Defined.

End Store.

(** [uuid.UUID(text)] on the canonical spelling, 32 hexadecimal digits in
    groups of 8-4-4-4-12; for the examples *)
Definition hex_digit (c : ascii) : option Z :=
  let n := ord c in
  if (48 <=? n) && (n <=? 57) then Some (n - 48)
  else if (97 <=? n) && (n <=? 102) then Some (n - 87)
  else if (65 <=? n) && (n <=? 70) then Some (n - 55)
  else None.

Fixpoint hex_number (acc : Z) (t : string) : option Z :=
  match t with
  | EmptyString => Some acc
  | String c r =>
      match hex_digit c with
      | Some d => hex_number (16 * acc + d) r
      | None => None
      end
  end.

Definition UUID_canonical (t : string) : option Z :=
  if (String.length t =? 36)%nat
     && bool_decide (String.substring 8 1 t = "-" ∧ String.substring 13 1 t = "-"
                     ∧ String.substring 18 1 t = "-"
                     ∧ String.substring 23 1 t = "-")
  then hex_number 0 (undash t)
  else None.

(** ** Files

    A file is the list of the lines written to it; the file system maps a
    path to its file.  Writing a file in place is two steps a reader can
    see between: the file is opened for writing, which truncates it, and
    the lines are written.  [os.replace] renames in one step. *)

Inductive Line :=
  | Header
  | Record (r : Row).

#[global] Instance Line_eq_dec : EqDecision Line.
Proof. solve_decision. Defined.

Inductive FsOp :=
  | FsTruncate (path : string)
  | FsWrite (path : string) (lines : list Line)
  | FsReplace (src dst : string).

Definition fs_apply (fs : gmap string (list Line)) (op : FsOp)
  : gmap string (list Line) :=
  match op with
  | FsTruncate p => <[p := []]> fs
  | FsWrite p ls => <[p := default [] (fs !! p) ++ ls]> fs
  | FsReplace a b =>
      match fs !! a with
      | Some c => <[b := c]> (delete a fs)
      | None => fs
      end
  end.

(** the file system after the steps *)
Definition fs_run (ops : list FsOp) (fs : gmap string (list Line))
  : gmap string (list Line) :=
  foldl fs_apply fs ops.

(** the states a reader can see: before the first step and after each *)
Fixpoint fs_trace (ops : list FsOp) (fs : gmap string (list Line))
  : list (gmap string (list Line)) :=
  match ops with
  | [] => [fs]
  | op :: rest => fs :: fs_trace rest (fs_apply fs op)
  end.

Definition CSV_OUT : string := "vrt_nws_latest.csv".

(** the lines of a frame: the header row, then one line per row *)
Definition csv_lines (df : DataFrame) : list Line := Header :: (Record <$> df).

(** [df.to_csv(path, index=False)] *)
Definition to_csv (path : string) (df : DataFrame) : list FsOp :=
  [FsTruncate path; FsWrite path (csv_lines df)].



Section Persistence.
Variable parse_dt : list cell -> cell -> option Z.
Variable UUID_of_text : string -> option Z.
Variable netloc : string -> string.

(** [save_csv(df)] *)
Definition save_csv (df : DataFrame) : Rand (list FsOp) :=
  df ← dedupe_df parse_dt df;
  mret (to_csv CSV_OUT df).

(** the table [rss_article], keyed by [article_id]; [UPSERT_SQL] inserts
    a row or overwrites the row of its key *)
Definition execute_values (rows : list DbRow) (db : gmap Z DbRow)
  : gmap Z DbRow :=
  foldl (fun db row => <[db_article_id row := row]> db) db rows.

(** [upsert_articles(df)]: [available] tells whether [pg_connect] and the
    statement succeed; no rows, no connection *)
Definition upsert_articles (available : bool) (df : DataFrame)
    (db : gmap Z DbRow) : Io (Result nat * gmap Z DbRow) :=
  rows ← df_to_rows parse_dt UUID_of_text df;
  match rows with
  | [] => mret (Ok 0%nat, db)
  | _ => if available then mret (Ok (length rows), execute_values rows db)
         else mret (Raise, db)
  end.

(** the application state [poll_once] reads and writes *)
Inductive Status :=
  | StatusIdle
  | StatusAdded (new total : nat)
  | StatusNoNew (total : nat)
  | StatusPollingError.

Record State := {
  feeds : list string;
  current_df : DataFrame;
  auto_download_new : bool;
  status : Status;
  files : gmap string (list Line);
  database : gmap Z DbRow;
  db_errors : nat
}.

(** what one cycle meets outside: the feeds, whether the database can be
    reached, whether [ensure_media_dir] succeeds *)
Record Cycle := {
  feedparser_parse : string -> Fetched;
  db_available : bool;
  media_dir_ok : bool
}.

(** the fetch and the merge of a cycle *)
Definition poll_merge (cy : Cycle) (st : State)
  : Rand (Result (DataFrame * gset cell)) :=
  fresh ← fetch_all_feeds parse_dt netloc (feedparser_parse cy) (feeds st);
  match fresh with
  | Raise => mret Raise
  | Ok fresh =>
      m ← merge_new parse_dt (current_df st) fresh;
      mret (Ok m)
  end.

(** [combined[combined["article_id"].isin(new_ids)]], or the empty frame *)
Definition to_write (combined : DataFrame) (new_ids : gset cell) : DataFrame :=
  if decide (new_ids = ∅) then []
  else filter (fun r => article_id r ∈ new_ids) combined.

(** the loop over [new_ids] calling [download_image]: it raises when
    [ensure_media_dir] fails, which is reached for a new row with an image
    URL; a failed download itself is caught *)
Definition prefetch_raises (cy : Cycle) (st : State) (combined : DataFrame)
    (new_ids : gset cell) : bool :=
  bool_decide (new_ids ≠ ∅) && auto_download_new st && negb (media_dir_ok cy)
  && bool_decide (Exists (fun r => article_id r ∈ new_ids
                                   ∧ s (image_url r) ≠ "") combined).

(** [poll_once] *)
Definition poll_once (cy : Cycle) (st : State) : Io State :=
  m ← with_entropy (poll_merge cy st);
  match m with
  | Raise =>
      mret {| feeds := feeds st; current_df := current_df st;
              auto_download_new := auto_download_new st;
              status := StatusPollingError; files := files st;
              database := database st; db_errors := db_errors st |}
  | Ok (combined, new_ids) =>
      up ← upsert_articles (db_available cy) (to_write combined new_ids)
             (database st);
      let db' := up.2 in
      let errs := match up.1 with
                  | Raise => S (db_errors st)
                  | Ok _ => db_errors st
                  end in
      if prefetch_raises cy st combined new_ids then
        mret {| feeds := feeds st; current_df := current_df st;
                auto_download_new := auto_download_new st;
                status := StatusPollingError; files := files st;
                database := db'; db_errors := errs |}
      else if decide (new_ids = ∅) then
        shown ← with_entropy (dedupe_df parse_dt combined);
        mret {| feeds := feeds st; current_df := shown;
                auto_download_new := auto_download_new st;
                status := StatusNoNew (length shown); files := files st;
                database := db'; db_errors := errs |}
      else
        ops ← with_entropy (save_csv combined);
        shown ← with_entropy (dedupe_df parse_dt combined);
        mret {| feeds := feeds st; current_df := shown;
                auto_download_new := auto_download_new st;
                status := StatusAdded (size new_ids) (length shown);
                files := fs_run ops (files st);
                database := db'; db_errors := errs |}
  end.

End Persistence.

(** ** Frames as objects

    To tell a frame that is changed in place from a new one, the frames are
    objects in a store: a function receives and returns references.  Each
    pandas call that returns a new frame ([copy], [fillna], [astype],
    [drop_duplicates], [assign], [sort_values], [drop], [df[cols]],
    [df.loc[mask]], [pd.concat], [pd.DataFrame]) allocates; an assignment
    to a column ([df[c] = ...], [df.loc[mask, c] = ...]) writes the object
    the variable refers to. *)

Record Mem := { heap : gmap nat DataFrame; entropy : Entropy }.

Definition Py (A : Type) : Type := Mem -> A * Mem.

#[global] Instance py_ret : MRet Py := fun A (a : A) m => (a, m).
#[global] Instance py_bind : MBind Py :=
  fun A B (k : A -> Py B) (c : Py A) m => let '(a, m') := c m in k a m'.

(** a new frame object *)
Definition new_frame (df : DataFrame) : Py nat :=
  fun m => let l := fresh (dom (heap m)) in
           (l, {| heap := <[l := df]> (heap m); entropy := entropy m |}).

(** the rows of the object at a reference *)
Definition get_frame (l : nat) : Py DataFrame :=
  fun m => (default [] (heap m !! l), m).

(** an assignment into the object at a reference *)
Definition set_frame (l : nat) (df : DataFrame) : Py () :=
  fun m => ((), {| heap := <[l := df]> (heap m); entropy := entropy m |}).

(** a computation that only draws entropy *)
Definition draw {A} (c : Rand A) : Py A :=
  fun m => let '(a, e') := c (entropy m) in
           (a, {| heap := heap m; entropy := e' |}).

Section Objects.
Variable parse_dt : list cell -> cell -> option Z.

(** [normalize_ids(df)] on references *)
Definition normalize_ids_obj (df : nat) : Py nat :=
  rows ← get_frame df;
  match rows with
  | [] => new_frame []
  | _ =>
      df ← new_frame rows;
      rows ← get_frame df;
      _ ← set_frame df rows;
      rows ← get_frame df;
      df ← new_frame (fillna_row <$> rows);
      rows ← get_frame df;
      rows ← draw (mapM backfill rows);
      _ ← set_frame df rows;
      rows ← get_frame df;
      new_frame rows
  end.

(** [dedupe_df(df)] on references *)
Definition dedupe_df_obj (df : nat) : Py nat :=
  df ← normalize_ids_obj df;
  rows ← get_frame df;
  df ← match rows with
       | [] => mret df
       | _ => new_frame (drop_duplicates rows)
       end;
  rows ← get_frame df;
  let dt := to_datetime parse_dt (published_time_utc <$> rows) in
  let sorted := sort_values_desc (zip dt rows) in
  df ← new_frame (sorted.*2);
  _ ← set_frame df
        ((fun kr => set_published_time_utc (strftime <$> kr.1) kr.2) <$> sorted);
  normalize_ids_obj df.

(** [merge_new(existing, freshly)] on references *)
Definition merge_new_obj (existing freshly : nat) : Py (nat * gset cell) :=
  freshly ← dedupe_df_obj freshly;
  existing ← dedupe_df_obj existing;
  old ← get_frame existing;
  match old with
  | [] =>
      let added := freshly in
      let total := added in
      rows ← get_frame added;
      mret (total, id_set rows)
  | _ =>
      let existing_ids : gset cell :=
        list_to_set (astype_str <$> (article_id <$> old)) in
      rows ← get_frame freshly;
      _ ← set_frame freshly
            ((fun r => set_article_id (astype_str (article_id r)) r) <$> rows);
      rows ← get_frame freshly;
      added ← new_frame (filter (fun r => article_id r ∉ existing_ids) rows);
      new ← get_frame added;
      total ← new_frame (old ++ new);
      total ← dedupe_df_obj total;
      mret (total, id_set new)
  end.

End Objects.

(** ** Frames and an entropy source for the examples *)

Definition demo_entropy : Entropy :=
  {| urandom16 := fun n => 0x0123456789abcdef0123456789abcdef + Z.of_nat n;
     drawn := 0 |}.

(** a row as [fetch_feed_rows] builds it, the id left to [normalize_ids] *)
Definition feed_row (id title published link : string) : Row :=
  {| article_id := Some id; title := Some title;
     published_time_utc := Some published; author := Some "";
     description := Some ""; url := Some link; image_url := None;
     source_name := Some "VRT NWS";
     source_feed_url := Some "https://www.vrt.be/vrtnws/nl.rss.articles.xml";
     fetched_at_utc := Some "2024-01-04T00:00:00+00:00" |}.

Definition demo_existing : DataFrame :=
  [ feed_row "" "Old" "2024-01-01T10:00:00+00:00" "https://example.org/a" ].

Definition demo_fresh : DataFrame :=
  [ feed_row "" "New" "2024-01-01T10:00:00+00:00" "https://example.org/a";
    feed_row "" "D" "2024-01-03T08:30:00+00:00" "https://example.org/d";
    feed_row "" "No link" "" "" ].

(** the record of [demo_existing] once normalised *)
Definition demo_old : Row :=
  {| article_id := Some "77980eae-c343-5b01-9823-eb6ac1da021f"; title := Some "Old";
     published_time_utc := Some "2024-01-01T10:00:00Z"; author := Some "";
     description := Some ""; url := Some "https://example.org/a";
     image_url := Some ""; source_name := Some "VRT NWS";
     source_feed_url := Some "https://www.vrt.be/vrtnws/nl.rss.articles.xml";
     fetched_at_utc := Some "2024-01-04T00:00:00+00:00" |}.

Definition iso : list cell -> cell -> option Z := fun _ => to_datetime_iso.

Definition demo_clock : Clock :=
  {| now_at := fun n => 1704326400000000000 + Z.of_nat n * 10 ^ 9; reads := 0 |}.

Definition demo_sys : Sys := (demo_entropy, demo_clock).

(** a snapshot row whose id is not the text of a UUID *)
Definition demo_bad_id : DataFrame :=
  [ feed_row "not-a-uuid" "Old" "2024-01-01T10:00:00Z" "https://example.org/a" ].

(** a cycle in which the feed delivers the two entries of [demo_fresh]
    that have a link, and the database cannot be reached *)
Definition demo_feed_url : string :=
  "https://www.vrt.be/vrtnws/nl.rss.articles.xml".

Definition demo_entry (title published link : string) : Entry :=
  {| entry_title := Some title; entry_link := Some link;
     entry_published := Some published; entry_author := None;
     entry_summary := None; entry_media := None |}.

Definition demo_cycle : Cycle :=
  {| feedparser_parse := fun _ =>
       FetchFeed "2024-01-04T00:00:00+00:00" (Some "VRT NWS")
         [ demo_entry "New" "2024-01-01T10:00:00+00:00" "https://example.org/a";
           demo_entry "D" "2024-01-03T08:30:00+00:00" "https://example.org/d" ];
     db_available := false;
     media_dir_ok := true |}.

(** a cycle in which the feed has no entries *)
Definition quiet_cycle : Cycle :=
  {| feedparser_parse := fun _ => FetchFeed "2024-01-04T00:00:00+00:00" None [];
     db_available := true;
     media_dir_ok := true |}.

Definition demo_netloc : string -> string := fun _ => "www.vrt.be".

(** the state of the application with [demo_old] shown and saved *)
Definition demo_state : State :=
  {| feeds := [demo_feed_url]; current_df := [demo_old];
     auto_download_new := true; status := StatusIdle;
     files := {[ CSV_OUT := csv_lines [demo_old] ]};
     database := ∅; db_errors := 0 |}.

(** the state at start-up when there is no snapshot file *)
Definition initial_state : State :=
  {| feeds := [demo_feed_url]; current_df := [];
     auto_download_new := true; status := StatusIdle;
     files := ∅; database := ∅; db_errors := 0 |}.

(** a store holding the two example frames *)
Definition demo_mem : Mem :=
  {| heap := {[ 0%nat := demo_existing; 1%nat := demo_fresh ]};
     entropy := demo_entropy |}.

(** ** Notions for the further properties *)

(** the optional columns of a tuple are [NULL] rather than empty *)
Definition no_empty_text (row : DbRow) : Prop :=
  db_author row ≠ Some "" ∧ db_description row ≠ Some ""
  ∧ db_url row ≠ Some "" ∧ db_image_url row ≠ Some ""
  ∧ db_source_name row ≠ Some "" ∧ db_source_feed_url row ≠ Some "".

(** the rows of a batch with the key [k], in the order submitted *)
Definition with_key (k : Z) (rows : list DbRow) : list DbRow :=
  filter (fun row => db_article_id row = k) rows.

(** the id of the row is the text of a UUID as [str] spells it, which is
    what [gen_article_id] returns *)
Definition generated_id (r : Row) : Prop :=
  ∃ x : Z, article_id r = Some (str_uuid x).

(** the UUID an id spells *)
Definition key_of (c : cell) : Z := default 0 (UUID_canonical (str_cell c)).

(** the row [r] carries the values of the entry [en] of the feed at [u],
    fetched at [fetched_at], whose title is [feed_title]; the published
    time apart, which [dedupe_df] prints again *)
Definition from_entry (netloc : string -> string) (u fetched_at : string)
    (feed_title : cell) (en : Entry) (r : Row) : Prop :=
  generated_id r
  ∧ (∀ (c : ascii) (l : string),
       entry_link en = Some (String c l) ->
       article_id r = Some (str_uuid (uuid5 NAMESPACE_URL (String c l))))
  ∧ title r = Some (s (entry_title en))
  ∧ author r = Some (s (entry_author en))
  ∧ description r = Some (s (entry_summary en))
  ∧ url r = Some (s (entry_link en))
  ∧ image_url r = Some (s (entry_media en))
  ∧ source_name r
    = Some (or_else (or_else (s feed_title) (netloc u)) SOURCE_FALLBACK)
  ∧ source_feed_url r = Some u
  ∧ fetched_at_utc r = Some fetched_at.

(** the row comes from an entry of a feed of [urls] whose fetch returned *)
Definition fetched_from (netloc : string -> string)
    (feedparser_parse : string -> Fetched) (urls : list string) (r : Row)
  : Prop :=
  ∃ (u fetched_at : string) (feed_title : cell) (entries : list Entry)
    (en : Entry),
    u ∈ urls
    ∧ feedparser_parse u = FetchFeed fetched_at feed_title entries
    ∧ en ∈ entries
    ∧ from_entry netloc u fetched_at feed_title en r.

(** ** The media of an entry: [first_media_url]

    Of an entry the function reads three lists of dicts: of the dicts of
    [media_content] and [media_thumbnail] the value under ["url"], of the
    dicts of [enclosures] the values under ["href"] and ["url"]; a value is
    [None] when the key is missing.  An attribute that is missing, empty or
    not a list is skipped by the code, and is the empty list here. *)

Record MediaEntry := {
  media_content : list cell;
  media_thumbnail : list cell;
  enclosures : list (cell * cell)
}.

(** the truth value of [None] or a text *)
Definition truthy (c : cell) : bool :=
  match c with
  | Some (String _ _) => true
  | _ => false
  end.

(** [a or b] on cells *)
Definition cell_or (a b : cell) : cell := if truthy a then a else b.

(** [for m in l: if m: return m], [None] when the loop ends *)
Fixpoint first_truthy (l : list cell) : cell :=
  match l with
  | [] => None
  | c :: rest => if truthy c then c else first_truthy rest
  end.

(** [first_media_url(entry)] *)
Definition first_media_url (entry : MediaEntry) : cell :=
  match first_truthy (media_content entry) with
  | Some url => Some url
  | None =>
      match first_truthy (media_thumbnail entry) with
      | Some url => Some url
      | None =>
          first_truthy ((fun e => cell_or e.1 e.2) <$> enclosures entry)
      end
  end.

(** the URLs the function looks at, in the order it looks at them *)
Definition media_candidates (entry : MediaEntry) : list cell :=
  media_content entry ++ media_thumbnail entry
  ++ ((fun e => cell_or e.1 e.2) <$> enclosures entry).

(** ** The list of feeds

    [self.feeds] and the file [feeds.json].  Of the file the model keeps
    what [load_feeds] reads from it: it is missing, or it does not parse to
    a value that can be iterated over, or it holds items, of which one that
    is not a string is [None]. *)

Definition DEFAULT_FEEDS : list string :=
  ["https://www.vrt.be/vrtnws/nl.rss.articles.xml"].

Inductive FeedsFile :=
  | FeedsMissing
  | FeedsUnreadable
  | FeedsJson (data : list (option string)).

(** [save_feeds(feeds)]: what the file holds afterwards *)
Definition save_feeds (feeds : list string) : FeedsFile :=
  FeedsJson (Some <$> feeds).

(** [load_feeds()]: the list and the file afterwards *)
Definition load_feeds (file : FeedsFile) : list string * FeedsFile :=
  match file with
  | FeedsMissing => (DEFAULT_FEEDS, save_feeds DEFAULT_FEEDS)
  | FeedsUnreadable => (DEFAULT_FEEDS, file)
  | FeedsJson data =>
      match omap id data with
      | [] => (DEFAULT_FEEDS, file)
      | feeds => (feeds, file)
      end
  end.

(** [str.lower] on one character, for code points below 256 *)
Definition lower_char (c : ascii) : ascii :=
  let n := ord c in
  if ((65 <=? n) && (n <=? 90))
     || ((192 <=? n) && (n <=? 222) && negb (n =? 215))
  then chr (n + 32) else c.

Fixpoint lower (t : string) : string :=
  match t with
  | EmptyString => EmptyString
  | String c r => String (lower_char c) (lower r)
  end.

(** [needle in hay] *)
Fixpoint contains (needle hay : string) : bool :=
  String.prefix needle hay
  || match hay with
     | EmptyString => false
     | String _ r => contains needle r
     end.

(** [seems_like_feed_url(u)] *)
Definition seems_like_feed_url (u : string) : bool :=
  match u with
  | EmptyString => false
  | _ =>
      if negb (contains "://" u) then false
      else existsb (fun tok => contains tok (lower u))
             [".xml"; "/feed"; "rss"; "atom"]
  end.

(** the loop [for f in feeds: if f not in seen: seen.add(f);
    uniq.append(f)] of [discover_feed_urls] and [get_selection_ids] *)
Fixpoint uniq_seen (seen : gset string) (l : list string) : list string :=
  match l with
  | [] => []
  | a :: rest =>
      if decide (a ∈ seen) then uniq_seen seen rest
      else a :: uniq_seen ({[a]} ∪ seen) rest
  end.

Definition uniq (l : list string) : list string := uniq_seen ∅ l.

(** [discover_feed_urls(page_url)]; [links] is what the page gives: the
    request or the parse raises, or the joined [href]s of its feed links,
    in the order of the page *)
Definition discover_feed_urls (links : Result (list string)) : list string :=
  match links with
  | Raise => []
  | Ok feeds => uniq feeds
  end.

Record Sources := {
  feed_urls : list string;
  FEEDS_JSON : FeedsFile
}.

Definition append_feed (u : string) (st : Sources) : Sources :=
  {| feed_urls := feed_urls st ++ [u];
     FEEDS_JSON := save_feeds (feed_urls st ++ [u]) |}.

Section Sources.
(** what [feedparser.parse] gives for a URL, what a page links to *)
Variable feedparser_parse : string -> Fetched.
Variable page_links : string -> Result (list string).

(** [add_feed]; [text] is the content of the entry field *)
Definition add_feed (text : cell) (st : Sources) : Sources :=
  let u := strip (s text) in
  match u with
  | EmptyString => st
  | _ =>
      if negb (seems_like_feed_url u) then st
      else if bool_decide (u ∈ feed_urls st) then st
      else match feedparser_parse u with
           | FetchRaises => st
           | FetchFeed _ _ [] => st
           | FetchFeed _ _ (_ :: _) => append_feed u st
           end
  end.

(** [find_feed_on_page] *)
Definition find_feed_on_page (text : cell) (st : Sources) : Sources :=
  let u := strip (s text) in
  match u with
  | EmptyString => st
  | _ =>
      let found := discover_feed_urls (page_links u) in
      match filter (fun f => f ∉ feed_urls st) found with
      | [] => st
      | choice :: _ => append_feed choice st
      end
  end.

(** [remove_selected_feed]; [sel] is [curselection()].  An index beyond
    the list makes [self.feeds[idx]] raise, which leaves the state as it
    is. *)
Definition remove_selected_feed (sel : list nat) (st : Sources) : Sources :=
  match sel with
  | [] => st
  | idx :: _ =>
      match feed_urls st !! idx with
      | None => st
      | Some _ =>
          if (length (feed_urls st) =? 1)%nat then st
          else {| feed_urls := delete idx (feed_urls st);
                  FEEDS_JSON := save_feeds (delete idx (feed_urls st)) |}
      end
  end.

(** what the user does on the sources tab *)
Inductive SourceAction :=
  | AddFeed (text : cell)
  | FindFeedOnPage (text : cell)
  | RemoveSelectedFeed (sel : list nat).

Definition source_step (st : Sources) (a : SourceAction) : Sources :=
  match a with
  | AddFeed text => add_feed text st
  | FindFeedOnPage text => find_feed_on_page text st
  | RemoveSelectedFeed sel => remove_selected_feed sel st
  end.

(** the application started on [file], then the actions in turn *)
Definition sources_run (file : FeedsFile) (actions : list SourceAction)
  : Sources :=
  foldl source_step
        {| feed_urls := (load_feeds file).1; FEEDS_JSON := (load_feeds file).2 |}
        actions.

End Sources.

(** ** The table of the window: [populate_table], [get_selection_ids]

    The tree widget holds one item per row, under an item id; inserting an
    item under an id the tree already has raises.  [iid_to_article_id]
    maps the item ids back to the article ids. *)

Record Tree := {
  tree_items : list (string * Row * bool);
  iid_to_article_id : gmap string string
}.

(** the item id of the row at position [i] *)
Definition tree_iid (i : nat) (true_id : string) (seen_iids : gset string)
  : Rand string :=
  iid ← match true_id with
        | EmptyString =>
            x ← uuid4;
            mret ("row_" +:+ pretty i +:+ "_"
                  +:+ String.substring 0 6 (hex_digits 32 x))
        | _ => mret true_id
        end;
  mret (if decide (iid ∈ seen_iids) then iid +:+ "-" +:+ pretty i else iid).

(** the loop of [populate_table] from position [i] on; the tree was
    emptied before the loop, so that its item ids are those of the items
    inserted so far *)
Fixpoint populate_rows (i : nat) (rows : DataFrame) (new_ids : gset cell)
    (seen_iids : gset string) (inserted : list string)
    (acc : Tree) : Rand (Result Tree) :=
  match rows with
  | [] => mret (Ok acc)
  | row :: rest =>
      let true_id := s (article_id row) in
      iid ← tree_iid i true_id seen_iids;
      if decide (iid ∈ inserted) then mret Raise
      else
        populate_rows (S i) rest new_ids ({[iid]} ∪ seen_iids)
          (inserted ++ [iid])
          {| tree_items :=
               tree_items acc
               ++ [(iid, row, bool_decide (Some true_id ∈ new_ids))];
             iid_to_article_id := <[iid := true_id]> (iid_to_article_id acc) |}
  end.

(** [populate_table(df, new_ids)]: the frame shown and the tree, or the
    exception of the tree *)
Definition populate_table (parse_dt : list cell -> cell -> option Z)
    (df : DataFrame) (new_ids : gset cell)
  : Rand (DataFrame * Result Tree) :=
  df ← dedupe_df parse_dt df;
  tree ← populate_rows 0 df new_ids ∅ []
            {| tree_items := []; iid_to_article_id := ∅ |};
  mret (df, tree).

(** [get_selection_ids]; [sel_iids] is [self.tree.selection()] *)
Definition get_selection_ids (tree : Tree) (sel_iids : list string)
  : list string :=
  uniq (filter (fun aid => aid ≠ "")
          ((fun iid => default iid (iid_to_article_id tree !! iid))
             <$> sel_iids)).

(** the tree of a frame whose item ids are the article ids *)
Definition tree_of (df : DataFrame) (new_ids : gset cell) : Tree :=
  {| tree_items :=
       (fun r => (s (article_id r), r,
                  bool_decide (Some (s (article_id r)) ∈ new_ids))) <$> df;
     iid_to_article_id :=
       list_to_map ((fun r => (s (article_id r), s (article_id r))) <$> df) |}.

(** the tuple [row] holds the texts of the row [r]: the title cut to
    10000 characters, an empty text of an optional column as [NULL] *)
Definition tuple_of (r : Row) (row : DbRow) : Prop :=
  db_title row = String.substring 0 10000 (s (title r))
  ∧ db_author row = or_None (author r)
  ∧ db_description row = or_None (description r)
  ∧ db_url row = or_None (url r)
  ∧ db_image_url row = or_None (image_url r)
  ∧ db_source_name row = or_None (source_name r)
  ∧ db_source_feed_url row = or_None (source_feed_url r).

(** ** Further examples *)

#[global] Instance filled_dec (r : Row) : Decision (filled r).
Proof. unfold filled. apply _. Defined.

#[global] Instance clean_dec (r : Row) : Decision (clean r).
Proof. unfold clean, has_id. apply _. Defined.

(** a check of [generated_id]: the id reads as a UUID that is spelled so *)
Definition generated_id_check (r : Row) : bool :=
  match article_id r with
  | Some t =>
      match UUID_canonical t with
      | Some x => bool_decide (str_uuid x = t)
      | None => false
      end
  | None => false
  end.

(** the frame the fetch of [demo_fresh] gives *)
Definition demo_shown : DataFrame := (dedupe_df iso demo_fresh demo_entropy).1.

(** a cycle in which the entry has an image and the media directory cannot
    be made *)
Definition media_cycle : Cycle :=
  {| feedparser_parse := fun _ =>
       FetchFeed "2024-01-04T00:00:00+00:00" (Some "VRT NWS")
         [ {| entry_title := Some "D"; entry_link := Some "https://example.org/d";
              entry_published := Some "2024-01-03T08:30:00+00:00";
              entry_author := None; entry_summary := None;
              entry_media := Some "https://example.org/d.jpg" |} ];
     db_available := true;
     media_dir_ok := false |}.

(** the sources tab with the default feed and one more *)
Definition demo_sources : Sources :=
  {| feed_urls := DEFAULT_FEEDS ++ ["https://example.org/feed"];
     FEEDS_JSON := FeedsMissing |}.

(** ** The manual upserts: [upsert_dataframe], [upsert_selected],
    [upsert_all_listed] *)

(** what the user is told *)
Inductive Upserted :=
  | NothingSelected
  | NoRows
  | Written (n : nat)
  | Failed.

Section ManualUpsert.
Variable parse_dt : list cell -> cell -> option Z.
Variable UUID_of_text : string -> option Z.

(** [upsert_dataframe(df, label)]; [available] as for [upsert_articles] *)
Definition upsert_dataframe (available : bool) (df : DataFrame)
    (db : gmap Z DbRow) : Io (Upserted * gmap Z DbRow) :=
  df ← with_entropy (dedupe_df parse_dt df);
  match df with
  | [] => mret (NoRows, db)
  | _ =>
      up ← upsert_articles parse_dt UUID_of_text available df db;
      mret (match up.1 with Ok n => Written n | Raise => Failed end, up.2)
  end.


(** [upsert_all_listed()] *)
Definition upsert_all_listed (available : bool) (current_df : DataFrame)
    (db : gmap Z DbRow) : Io (Upserted * gmap Z DbRow) :=
  upsert_dataframe available current_df db.

End ManualUpsert.

(** ** Images: [local_image_path], [download_image]

    The media directory is the set of its files, a file being the bytes
    written to it.  [requests.get] is an oracle: the body of the response,
    or [None] when the request raises or the status is an error. *)






Section Images.
Variable requests_get : string -> option (list Z).


End Images.
(** * Properties *)

(** ** Facts about the identity generator *)

Lemma hex_char_cases (d : Z) :
  hex_char d ∈ list_ascii_of_string "0123456789abcdef".
Proof.
  unfold hex_char.
  assert (H : (Z.to_nat (d mod 16) < 16)%nat)
    by (pose proof (Z.mod_pos_bound d 16); lia).
  revert H. generalize (Z.to_nat (d mod 16)). intros n H.
  do 16 (destruct n as [|n]; [cbn; set_solver|]). lia.
Qed.

Lemma hex_char_not_space (d : Z) : isspace (hex_char d) = false.
Proof.
  pose proof (hex_char_cases d) as H.
  generalize dependent (hex_char d). intros c H. cbn in H.
  repeat (apply elem_of_cons in H as [-> | H]; [reflexivity|]).
  by apply elem_of_nil in H.
Qed.

Lemma strip_nonspace (c : ascii) (r : string) :
  isspace c = false -> strip (String c r) <> "".
Proof.
  intros H. unfold strip. cbn. rewrite H. cbn. rewrite H.
  by destruct (rstrip r).
Qed.


Lemma hex_digits_length (n : nat) (x : Z) :
  String.length (hex_digits n x) = n.
Proof. induction n as [|n IH]; cbn; [done | by rewrite IH]. Qed.


Lemma undash_str_uuid (x : Z) : undash (str_uuid x) = hex_digits 32 x.
Proof.
  unfold str_uuid. pose proof (hex_digits_length 32 x) as H.
  generalize dependent (hex_digits 32 x). intros hex H.
  do 32 (destruct hex as [|? hex]; [discriminate H|]).
  destruct hex; [reflexivity | discriminate H].
Qed.


Lemma str_uuid_not_blank (x : Z) : strip (str_uuid x) <> "".
Proof.
  unfold str_uuid. cbn [hex_digits]. unfold substring_of. cbn [String.substring Nat.sub].
  apply strip_nonspace, hex_char_not_space.
Qed.


(** ** The entropy monad *)

Lemma rand_bind_eq {A B} (m : Rand A) (k : A -> Rand B) (e : Entropy) :
  (m ≫= k) e = k (m e).1 (m e).2.
Proof. unfold mbind, rand_bind. by destruct (m e). Qed.

Lemma rand_ret_eq {A} (a : A) (e : Entropy) : (mret a : Rand A) e = (a, e).
Proof. reflexivity. Qed.

Lemma mapM_rand_cons {A B} (g : A -> Rand B) (x : A) (l : list A) e :
  mapM g (x :: l) e =
  ((g x e).1 :: (mapM g l (g x e).2).1, (mapM g l (g x e).2).2).
Proof.
  cbn [mapM]. rewrite rand_bind_eq, rand_bind_eq. reflexivity.
Qed.

(** ** Normalisation *)

Lemma fillna_idemp (c : cell) : fillna (fillna c) = fillna c.
Proof. reflexivity. Qed.

Lemma fillna_row_filled (r : Row) : filled (fillna_row r).
Proof. reflexivity. Qed.

Lemma filled_cells (r : Row) :
  filled r -> fillna (article_id r) = article_id r
              ∧ fillna (published_time_utc r) = published_time_utc r.
Proof.
  unfold filled. intros H. destruct r; cbn in *.
  injection H; intros; split; congruence.
Qed.

Lemma filled_set_article_id (s : string) (r : Row) :
  filled r -> filled (set_article_id (Some s) r).
Proof.
  unfold filled. intros H. destruct r; cbn in *.
  injection H; intros. unfold fillna_row, set_article_id; cbn.
  f_equal; assumption.
Qed.

Lemma backfill_has_id (r : Row) (e : Entropy) :
  has_id r -> backfill r e = (r, e).
Proof. unfold has_id, backfill. intros ->. reflexivity. Qed.

Lemma blank_str_uuid (x : Z) : blank (Some (str_uuid x)) = false.
Proof. unfold blank. apply bool_decide_eq_false, str_uuid_not_blank. Qed.

Lemma gen_article_id_not_blank (u : option string) (e : Entropy) :
  blank (Some (gen_article_id u e).1) = false.
Proof.
  unfold gen_article_id. destruct u as [[|c u]|].
  - rewrite rand_bind_eq. apply blank_str_uuid.
  - apply blank_str_uuid.
  - rewrite rand_bind_eq. apply blank_str_uuid.
Qed.

Lemma backfill_clean (r : Row) (e : Entropy) :
  filled r -> clean (backfill r e).1.
Proof.
  intros Hf. unfold backfill. destruct (blank (article_id r)) eqn:Hb.
  - rewrite rand_bind_eq. cbn [mret rand_ret fst].
    split; [by apply filled_set_article_id|].
    unfold has_id. cbn [article_id set_article_id].
    destruct (url r) as [[|c u]|].
    + rewrite rand_bind_eq. apply blank_str_uuid.
    + apply gen_article_id_not_blank.
    + rewrite rand_bind_eq. apply blank_str_uuid.
  - by split.
Qed.

Lemma mapM_backfill_clean (l : DataFrame) (e : Entropy) :
  Forall filled l -> Forall clean (mapM backfill l e).1.
Proof.
  revert e. induction l as [|r l IH]; intros e H; [constructor|].
  rewrite mapM_rand_cons. cbn [fst].
  inversion H; subst. constructor; [by apply backfill_clean | by apply IH].
Qed.

Lemma mapM_backfill_has_id (l : DataFrame) (e : Entropy) :
  Forall has_id l -> mapM backfill l e = (l, e).
Proof.
  induction l as [|r l IH]; intros H; [reflexivity|].
  inversion H; subst. rewrite mapM_rand_cons, backfill_has_id by done.
  cbn [fst snd]. by rewrite IH.
Qed.

Lemma normalize_ids_clean (df : DataFrame) (e : Entropy) :
  Forall clean (normalize_ids df e).1.
Proof.
  destruct df as [|r df]; [constructor|].
  apply mapM_backfill_clean, Forall_fmap, Forall_true.
  intros x. apply fillna_row_filled.
Qed.

Lemma fillna_rows_fixed (df : DataFrame) :
  Forall filled df -> fillna_row <$> df = df.
Proof.
  induction 1 as [|r l Hr _ IH]; [done|]. cbn. by rewrite Hr, IH.
Qed.

Lemma normalize_ids_has_id (df : DataFrame) (e : Entropy) :
  Forall has_id (fillna_row <$> df) ->
  normalize_ids df e = (fillna_row <$> df, e).
Proof.
  intros H. destruct df as [|r df]; [reflexivity|].
  unfold normalize_ids. by apply mapM_backfill_has_id.
Qed.

Lemma normalize_ids_fixed (df : DataFrame) (e : Entropy) :
  Forall clean df -> normalize_ids df e = (df, e).
Proof.
  intros H.
  assert (Hf : fillna_row <$> df = df).
  { apply fillna_rows_fixed. eapply Forall_impl; [exact H | by intros ? []]. }
  rewrite normalize_ids_has_id; rewrite Hf; [done|].
  eapply Forall_impl; [exact H | by intros ? []].
Qed.

(** ** The stable sort *)
Section SortingFacts.
Context {A : Type}.
Implicit Types (l : list (Z * A)) (x y : Z * A).

#[local] Instance key_le_trans : Transitive (@key_le A).
Proof. unfold key_le. intros x y z. lia. Qed.

#[local] Instance flip_key_le_trans : Transitive (flip (@key_le A)).
Proof. unfold flip, key_le. intros x y z. lia. Qed.

Lemma insert_asc_perm x l : insert_asc x l ≡ₚ x :: l.
Proof.
  induction l as [|y l IH]; cbn; [done|].
  destruct (x.1 <=? y.1); [done|]. rewrite IH. apply Permutation_swap.
Qed.

Lemma argsort_stable_perm l : argsort_stable l ≡ₚ l.
Proof.
  induction l as [|x l IH]; cbn; [done|].
  by rewrite insert_asc_perm, IH.
Qed.

Lemma insert_asc_sorted x l :
  StronglySorted key_le l -> StronglySorted key_le (insert_asc x l).
Proof.
  induction l as [|y l IH]; intros H; cbn.
  - repeat constructor.
  - apply StronglySorted_cons in H as [Hy Hl].
    destruct (Z.leb_spec x.1 y.1) as [Hle|Hgt].
    + apply StronglySorted_cons. split.
      * constructor; [done|].
        eapply Forall_impl; [exact Hy|]. unfold key_le. intros z. cbn. lia.
      * by apply StronglySorted_cons.
    + apply StronglySorted_cons. split; [|by apply IH].
      rewrite insert_asc_perm. constructor; [|done].
      unfold key_le. lia.
Qed.

Lemma argsort_stable_sorted l : StronglySorted key_le (argsort_stable l).
Proof.
  induction l as [|x l IH]; cbn; [constructor | by apply insert_asc_sorted].
Qed.

Lemma insert_asc_filter (k : Z) x l :
  filter (fun y => y.1 = k) (insert_asc x l)
  = filter (fun y => y.1 = k) (x :: l).
Proof.
  induction l as [|y l IH]; cbn [insert_asc]; [done|].
  destruct (Z.leb_spec x.1 y.1) as [Hle|Hgt]; [done|].
  rewrite (filter_cons _ y), IH, !(filter_cons _ x), !(filter_cons _ y).
  repeat case_decide; try done; lia.
Qed.

(** stability: the rows of one key keep their relative order *)
Lemma argsort_stable_filter (k : Z) l :
  filter (fun y => y.1 = k) (argsort_stable l) = filter (fun y => y.1 = k) l.
Proof.
  induction l as [|x l IH]; cbn [argsort_stable foldr]; [done|].
  fold (argsort_stable l). rewrite insert_asc_filter, !(filter_cons _ x), IH.
  done.
Qed.

Lemma argsort_stable_id l : StronglySorted key_le l -> argsort_stable l = l.
Proof.
  induction l as [|x l IH]; intros H; [done|].
  apply StronglySorted_cons in H as [Hx Hl].
  cbn [argsort_stable foldr]. fold (argsort_stable l). rewrite IH by done.
  destruct l as [|y l]; [done|]. cbn [insert_asc].
  apply Forall_cons in Hx as [Hxy _]. unfold key_le in Hxy.
  destruct (Z.leb_spec x.1 y.1); [done | lia].
Qed.

Lemma sort_desc_sorted l : StronglySorted (flip key_le) (sort_desc l).
Proof.
  apply Sorted_StronglySorted; [apply _|]. apply Sorted_reverse.
  apply StronglySorted_Sorted, argsort_stable_sorted.
Qed.

Lemma sort_desc_filter (k : Z) l :
  filter (fun y => y.1 = k) (sort_desc l) = filter (fun y => y.1 = k) l.
Proof.
  unfold sort_desc.
  by rewrite filter_reverse, argsort_stable_filter, filter_reverse,
    reverse_involutive.
Qed.

Lemma sort_desc_perm l : sort_desc l ≡ₚ l.
Proof.
  unfold sort_desc.
  by rewrite reverse_Permutation, argsort_stable_perm, reverse_Permutation.
Qed.

Lemma sort_desc_id l : StronglySorted (flip key_le) l -> sort_desc l = l.
Proof.
  intros H. unfold sort_desc. rewrite argsort_stable_id.
  - apply reverse_involutive.
  - apply Sorted_StronglySorted; [apply _|].
    apply StronglySorted_Sorted, Sorted_reverse in H. exact H.
Qed.

Implicit Types (kl : list (option Z * A)) (kx : option Z * A).

Lemma non_nans_cons_Some (t : Z) (a : A) kl :
  non_nans ((Some t, a) :: kl) = (t, a) :: non_nans kl.
Proof. reflexivity. Qed.

Lemma non_nans_cons_None (a : A) kl :
  non_nans ((None, a) :: kl) = non_nans kl.
Proof. reflexivity. Qed.

Lemma nans_all kl : Forall (fun kx => kx.1 = None) (nans kl).
Proof.
  apply Forall_forall. intros kx H.
  by apply list_elem_of_filter in H as [H _].
Qed.

Lemma key_dt_ge_nans kl :
  Forall (fun kx => kx.1 = None) kl -> StronglySorted key_dt_ge kl.
Proof.
  induction 1 as [|kx kl Hx Hl IH]; constructor; [done|].
  eapply Forall_impl; [exact Hl|]. intros ky Hy.
  unfold key_dt_ge. rewrite Hy. by destruct kx.1.
Qed.

(** the sort puts later timestamps first and missing ones last *)
Lemma sort_values_desc_sorted kl :
  StronglySorted key_dt_ge (sort_values_desc kl).
Proof.
  unfold sort_values_desc. apply StronglySorted_app. split_and!.
  - intros kx ky _ Hy. apply list_elem_of_filter in Hy as [Hy _].
    unfold key_dt_ge. rewrite Hy. by destruct kx.1.
  - eapply StronglySorted_fmap; [|apply sort_desc_sorted].
    intros x y. unfold flip, key_le, key_dt_ge. cbn. done.
  - apply key_dt_ge_nans, nans_all.
Qed.

Lemma filter_key_fmap_Some (k : option Z) l :
  filter (fun kx => kx.1 = k) (prod_map Some id <$> l)
  = match k with
    | Some t => prod_map Some id <$> filter (fun y => y.1 = t) l
    | None => []
    end.
Proof.
  induction l as [|[u a] l IH]; [by destruct k|].
  rewrite fmap_cons, filter_cons, IH. destruct k as [t|].
  - rewrite (filter_cons _ (u, a)).
    repeat case_decide; simplify_eq/=; done.
  - by case_decide.
Qed.

Lemma filter_key_non_nans (t : Z) kl :
  prod_map Some id <$> filter (fun y => y.1 = t) (non_nans kl)
  = filter (fun kx => kx.1 = Some t) kl.
Proof.
  induction kl as [|[[u|] a] kl IH]; [done| |].
  - rewrite non_nans_cons_Some, !filter_cons. cbn [fst].
    repeat case_decide; try done; try naive_solver.
    rewrite fmap_cons, IH. by subst.
  - rewrite non_nans_cons_None, filter_cons. cbn [fst].
    by case_decide.
Qed.

Lemma filter_key_nans (k : option Z) kl :
  filter (fun kx => kx.1 = k) (nans kl)
  = match k with Some _ => [] | None => filter (fun kx => kx.1 = k) kl end.
Proof.
  unfold nans. induction kl as [|kx kl IH]; [by destruct k|].
  rewrite (filter_cons _ kx kl), (filter_cons (fun kx => kx.1 = k) kx kl).
  destruct k as [t|].
  - case_decide as Hk; [|done].
    rewrite filter_cons, IH. case_decide; [congruence | done].
  - repeat case_decide; try done.
    rewrite filter_cons, IH. by case_decide.
Qed.

(** stability: the rows of one key, and the rows without a key, keep
    their relative order *)
Lemma sort_values_desc_filter (k : option Z) kl :
  filter (fun kx => kx.1 = k) (sort_values_desc kl)
  = filter (fun kx => kx.1 = k) kl.
Proof.
  unfold sort_values_desc.
  rewrite filter_app, filter_key_fmap_Some, filter_key_nans.
  destruct k as [t|]; [|done].
  by rewrite sort_desc_filter, filter_key_non_nans, app_nil_r.
Qed.

Lemma split_nans_perm kl : (prod_map Some id <$> non_nans kl) ++ nans kl ≡ₚ kl.
Proof.
  induction kl as [|[[u|] a] kl IH]; [done| |].
  - rewrite non_nans_cons_Some. unfold nans. rewrite filter_cons_False by done.
    cbn. by f_equiv.
  - rewrite non_nans_cons_None. unfold nans. rewrite filter_cons_True by done.
    rewrite <- Permutation_middle. by f_equiv.
Qed.

Lemma sort_values_desc_perm kl : sort_values_desc kl ≡ₚ kl.
Proof.
  unfold sort_values_desc. rewrite sort_desc_perm. apply split_nans_perm.
Qed.

Lemma nans_fixed kl : Forall (fun kx => kx.1 = None) kl -> nans kl = kl.
Proof.
  unfold nans. induction 1 as [|kx kl Hv _ IH]; [done|].
  by rewrite filter_cons_True, IH.
Qed.

Lemma non_nans_nil kl : Forall (fun kx => kx.1 = None) kl -> non_nans kl = [].
Proof.
  induction 1 as [|[[v|] b] kl Hv _ IH]; [done|done|].
  by rewrite non_nans_cons_None.
Qed.

Lemma sorted_split kl :
  StronglySorted key_dt_ge kl ->
  (prod_map Some id <$> non_nans kl) ++ nans kl = kl
  ∧ StronglySorted (flip key_le) (non_nans kl).
Proof.
  induction kl as [|[[u|] a] kl IH]; intros H.
  - split; [done | constructor].
  - apply StronglySorted_cons in H as [Hx Hl]. destruct (IH Hl) as [E S].
    rewrite non_nans_cons_Some. unfold nans in *.
    rewrite filter_cons_False by done. split.
    + rewrite fmap_cons, <- app_comm_cons. by rewrite E.
    + apply StronglySorted_cons. split; [|done].
      apply Forall_forall. intros [v b] Hv.
      apply list_elem_of_omap in Hv as ([[w|] c] & Hin & Hw); [|done].
      cbn in Hw. injection Hw as -> ->.
      rewrite Forall_forall in Hx. apply (Hx _ Hin).
  - apply StronglySorted_cons in H as [Hx Hl].
    assert (Hn : Forall (fun kx => kx.1 = None) ((None, a) :: kl)).
    { constructor; [done|]. eapply Forall_impl; [exact Hx|].
      intros [[v|] b]; unfold key_dt_ge; cbn; done. }
    rewrite non_nans_nil, nans_fixed by done. split; [done | constructor].
Qed.

(** a frame already in order is left as it is *)
Lemma sort_values_desc_id kl :
  StronglySorted key_dt_ge kl -> sort_values_desc kl = kl.
Proof.
  intros H. destruct (sorted_split kl H) as [E S].
  unfold sort_values_desc. by rewrite sort_desc_id.
Qed.
End SortingFacts.

(** ** Dropping duplicates *)

Lemma drop_duplicates_seen_sublist (seen : gset cell) (df : DataFrame) :
  drop_duplicates_seen seen df `sublist_of` df.
Proof.
  revert seen. induction df as [|r df IH]; intros seen; cbn; [done|].
  case_decide; [by apply sublist_cons | by apply sublist_skip].
Qed.

Lemma drop_duplicates_seen_ids (seen : gset cell) (df : DataFrame) (c : cell) :
  c ∈ article_id <$> drop_duplicates_seen seen df
  ↔ c ∈ article_id <$> df ∧ c ∉ seen.
Proof.
  revert seen. induction df as [|r df IH]; intros seen; cbn.
  - rewrite elem_of_nil. naive_solver.
  - rewrite (elem_of_cons _ c (article_id r)).
    case_decide as Hin.
    + rewrite IH. naive_solver.
    + rewrite fmap_cons, elem_of_cons, IH, elem_of_union, elem_of_singleton.
      destruct (decide (c = article_id r)) as [->|]; naive_solver.
Qed.

Lemma drop_duplicates_seen_NoDup (seen : gset cell) (df : DataFrame) :
  NoDup (article_id <$> drop_duplicates_seen seen df).
Proof.
  revert seen. induction df as [|r df IH]; intros seen; cbn.
  - constructor.
  - case_decide as Hin; [apply IH|].
    rewrite fmap_cons. constructor; [|apply IH].
    rewrite drop_duplicates_seen_ids, elem_of_union, elem_of_singleton.
    naive_solver.
Qed.

Lemma drop_duplicates_seen_fixed (seen : gset cell) (df : DataFrame) :
  NoDup (article_id <$> df) ->
  (∀ c, c ∈ article_id <$> df -> c ∉ seen) ->
  drop_duplicates_seen seen df = df.
Proof.
  revert seen. induction df as [|r df IH]; intros seen Hnd Hs; cbn; [done|].
  rewrite fmap_cons in Hnd, Hs. apply NoDup_cons in Hnd as [Hr Hnd].
  rewrite decide_False by (apply Hs; left).
  f_equal. apply IH; [done|]. intros c Hc.
  rewrite elem_of_union, elem_of_singleton. intros [->|Hc']; [done|].
  by apply (Hs c); [right|].
Qed.

Lemma drop_duplicates_sublist (df : DataFrame) :
  drop_duplicates df `sublist_of` df.
Proof. apply drop_duplicates_seen_sublist. Qed.

Lemma drop_duplicates_ids (df : DataFrame) (c : cell) :
  c ∈ article_id <$> drop_duplicates df ↔ c ∈ article_id <$> df.
Proof.
  unfold drop_duplicates. rewrite drop_duplicates_seen_ids.
  split; [by intros [] | by split; [|apply not_elem_of_empty]].
Qed.

Lemma drop_duplicates_NoDup (df : DataFrame) :
  NoDup (article_id <$> drop_duplicates df).
Proof. apply drop_duplicates_seen_NoDup. Qed.

Lemma drop_duplicates_fixed (df : DataFrame) :
  NoDup (article_id <$> df) -> drop_duplicates df = df.
Proof.
  intros H. apply drop_duplicates_seen_fixed; [done|].
  intros c _. apply not_elem_of_empty.
Qed.

Lemma drop_duplicates_clean (df : DataFrame) :
  Forall clean df -> Forall clean (drop_duplicates df).
Proof.
  rewrite !Forall_forall. intros H r Hr. apply H.
  eapply elem_of_sublist; [exact Hr | apply drop_duplicates_sublist].
Qed.

(** ** [dedupe_df] *)
Section PipelineFacts.
Variable parse_dt : list cell -> cell -> option Z.

Lemma zip_to_datetime (df : DataFrame) :
  zip (to_datetime parse_dt (published_time_utc <$> df)) df
  = keyed parse_dt df.
Proof.
  unfold to_datetime, keyed. generalize (parse_dt (published_time_utc <$> df)).
  intros g. induction df as [|r df IH]; [done|]. cbn. by rewrite IH.
Qed.

Lemma keyed_snd (df : DataFrame) : (keyed parse_dt df).*2 = df.
Proof.
  unfold keyed. rewrite <- list_fmap_compose. apply list_fmap_id.
Qed.

Lemma fillna_set_published (k : option Z) (r : Row) :
  filled r ->
  fillna_row (set_published_time_utc (strftime <$> k) r) = reserialize (k, r).
Proof.
  unfold filled, reserialize. intros H. destruct r; cbn in *.
  injection H; intros. unfold fillna_row, set_published_time_utc; cbn.
  f_equal; assumption.
Qed.

Lemma reserialize_clean (kr : option Z * Row) :
  clean kr.2 -> clean (reserialize kr).
Proof.
  intros [Hf Hi]. split; [|exact Hi].
  unfold filled, reserialize in *. destruct kr as [k r], r; cbn in *.
  injection Hf; intros. unfold fillna_row, set_published_time_utc; cbn.
  f_equal; assumption.
Qed.

Lemma deduped_clean (df : DataFrame) (e : Entropy) :
  Forall clean (deduped df e).
Proof. apply drop_duplicates_clean, normalize_ids_clean. Qed.

Lemma sorted_perm (df : DataFrame) (e : Entropy) :
  sorted parse_dt df e ≡ₚ keyed parse_dt (deduped df e).
Proof. apply sort_values_desc_perm. Qed.

Lemma sorted_clean (df : DataFrame) (e : Entropy) :
  Forall (fun kr => clean kr.2) (sorted parse_dt df e).
Proof.
  rewrite sorted_perm. unfold keyed. apply Forall_fmap.
  eapply Forall_impl; [apply deduped_clean | done].
Qed.

(** what [dedupe_df] returns: the deduplicated rows in sorted order,
    each with its time printed again; only the first [normalize_ids]
    may draw from the entropy source *)
Lemma dedupe_df_eq (df : DataFrame) (e : Entropy) :
  dedupe_df parse_dt df e
  = (reserialize <$> sorted parse_dt df e, (normalize_ids df e).2).
Proof.
  pose proof (sorted_clean df e) as Hc.
  unfold dedupe_df. rewrite rand_bind_eq, zip_to_datetime.
  unfold sorted, deduped in *.
  destruct (normalize_ids df e) as [N e']. cbn [fst snd] in *.
  assert (Hm : forall X : DataFrame,
             X = drop_duplicates N ->
             normalize_ids
               ((fun kr => set_published_time_utc (strftime <$> kr.1) kr.2)
                  <$> sort_values_desc (keyed parse_dt X)) e'
             = (reserialize <$> sort_values_desc (keyed parse_dt X), e'));
    [|destruct N as [|r N]; [exact (Hm [] eq_refl) | exact (Hm _ eq_refl)]].
  intros X ->.
  set (S := sort_values_desc (keyed parse_dt (drop_duplicates N))) in *.
  assert (Hr : fillna_row <$>
                 ((fun kr => set_published_time_utc (strftime <$> kr.1) kr.2)
                    <$> S)
               = reserialize <$> S).
  { rewrite <- list_fmap_compose. apply Forall_fmap_ext.
    eapply Forall_impl; [exact Hc|]. intros [k r] [Hf _].
    by apply fillna_set_published. }
  rewrite normalize_ids_has_id; rewrite Hr; [done|].
  apply Forall_fmap. eapply Forall_impl; [exact Hc|].
  intros kr Hkr. by apply reserialize_clean.
Qed.

Lemma floor_s_div (t : Z) : floor_s t / 10 ^ 9 = t / 10 ^ 9.
Proof.
  unfold floor_s. pose proof (Z_div_mod_eq_full t (10 ^ 9)) as H.
  replace (t - t mod 10 ^ 9) with (t / 10 ^ 9 * 10 ^ 9) by lia.
  apply Z.div_mul. lia.
Qed.

Lemma strftime_floor_s (t : Z) : strftime (floor_s t) = strftime t.
Proof. unfold strftime. by rewrite floor_s_div. Qed.

Lemma floor_s_mono (t u : Z) : t <= u -> floor_s t <= floor_s u.
Proof.
  intros H. pose proof (Z.div_le_mono t u (10 ^ 9) ltac:(lia) H) as Hd.
  unfold floor_s.
  pose proof (Z_div_mod_eq_full t (10 ^ 9)).
  pose proof (Z_div_mod_eq_full u (10 ^ 9)). lia.
Qed.

Lemma dt_ge_floor_s (a b : option Z) :
  dt_ge a b -> dt_ge (floor_s <$> a) (floor_s <$> b).
Proof.
  destruct a as [t|], b as [u|]; cbn; try done. apply floor_s_mono.
Qed.

Lemma reserialize_id (kr : option Z * Row) :
  article_id (reserialize kr) = article_id kr.2.
Proof. reflexivity. Qed.

Lemma reserialize_floor_s (kr : option Z * Row) :
  reserialize (floor_s <$> kr.1, reserialize kr) = reserialize kr.
Proof.
  destruct kr as [[t|] r]; unfold reserialize, set_published_time_utc;
    cbn [fst snd fmap option_fmap option_map default article_id title
         published_time_utc author description url image_url source_name
         source_feed_url fetched_at_utc]; [|done].
  by rewrite strftime_floor_s.
Qed.

Lemma sorted_sorted (df : DataFrame) (e : Entropy) :
  StronglySorted key_dt_ge (sorted parse_dt df e).
Proof. apply sort_values_desc_sorted. Qed.

Lemma dedupe_df_ids_perm (df : DataFrame) (e : Entropy) :
  article_id <$> (dedupe_df parse_dt df e).1
  ≡ₚ article_id <$> deduped df e.
Proof.
  rewrite dedupe_df_eq. cbn [fst]. rewrite <- list_fmap_compose.
  rewrite sorted_perm. unfold keyed. by rewrite <- list_fmap_compose.
Qed.

Lemma dedupe_df_NoDup (df : DataFrame) (e : Entropy) :
  NoDup (article_id <$> (dedupe_df parse_dt df e).1).
Proof. rewrite dedupe_df_ids_perm. apply drop_duplicates_NoDup. Qed.

Lemma dedupe_df_clean (df : DataFrame) (e : Entropy) :
  Forall clean (dedupe_df parse_dt df e).1.
Proof.
  rewrite dedupe_df_eq. cbn [fst]. apply Forall_fmap.
  eapply Forall_impl; [apply sorted_clean|].
  intros kr Hkr. by apply reserialize_clean.
Qed.

(** C3: the frame [dedupe_df] returns is sorted by published time,
    descending.  It consists of the deduplicated rows [deduped df e] in
    the order [sorted df e], each with its parsed time printed again;
    along that order the parsed times never increase and every row
    without a parsed time (missing or unparseable) comes after every row
    with one, and so do the times the printed texts denote (the parsed
    times truncated to the second); the rows of any one time, and the
    rows without a time, stand in the order they have in the input, the
    deduplicated rows being a subsequence of the normalised input. *)
Theorem dedupe_df_sorted_by_published_time (df : DataFrame) (e : Entropy) :
  let out : DataFrame := (dedupe_df parse_dt df e).1 in
  let S : list (option Z * Row) := sorted parse_dt df e in
  out = reserialize <$> S
  ∧ published_time_utc <$> out
    = (fun k : option Z => Some (default "" (strftime <$> k))) <$> S.*1
  ∧ StronglySorted dt_ge S.*1
  ∧ StronglySorted dt_ge ((fun k : option Z => floor_s <$> k) <$> S.*1)
  ∧ (∀ k : option Z,
       filter (fun kr => kr.1 = k) S
       = filter (fun kr => kr.1 = k) (keyed parse_dt (deduped df e)))
  ∧ deduped df e `sublist_of` (normalize_ids df e).1.
Proof.
  intros out S. subst out S. rewrite dedupe_df_eq. cbn [fst].
  pose proof (sorted_sorted df e) as Hs.
  split_and!.
  - done.
  - rewrite <- !list_fmap_compose. by apply list_fmap_ext.
  - eapply StronglySorted_fmap; [|exact Hs]. done.
  - rewrite <- list_fmap_compose.
    eapply StronglySorted_fmap; [|exact Hs].
    intros x y. apply dt_ge_floor_s.
  - intros k. apply sort_values_desc_filter.
  - apply drop_duplicates_sublist.
Qed.

(** C4: [dedupe_df] is idempotent.  Applied to its own result [Y] (and
    the entropy source as the first application left it) it returns [Y]
    and draws nothing, provided [pd.to_datetime] reads the re-serialised
    column of [Y] back as the timestamps it was printed from, truncated
    to the second, and the empty text as [NaT]. *)
Theorem dedupe_df_idempotent (df : DataFrame) (e : Entropy) :
  let Y : DataFrame := (dedupe_df parse_dt df e).1 in
  let e' : Entropy := (dedupe_df parse_dt df e).2 in
  to_datetime parse_dt (published_time_utc <$> Y)
  = (fun k : option Z => floor_s <$> k) <$> (sorted parse_dt df e).*1 ->
  dedupe_df parse_dt Y e' = (Y, e').
Proof.
  intros Y e' Hrt.
  pose proof (dedupe_df_clean df e) as Hc.
  pose proof (dedupe_df_NoDup df e) as Hnd.
  fold Y in Hc, Hnd.
  rewrite (dedupe_df_eq Y e').
  rewrite (normalize_ids_fixed Y e' Hc). f_equal.
  unfold sorted, deduped. rewrite (normalize_ids_fixed Y e' Hc). cbn [fst].
  rewrite (drop_duplicates_fixed Y Hnd).
  rewrite <- zip_to_datetime, Hrt.
  subst Y. rewrite dedupe_df_eq. cbn [fst].
  set (S := sorted parse_dt df e).
  assert (Hz : zip ((fun k : option Z => floor_s <$> k) <$> S.*1)
                   (reserialize <$> S)
               = (fun kr => (floor_s <$> kr.1, reserialize kr)) <$> S).
  { clear. induction S as [|kr S IH]; [done|]. cbn. by rewrite IH. }
  rewrite Hz, sort_values_desc_id.
  - rewrite <- list_fmap_compose. apply list_fmap_ext.
    intros i kr _. apply reserialize_floor_s.
  - eapply StronglySorted_fmap; [|apply sorted_sorted].
    intros x y. unfold key_dt_ge. cbn [fst]. apply dt_ge_floor_s.
Qed.

(** *** [merge_new] *)

Lemma clean_astype_str (r : Row) :
  clean r -> astype_str (article_id r) = article_id r.
Proof.
  intros [Hf _]. apply filled_cells in Hf as [Hf _].
  rewrite <- Hf. reflexivity.
Qed.

Lemma clean_set_article_id (r : Row) :
  clean r -> set_article_id (astype_str (article_id r)) r = r.
Proof. intros H. rewrite clean_astype_str by done. by destruct r. Qed.

Lemma merge_new_eq (existing freshly : DataFrame) (e : Entropy) :
  let F := merge_fresh parse_dt freshly e in
  let E := merge_existing parse_dt existing freshly e in
  let e2 := (dedupe_df parse_dt existing (dedupe_df parse_dt freshly e).2).2 in
  let added := merge_added parse_dt existing freshly e in
  merge_new parse_dt existing freshly e
  = match E with
    | [] => ((F, id_set F), e2)
    | _ => (((dedupe_df parse_dt (E ++ added) e2).1, id_set added),
            (dedupe_df parse_dt (E ++ added) e2).2)
    end.
Proof.
  intros F E e2 added. unfold merge_new. rewrite !rand_bind_eq.
  fold (merge_fresh parse_dt freshly e) (merge_existing parse_dt existing freshly e).
  fold F E e2.
  pose proof (dedupe_df_clean freshly e) as HF. fold (merge_fresh parse_dt freshly e) in HF.
  pose proof (dedupe_df_clean existing (dedupe_df parse_dt freshly e).2) as HE.
  fold (merge_existing parse_dt existing freshly e) in HE. fold F in HF. fold E in HE.
  assert (Hids : list_to_set (astype_str <$> (article_id <$> E)) =@{gset cell} id_set E).
  { unfold id_set. f_equal. rewrite <- list_fmap_compose.
    apply Forall_fmap_ext. eapply Forall_impl; [exact HE|].
    intros r Hr. by apply clean_astype_str. }
  assert (HF' : (fun r => set_article_id (astype_str (article_id r)) r) <$> F = F).
  { rewrite <- (list_fmap_id F) at 2. apply Forall_fmap_ext.
    eapply Forall_impl; [exact HF|]. intros r Hr. by apply clean_set_article_id. }
  subst added. unfold merge_added. fold F E.
  destruct E as [|r0 E0] eqn:HEq; [reflexivity|].
  rewrite Hids, HF', rand_bind_eq. reflexivity.
Qed.

Lemma dedupe_df_nil (e : Entropy) : dedupe_df parse_dt [] e = ([], e).
Proof. reflexivity. Qed.

Lemma id_set_added (existing freshly : DataFrame) (e : Entropy) :
  id_set (merge_added parse_dt existing freshly e)
  = id_set (merge_fresh parse_dt freshly e)
    ∖ id_set (merge_existing parse_dt existing freshly e).
Proof.
  unfold merge_added.
  generalize (id_set (merge_existing parse_dt existing freshly e)).
  generalize (merge_fresh parse_dt freshly e). intros F X.
  apply set_eq. intros c. unfold id_set.
  rewrite elem_of_difference, !elem_of_list_to_set, !list_elem_of_fmap.
  setoid_rewrite list_elem_of_filter. naive_solver.
Qed.

(** C1: the set of new ids [merge_new] returns is exactly the ids of
    the normalised and deduplicated [freshly] minus the ids of the
    normalised and deduplicated [existing]; when [existing] is empty
    (also after normalisation) the new ids are all ids of the fresh frame
    and the combined frame is the fresh frame. *)
Theorem merge_new_new_ids_exact (existing freshly : DataFrame) (e : Entropy) :
  let F : DataFrame := merge_fresh parse_dt freshly e in
  let E : DataFrame := merge_existing parse_dt existing freshly e in
  let total : DataFrame := (merge_new parse_dt existing freshly e).1.1 in
  let new_ids : gset cell := (merge_new parse_dt existing freshly e).1.2 in
  new_ids = id_set F ∖ id_set E
  ∧ (∀ c : cell, c ∈ new_ids ↔ c ∈ article_id <$> F ∧ c ∉ article_id <$> E)
  ∧ (E = [] -> total = F ∧ new_ids = id_set F)
  ∧ (existing = [] -> total = F ∧ new_ids = id_set F).
Proof.
  intros F E total new_ids.
  assert (H1 : new_ids = id_set F ∖ id_set E).
  { subst new_ids. rewrite merge_new_eq. fold E F.
    pose proof (id_set_added existing freshly e) as Ha. fold E F in Ha.
    destruct E as [|r0 E0] eqn:HE; cbn [fst snd]; [|done].
    unfold id_set at 2. cbn. set_solver. }
  assert (H2 : E = [] -> total = F ∧ new_ids = id_set F).
  { intros HE. subst total new_ids. rewrite merge_new_eq. fold E F.
    by rewrite HE. }
  split_and!; [done| |done|].
  - intros c. rewrite H1. unfold id_set.
    by rewrite elem_of_difference, !elem_of_list_to_set.
  - intros ->. apply H2. subst E. unfold merge_existing.
    by rewrite dedupe_df_nil.
Qed.

Lemma NoDup_fmap_eq {A B} (g : A -> B) (l : list A) (x y : A) :
  NoDup (g <$> l) -> x ∈ l -> y ∈ l -> g x = g y -> x = y.
Proof.
  induction l as [|a l IH]; intros Hnd Hx Hy Hg; [by apply elem_of_nil in Hx|].
  rewrite fmap_cons in Hnd. apply NoDup_cons in Hnd as [Ha Hnd].
  apply elem_of_cons in Hx as [->|Hx], Hy as [->|Hy].
  - done.
  - exfalso. apply Ha. rewrite Hg. by apply list_elem_of_fmap_2.
  - exfalso. apply Ha. rewrite <- Hg. by apply list_elem_of_fmap_2.
  - by apply IH.
Qed.

Lemma merged_clean (existing freshly : DataFrame) (e : Entropy) :
  Forall clean (merge_existing parse_dt existing freshly e
                ++ merge_added parse_dt existing freshly e).
Proof.
  apply Forall_app. split; [apply dedupe_df_clean|].
  unfold merge_added. apply Forall_forall. intros r Hr.
  apply list_elem_of_filter in Hr as [_ Hr].
  pose proof (dedupe_df_clean freshly e) as HF.
  rewrite Forall_forall in HF. by apply HF.
Qed.

Lemma merged_NoDup (existing freshly : DataFrame) (e : Entropy) :
  NoDup (article_id <$> (merge_existing parse_dt existing freshly e
                         ++ merge_added parse_dt existing freshly e)).
Proof.
  rewrite fmap_app. apply NoDup_app. split_and!.
  - apply dedupe_df_NoDup.
  - intros c Hc Hc'. unfold merge_added in Hc'.
    apply list_elem_of_fmap in Hc' as (r & -> & Hr).
    apply list_elem_of_filter in Hr as [Hr _]. apply Hr.
    unfold id_set. by apply elem_of_list_to_set.
  - eapply sublist_NoDup; [apply (dedupe_df_NoDup freshly e)|].
    unfold merge_added, merge_fresh. apply fmap_sublist, sublist_filter.
Qed.

Lemma reads_back_reserialize (col : list cell) (r : Row) :
  reads_back parse_dt col -> published_time_utc r ∈ col ->
  reserialize (parse_dt col (published_time_utc r), r) = r.
Proof.
  unfold reads_back. rewrite Forall_forall. intros H Hr.
  specialize (H _ Hr). unfold reserialize. cbn [fst snd].
  rewrite H. by destruct r.
Qed.

(** C2: [merge_new] is insert-only.  Every record [r] of the (normalised)
    existing frame is in the combined frame with all its fields unchanged,
    and it is the only record of the combined frame with its id: no
    record of [freshly] with the same id and another title (or any other
    field) replaces it.  The times of the merged frame are parsed and
    printed once more by the last [dedupe_df]; the statement assumes that
    [pd.to_datetime] reads each of these texts back to a time that prints
    as the same text. *)
Theorem merge_new_insert_only (existing freshly : DataFrame) (e : Entropy)
    (r : Row) :
  let E : DataFrame := merge_existing parse_dt existing freshly e in
  let added : DataFrame := merge_added parse_dt existing freshly e in
  let total : DataFrame := (merge_new parse_dt existing freshly e).1.1 in
  reads_back parse_dt (published_time_utc <$> (E ++ added)) ->
  r ∈ E ->
  r ∈ total
  ∧ (∀ r' : Row, r' ∈ total -> article_id r' = article_id r -> r' = r)
  ∧ (∀ f : Row, article_id f = article_id r -> title f ≠ title r ->
                f ∉ total).
Proof.
  intros E added total Hrb Hr.
  assert (Ht : total = (dedupe_df parse_dt (E ++ added)
                 (dedupe_df parse_dt existing (dedupe_df parse_dt freshly e).2).2).1).
  { subst total. rewrite merge_new_eq. fold E added.
    destruct E as [|r0 E0] eqn:HE; [by apply elem_of_nil in Hr | done]. }
  set (e2 := (dedupe_df parse_dt existing (dedupe_df parse_dt freshly e).2).2) in *.
  pose proof (merged_clean existing freshly e) as Hc.
  pose proof (merged_NoDup existing freshly e) as Hnd.
  fold E added in Hc, Hnd.
  assert (Hin : r ∈ total).
  { rewrite Ht, dedupe_df_eq. cbn [fst]. unfold sorted, deduped.
    rewrite (normalize_ids_fixed _ e2 Hc). cbn [fst].
    rewrite (drop_duplicates_fixed _ Hnd).
    apply list_elem_of_fmap.
    exists (parse_dt (published_time_utc <$> (E ++ added)) (published_time_utc r), r).
    split.
    - symmetry. apply reads_back_reserialize; [done|].
      apply list_elem_of_fmap_2, elem_of_app. by left.
    - rewrite sort_values_desc_perm. unfold keyed.
      apply (list_elem_of_fmap_2
               (fun r => (parse_dt (published_time_utc <$> (E ++ added))
                            (published_time_utc r), r))).
      apply elem_of_app. by left. }
  assert (Hu : ∀ r' : Row, r' ∈ total -> article_id r' = article_id r -> r' = r).
  { intros r' Hr' Hid. rewrite Ht in Hr', Hin.
    eapply (NoDup_fmap_eq article_id); [apply dedupe_df_NoDup|done..]. }
  split_and!; [done..|].
  intros f Hid Ht' Hf. apply Ht'. by rewrite (Hu f Hf Hid).
Qed.
End PipelineFacts.

(** ** Fetching *)
Section FetchingFacts.
Variable parse_dt : list cell -> cell -> option Z.
Variable netloc : string -> string.

Lemma dedupe_df_ids (df : DataFrame) (e : Entropy) (c : cell) :
  c ∈ article_id <$> (dedupe_df parse_dt df e).1
  ↔ c ∈ article_id <$> (normalize_ids df e).1.
Proof.
  rewrite dedupe_df_ids_perm. unfold deduped. apply drop_duplicates_ids.
Qed.

Lemma dedupe_df_ids_clean (df : DataFrame) (e : Entropy) (c : cell) :
  Forall clean df ->
  c ∈ article_id <$> (dedupe_df parse_dt df e).1 ↔ c ∈ article_id <$> df.
Proof.
  intros H. by rewrite dedupe_df_ids, (normalize_ids_fixed df e H).
Qed.

Section Oracle.
Variable feedparser_parse : string -> Fetched.


Lemma fetch_feed_rows_raises (u : string) (e : Entropy) :
  raises (feedparser_parse u) = true -> fetch_feed_rows parse_dt netloc feedparser_parse u e = (Raise, e).
Proof.
  unfold fetch_feed_rows. by destruct (feedparser_parse u).
Qed.

Lemma fetch_feed_rows_ok (u : string) (e : Entropy) :
  raises (feedparser_parse u) = false ->
  ∃ df, (fetch_feed_rows parse_dt netloc feedparser_parse u e).1 = Ok df ∧ Forall clean df.
Proof.
  unfold fetch_feed_rows.
  destruct (feedparser_parse u) as [|now ft ens]; [done|]. intros _.
  rewrite !rand_bind_eq. eexists. split; [reflexivity|].
  apply dedupe_df_clean.
Qed.

Lemma fetch_frames_cons (u : string) (urls : list string) (e : Entropy) :
  fetch_frames parse_dt netloc feedparser_parse (u :: urls) e
  = (match (fetch_feed_rows parse_dt netloc feedparser_parse u e).1 with
     | Ok df => df :: (fetch_frames parse_dt netloc feedparser_parse urls (fetch_feed_rows parse_dt netloc feedparser_parse u e).2).1
     | Raise => (fetch_frames parse_dt netloc feedparser_parse urls (fetch_feed_rows parse_dt netloc feedparser_parse u e).2).1
     end, (fetch_frames parse_dt netloc feedparser_parse urls (fetch_feed_rows parse_dt netloc feedparser_parse u e).2).2).
Proof.
  cbn [fetch_frames]. rewrite !rand_bind_eq. reflexivity.
Qed.



Lemma fetch_frames_clean (urls : list string) (e : Entropy) :
  Forall (Forall clean) (fetch_frames parse_dt netloc feedparser_parse urls e).1.
Proof.
  revert e. induction urls as [|u urls IH]; intros e; [constructor|].
  rewrite fetch_frames_cons. cbn [fst].
  destruct (raises (feedparser_parse u)) eqn:Hr.
  - rewrite fetch_feed_rows_raises by done. apply IH.
  - destruct (fetch_feed_rows_ok u e Hr) as (df & Hdf & Hc).
    rewrite Hdf. constructor; [done | apply IH].
Qed.

Lemma fetch_all_feeds_eq (urls : list string) (e : Entropy) :
  fetch_all_feeds parse_dt netloc feedparser_parse urls e
  = (Ok (dedupe_df parse_dt (concat (fetch_frames parse_dt netloc feedparser_parse urls e).1)
           (fetch_frames parse_dt netloc feedparser_parse urls e).2).1,
     (dedupe_df parse_dt (concat (fetch_frames parse_dt netloc feedparser_parse urls e).1)
        (fetch_frames parse_dt netloc feedparser_parse urls e).2).2).
Proof. unfold fetch_all_feeds. by rewrite !rand_bind_eq. Qed.

End Oracle.



End FetchingFacts.

(** ** The durable store *)

Lemma io_bind_eq {A B} (m : Io A) (k : A -> Io B) (w : Sys) :
  (m ≫= k) w = k (m w).1 (m w).2.
Proof. unfold mbind, io_bind. by destruct (m w). Qed.

Lemma mapM_io_cons {A B} (g : A -> Io B) (x : A) (l : list A) (w : Sys) :
  mapM g (x :: l) w =
  ((g x w).1 :: (mapM g l (g x w).2).1, (mapM g l (g x w).2).2).
Proof. cbn [mapM]. rewrite io_bind_eq, io_bind_eq. reflexivity. Qed.

Section StoreFacts.
Variable parse_dt : list cell -> cell -> option Z.
Variable UUID_of_text : string -> option Z.


Lemma db_row_key (r : Row) (pub fet : option Z) (w : Sys) (u : Z) :
  UUID_of_text (str_cell (article_id r)) = Some u ->
  db_article_id (db_row UUID_of_text r pub fet w).1 = u ∧ (db_row UUID_of_text r pub fet w).2.1 = w.1.
Proof.
  intros Hu. unfold db_row, safe_uuid. rewrite Hu.
  rewrite !io_bind_eq. by destruct fet.
Qed.

Lemma db_row_pure (r : Row) (pub : option Z) (t : Z) (w1 w2 : Sys) (u : Z) :
  UUID_of_text (str_cell (article_id r)) = Some u ->
  (db_row UUID_of_text r pub (Some t) w1).1 = (db_row UUID_of_text r pub (Some t) w2).1
  ∧ (db_row UUID_of_text r pub (Some t) w1).2 = w1.
Proof.
  intros Hu. unfold db_row, safe_uuid. rewrite Hu.
  by rewrite !io_bind_eq.
Qed.

Implicit Types l : list (Row * option Z * option Z).

Lemma mapM_db_row_keys l (w1 w2 : Sys) :
  Forall (wf_id UUID_of_text) l ->
  db_article_id <$> (mapM (fun rpf => db_row UUID_of_text rpf.1.1 rpf.1.2 rpf.2) l w1).1
  = db_article_id <$> (mapM (fun rpf => db_row UUID_of_text rpf.1.1 rpf.1.2 rpf.2) l w2).1
  ∧ (mapM (fun rpf => db_row UUID_of_text rpf.1.1 rpf.1.2 rpf.2) l w1).2.1 = w1.1.
Proof.
  intros H. revert w1 w2.
  induction H as [|[[r p] f] l [u Hu] _ IH]; intros w1 w2; [done|].
  rewrite !mapM_io_cons. cbn [fst snd fmap list_fmap].
  destruct (db_row_key r p f w1 u Hu) as [-> E1].
  destruct (db_row_key r p f w2 u Hu) as [-> _].
  destruct (IH (db_row UUID_of_text r p f w1).2 (db_row UUID_of_text r p f w2).2) as [-> ->].
  done.
Qed.

Lemma mapM_db_row_pure l (w1 w2 : Sys) :
  Forall (wf_id UUID_of_text) l -> Forall (fun rpf => is_Some rpf.2) l ->
  (mapM (fun rpf => db_row UUID_of_text rpf.1.1 rpf.1.2 rpf.2) l w1).1
  = (mapM (fun rpf => db_row UUID_of_text rpf.1.1 rpf.1.2 rpf.2) l w2).1
  ∧ (mapM (fun rpf => db_row UUID_of_text rpf.1.1 rpf.1.2 rpf.2) l w1).2 = w1.
Proof.
  intros H. revert w1 w2.
  induction H as [|[[r p] f] l [u Hu] _ IH]; intros w1 w2 Hf; [done|].
  apply Forall_cons in Hf as [[t Ht] Hf]. cbn [snd] in Ht. subst f.
  rewrite !mapM_io_cons. cbn [fst snd].
  destruct (db_row_pure r p t w1 w2 u Hu) as [-> E1].
  destruct (db_row_pure r p t w2 w2 u Hu) as [_ E2].
  rewrite E1, E2. destruct (IH w1 w2 Hf) as [-> ->]. done.
Qed.

Lemma zip_wf_id (df : DataFrame) (pub fet : list (option Z)) :
  well_formed_ids UUID_of_text df -> Forall (wf_id UUID_of_text) (zip (zip df pub) fet).
Proof.
  unfold well_formed_ids. rewrite !Forall_forall.
  intros H [[r p] f] Hin. apply H.
  apply elem_of_zip_l in Hin. by apply elem_of_zip_l in Hin.
Qed.

Lemma zip_fet_is_Some (df : DataFrame) (pub fet : list (option Z)) :
  Forall (fun t => is_Some t) fet ->
  Forall (fun rpf : Row * option Z * option Z => is_Some rpf.2)
         (zip (zip df pub) fet).
Proof.
  rewrite !Forall_forall. intros H [[r p] f] Hin. apply H.
  by apply elem_of_zip_r in Hin.
Qed.

(** C7, as the code has it: the rows [df_to_rows] submits are a function
    of the frame alone when every [article_id] is the text of a UUID.  Then
    whatever the state of the entropy source and of the clock, two runs
    give the same [article_id] key for each row, and no entropy is drawn;
    if moreover every [fetched_at_utc] parses, the two runs give identical
    rows and leave the state as it was. *)
Theorem df_to_rows_deterministic_on_well_formed_ids
    (df : DataFrame) (w1 w2 : Sys) :
  well_formed_ids UUID_of_text df ->
  db_article_id <$> (df_to_rows parse_dt UUID_of_text df w1).1
  = db_article_id <$> (df_to_rows parse_dt UUID_of_text df w2).1
  ∧ (df_to_rows parse_dt UUID_of_text df w1).2.1 = w1.1
  ∧ (fetched_at_parses parse_dt df ->
     (df_to_rows parse_dt UUID_of_text df w1).1 = (df_to_rows parse_dt UUID_of_text df w2).1
     ∧ (df_to_rows parse_dt UUID_of_text df w1).2 = w1).
Proof.
  intros Hwf. destruct df as [|r df]; [done|].
  unfold df_to_rows.
  set (pub := to_datetime parse_dt (published_time_utc <$> r :: df)).
  set (fet := to_datetime parse_dt (fetched_at_utc <$> r :: df)).
  pose proof (zip_wf_id (r :: df) pub fet Hwf) as Hz.
  destruct (mapM_db_row_keys _ w1 w2 Hz) as [Hk He].
  split_and!; [done..|].
  intros Hf. apply mapM_db_row_pure; [done|].
  by apply zip_fet_is_Some.
Qed.
End StoreFacts.

(** C7, as stated, fails: a row whose id is not the text of a UUID gets a
    fresh random UUID on each run, so that the second run of [df_to_rows]
    on the same frame submits another key. *)
Lemma df_to_rows_malformed_id_counterexample :
  let first := df_to_rows iso UUID_canonical demo_bad_id demo_sys in
  let second := df_to_rows iso UUID_canonical demo_bad_id first.2 in
  db_article_id <$> first.1 ≠ db_article_id <$> second.1.
Proof. vm_compute. intros H. discriminate H. Qed.

Lemma df_to_rows_deterministic_on_well_formed_ids_witness :
  let df := (dedupe_df iso demo_fresh demo_entropy).1 in
  let first := df_to_rows iso UUID_canonical df demo_sys in
  let second := df_to_rows iso UUID_canonical df first.2 in
  first.1 = second.1 ∧ first.2 = demo_sys.
Proof.
  apply (df_to_rows_deterministic_on_well_formed_ids iso UUID_canonical).
  - apply (bool_decide_eq_true_1 _). vm_compute. reflexivity.
  - apply (bool_decide_eq_true_1 _). vm_compute. reflexivity.
Defined.

(** ** The snapshot *)

Lemma fs_run_to_csv (path : string) (df : DataFrame)
    (fs : gmap string (list Line)) :
  fs_run (to_csv path df) fs = <[path := csv_lines df]> fs.
Proof.
  unfold fs_run, to_csv. cbn [foldl fs_apply].
  rewrite lookup_insert_eq. cbn [default app]. apply insert_insert_eq.
Qed.

Lemma fs_trace_to_csv (path : string) (df : DataFrame)
    (fs : gmap string (list Line)) :
  fs_trace (to_csv path df) fs
  = [fs; <[path := []]> fs; <[path := csv_lines df]> fs].
Proof.
  unfold to_csv. cbn [fs_trace fs_apply].
  rewrite lookup_insert_eq. cbn [default app]. by rewrite insert_insert_eq.
Qed.

Section PersistenceFacts.
Variable parse_dt : list cell -> cell -> option Z.
Variable UUID_of_text : string -> option Z.
Variable netloc : string -> string.

Lemma save_csv_eq (df : DataFrame) (e : Entropy) :
  save_csv parse_dt df e
  = (to_csv CSV_OUT (dedupe_df parse_dt df e).1, (dedupe_df parse_dt df e).2).
Proof. unfold save_csv. by rewrite rand_bind_eq. Qed.

(** C6 fails on the code: [save_csv] writes the snapshot in place.
    Between its two steps the snapshot file is empty: a reader then sees
    neither the previous snapshot nor the new one; only after the last
    step does the file hold the new snapshot. *)
Theorem save_csv_not_atomic (df : DataFrame) (e : Entropy)
    (fs : gmap string (list Line)) (old : list Line) :
  fs !! CSV_OUT = Some old -> old ≠ [] ->
  let ops := (save_csv parse_dt df e).1 in
  let new := csv_lines (dedupe_df parse_dt df e).1 in
  (∃ mid : gmap string (list Line),
     mid ∈ fs_trace ops fs
     ∧ mid !! CSV_OUT = Some []
     ∧ mid !! CSV_OUT ≠ Some old
     ∧ mid !! CSV_OUT ≠ Some new)
  ∧ fs_run ops fs !! CSV_OUT = Some new.
Proof.
  intros Hold Hne ops new. subst ops new. rewrite save_csv_eq. cbn [fst].
  split.
  - exists (<[CSV_OUT := []]> fs). rewrite fs_trace_to_csv.
    rewrite lookup_insert_eq. split_and!.
    + apply elem_of_cons. right. apply elem_of_cons. by left.
    + done.
    + intros [= H]. by apply Hne.
    + done.
  - by rewrite fs_run_to_csv, lookup_insert_eq.
Qed.

Lemma with_entropy_eq {A} (m : Rand A) (w : Sys) :
  with_entropy m w = ((m w.1).1, ((m w.1).2, w.2)).
Proof. unfold with_entropy. by destruct (m w.1). Qed.

(** on a frame that is already normalised [dedupe_df] draws nothing and
    its result does not depend on the entropy source *)
Lemma dedupe_df_of_clean (df : DataFrame) (e e0 : Entropy) :
  Forall clean df ->
  dedupe_df parse_dt df e = ((dedupe_df parse_dt df e0).1, e).
Proof.
  intros H. rewrite !dedupe_df_eq. unfold sorted, deduped.
  by rewrite !(normalize_ids_fixed df _ H).
Qed.

Lemma merge_new_clean (existing freshly : DataFrame) (e : Entropy) :
  Forall clean (merge_new parse_dt existing freshly e).1.1.
Proof.
  rewrite merge_new_eq.
  destruct (merge_existing parse_dt existing freshly e); cbn [fst];
    apply dedupe_df_clean.
Qed.

Lemma poll_merge_clean (cy : Cycle) (st : State) (e : Entropy)
    (combined : DataFrame) (new_ids : gset cell) :
  (poll_merge parse_dt netloc cy st e).1 = Ok (combined, new_ids) ->
  Forall clean combined.
Proof.
  unfold poll_merge. rewrite rand_bind_eq.
  destruct (fetch_all_feeds _ _ _ _ e) as [[fresh|] e1]; cbn [fst snd]; [|done].
  rewrite rand_bind_eq. cbn [fst]. intros [= H].
  pose proof (merge_new_clean (current_df st) fresh e1) as Hc.
  destruct (merge_new parse_dt (current_df st) fresh e1) as [[c n] e2].
  cbn [fst] in *. by simplify_eq.
Qed.

(** C5, as the code has it.  In a cycle that runs to completion (the fetch
    and merge return, the image prefetch does not raise), whether or not the
    database can be reached: when there are new ids the snapshot file is
    replaced by the lines of the normalised combined frame, and the frame
    shown is that frame; when there are none, no file is written. *)
Theorem poll_once_snapshot (cy : Cycle) (st : State) (w : Sys)
    (combined : DataFrame) (new_ids : gset cell) :
  (poll_merge parse_dt netloc cy st w.1).1 = Ok (combined, new_ids) ->
  prefetch_raises cy st combined new_ids = false ->
  let st' := (poll_once parse_dt UUID_of_text netloc cy st w).1 in
  let shown := (dedupe_df parse_dt combined w.1).1 in
  (new_ids ≠ ∅ ->
   files st' = <[CSV_OUT := csv_lines shown]> (files st)
   ∧ current_df st' = shown
   ∧ status st' = StatusAdded (size new_ids) (length shown))
  ∧ (new_ids = ∅ ->
     files st' = files st
     ∧ current_df st' = shown
     ∧ status st' = StatusNoNew (length shown)).
Proof.
  intros Hm Hp st' shown.
  pose proof (poll_merge_clean cy st w.1 combined new_ids Hm) as Hc.
  subst st'. unfold poll_once.
  rewrite io_bind_eq, with_entropy_eq. cbn [fst snd]. rewrite Hm.
  rewrite io_bind_eq. rewrite Hp.
  set (w1 := (upsert_articles _ _ _ _ _ _).2).
  split; intros Hn.
  - rewrite decide_False by done.
    rewrite !io_bind_eq, !with_entropy_eq. cbn [fst snd].
    rewrite save_csv_eq. cbn [fst snd].
    rewrite (dedupe_df_of_clean combined w1.1 w.1 Hc). cbn [fst snd].
    rewrite (dedupe_df_of_clean combined w1.1 w.1 Hc). cbn [fst snd files current_df status].
    by rewrite fs_run_to_csv.
  - rewrite decide_True by done.
    rewrite !io_bind_eq, !with_entropy_eq. cbn [fst snd].
    rewrite (dedupe_df_of_clean combined w1.1 w.1 Hc). done.
Qed.

End PersistenceFacts.

(** ** Frames as objects *)

Lemma py_bind_eq {A B} (c : Py A) (k : A -> Py B) (m : Mem) :
  (c ≫= k) m = k (c m).1 (c m).2.
Proof. unfold mbind, py_bind. by destruct (c m). Qed.

Lemma py_ret_eq {A} (a : A) (m : Mem) : (mret a : Py A) m = (a, m).
Proof. reflexivity. Qed.

Lemma get_frame_eq (l : nat) (m : Mem) :
  get_frame l m = (default [] (heap m !! l), m).
Proof. reflexivity. Qed.

Lemma new_frame_eq (df : DataFrame) (m : Mem) :
  new_frame df m
  = (fresh (dom (heap m)),
     {| heap := <[fresh (dom (heap m)) := df]> (heap m);
        entropy := entropy m |}).
Proof. reflexivity. Qed.

Lemma set_frame_eq (l : nat) (df : DataFrame) (m : Mem) :
  set_frame l df m
  = ((), {| heap := <[l := df]> (heap m); entropy := entropy m |}).
Proof. reflexivity. Qed.

Lemma draw_eq {A} (c : Rand A) (m : Mem) :
  draw c m
  = ((c (entropy m)).1, {| heap := heap m; entropy := (c (entropy m)).2 |}).
Proof. unfold draw. by destruct (c (entropy m)). Qed.

Lemma fresh_lookup_None (h h' : gmap nat DataFrame) :
  h ⊆ h' -> h !! fresh (dom h') = None.
Proof.
  intros Hs. apply not_elem_of_dom. intros Hin.
  apply (is_fresh (dom h')). by apply (subseteq_dom h h').
Qed.

Lemma extends_new (h h' : gmap nat DataFrame) (df : DataFrame) :
  h ⊆ h' -> h ⊆ <[fresh (dom h') := df]> h'.
Proof.
  intros Hs. etrans; [exact Hs|]. apply insert_subseteq.
  by apply fresh_lookup_None.
Qed.

Lemma extends_set (h h' : gmap nat DataFrame) (l : nat) (df : DataFrame) :
  h ⊆ h' -> h !! l = None -> h ⊆ <[l := df]> h'.
Proof. intros Hs Hl. by apply insert_subseteq_r. Qed.

(** what a function on references is to do: leave every object of the
    store it was called in as it is, return a new object holding [v], and
    leave the entropy source at [e] *)
Definition returns_new (m : Mem) (res : nat * Mem) (v : DataFrame)
    (e : Entropy) : Prop :=
  heap m ⊆ heap res.2
  ∧ heap m !! res.1 = None
  ∧ heap res.2 !! res.1 = Some v
  ∧ entropy res.2 = e.

(** one step of a computation on references, in the equation [H] *)
Ltac py_step H :=
  first [ rewrite py_bind_eq in H | idtac ];
  first [ rewrite new_frame_eq in H | rewrite get_frame_eq in H
        | rewrite set_frame_eq in H | rewrite draw_eq in H
        | rewrite py_ret_eq in H ];
  cbn [fst snd heap entropy] in H;
  try rewrite lookup_insert_eq in H;
  cbn [default from_option id] in H.

(** the store only grew: every insertion was at a reference allocated
    after the call *)
Ltac solve_extends :=
  repeat first
    [ reflexivity
    | apply extends_new
    | apply extends_set; [| apply fresh_lookup_None] ].

Section ObjectFacts.
Variable parse_dt : list cell -> cell -> option Z.

Lemma normalize_ids_obj_spec (l : nat) (m : Mem) (df : DataFrame) :
  heap m !! l = Some df ->
  returns_new m (normalize_ids_obj l m)
    (normalize_ids df (entropy m)).1 (normalize_ids df (entropy m)).2.
Proof.
  intros Hl. remember (normalize_ids_obj l m) as res eqn:E.
  unfold normalize_ids_obj in E.
  rewrite py_bind_eq, get_frame_eq in E. cbn [fst snd] in E. rewrite Hl in E.
  cbn [default from_option id] in E. unfold returns_new.
  destruct df as [|r df].
  - py_step E. subst res. cbn [fst snd heap entropy]. split_and!.
    + by apply extends_new.
    + by apply fresh_lookup_None.
    + apply lookup_insert_eq.
    + done.
  - do 10 py_step E. subst res. cbn [fst snd heap entropy]. split_and!.
    + solve_extends.
    + apply fresh_lookup_None. solve_extends.
    + apply lookup_insert_eq.
    + done.
Qed.
Lemma dedupe_df_unfold (df : DataFrame) (e : Entropy) :
  dedupe_df parse_dt df e
  = normalize_ids
      ((fun kr => set_published_time_utc (strftime <$> kr.1) kr.2)
         <$> sort_values_desc
               (zip (to_datetime parse_dt
                       (published_time_utc
                          <$> match (normalize_ids df e).1 with
                              | [] => (normalize_ids df e).1
                              | _ => drop_duplicates (normalize_ids df e).1
                              end))
                    match (normalize_ids df e).1 with
                    | [] => (normalize_ids df e).1
                    | _ => drop_duplicates (normalize_ids df e).1
                    end))
      (normalize_ids df e).2.
Proof. unfold dedupe_df. rewrite rand_bind_eq. reflexivity. Qed.

Lemma returns_new_trans (m m1 : Mem) (res : nat * Mem) (v : DataFrame)
    (e : Entropy) :
  heap m ⊆ heap m1 -> returns_new m1 res v e -> returns_new m res v e.
Proof.
  intros Hs (S & F & V & E). split_and!; [|  |done..].
  - by etrans.
  - eapply lookup_weaken_None; [exact F | exact Hs].
Qed.

Lemma dedupe_df_obj_tail (m1 : Mem) (D : DataFrame) :
  let S := sort_values_desc
             (zip (to_datetime parse_dt (published_time_utc <$> D)) D) in
  let X := (fun kr => set_published_time_utc (strftime <$> kr.1) kr.2) <$> S in
  returns_new m1
    ((new_frame S.*2
      ≫= fun df => set_frame df X ≫= fun _ => normalize_ids_obj df) m1)
    (normalize_ids X (entropy m1)).1 (normalize_ids X (entropy m1)).2.
Proof.
  intros S X.
  remember ((new_frame S.*2
             ≫= fun df => set_frame df X ≫= fun _ => normalize_ids_obj df) m1)
    as res eqn:E.
  do 2 py_step E. rewrite insert_insert_eq in E. subst res.
  match goal with
  | |- returns_new _ (normalize_ids_obj _ ?M) _ _ =>
      apply (returns_new_trans _ M)
  end.
  - cbn [heap]. solve_extends.
  - match goal with
    | |- returns_new ?M (normalize_ids_obj ?c _) _ _ =>
        pose proof (normalize_ids_obj_spec c M X (lookup_insert_eq _ _ _)) as H
    end.
    exact H.
Qed.

Lemma dedupe_df_obj_spec (l : nat) (m : Mem) (df : DataFrame) :
  heap m !! l = Some df ->
  returns_new m (dedupe_df_obj parse_dt l m)
    (dedupe_df parse_dt df (entropy m)).1 (dedupe_df parse_dt df (entropy m)).2.
Proof.
  intros Hl. rewrite dedupe_df_unfold.
  destruct (normalize_ids_obj_spec l m df Hl) as (S1 & F1 & V1 & E1).
  remember (dedupe_df_obj parse_dt l m) as res eqn:E.
  unfold dedupe_df_obj in E. rewrite py_bind_eq in E.
  destruct (normalize_ids_obj l m) as [a m1]. cbn [fst snd] in *.
  rewrite py_bind_eq, get_frame_eq in E. cbn [fst snd] in E.
  rewrite V1 in E. cbn [default from_option id] in E.
  rewrite <- E1.
  destruct (normalize_ids df (entropy m)).1 as [|r N] eqn:HN.
  - py_step E. py_step E. rewrite V1 in E. cbn [default from_option id] in E.
    subst res. eapply returns_new_trans; [exact S1|].
    apply (dedupe_df_obj_tail m1 []).
  - py_step E. py_step E. subst res.
    match goal with
    | |- returns_new _ (_ ?M) _ _ => apply (returns_new_trans _ M)
    end.
    + cbn [heap]. etrans; [exact S1|]. solve_extends.
    + match goal with
      | |- returns_new ?M _ _ _ =>
          pose proof (dedupe_df_obj_tail M (drop_duplicates (r :: N))) as H
      end.
      exact H.
Qed.
Lemma merge_new_unfold (existing freshly : DataFrame) (e : Entropy) :
  merge_new parse_dt existing freshly e
  = let F := (dedupe_df parse_dt freshly e).1 in
    let e1 := (dedupe_df parse_dt freshly e).2 in
    let E := (dedupe_df parse_dt existing e1).1 in
    let e2 := (dedupe_df parse_dt existing e1).2 in
    match E with
    | [] => ((F, id_set F), e2)
    | _ =>
        let added :=
          filter (fun r => article_id r
                           ∉ (list_to_set (astype_str <$> (article_id <$> E))
                              : gset cell))
                 ((fun r => set_article_id (astype_str (article_id r)) r) <$> F)
        in
        (((dedupe_df parse_dt (E ++ added) e2).1, id_set added),
         (dedupe_df parse_dt (E ++ added) e2).2)
    end.
Proof.
  unfold merge_new. rewrite !rand_bind_eq. cbn zeta.
  destruct (dedupe_df parse_dt existing (dedupe_df parse_dt freshly e).2).1;
    [reflexivity|].
  rewrite rand_bind_eq. reflexivity.
Qed.

Lemma merge_new_obj_spec (existing freshly : nat) (m : Mem)
    (de df : DataFrame) :
  heap m !! existing = Some de -> heap m !! freshly = Some df ->
  let res := merge_new_obj parse_dt existing freshly m in
  let pure := merge_new parse_dt de df (entropy m) in
  heap m ⊆ heap res.2
  ∧ heap m !! res.1.1 = None
  ∧ heap res.2 !! res.1.1 = Some pure.1.1
  ∧ res.1.2 = pure.1.2
  ∧ entropy res.2 = pure.2.
Proof.
  intros He Hf res pure. subst pure. rewrite merge_new_unfold. cbn zeta.
  destruct (dedupe_df_obj_spec freshly m df Hf) as (S1 & F1 & V1 & E1).
  remember res as res' eqn:E. subst res.
  unfold merge_new_obj in E. rewrite py_bind_eq in E.
  destruct (dedupe_df_obj parse_dt freshly m) as [f m1]. cbn [fst snd] in *.
  assert (He1 : heap m1 !! existing = Some de)
    by (eapply lookup_weaken; [exact He | exact S1]).
  destruct (dedupe_df_obj_spec existing m1 de He1) as (S2 & F2 & V2 & E2).
  rewrite py_bind_eq in E.
  destruct (dedupe_df_obj parse_dt existing m1) as [x m2]. cbn [fst snd] in *.
  assert (Vf : heap m2 !! f = Some (dedupe_df parse_dt df (entropy m)).1)
    by (eapply lookup_weaken; [exact V1 | exact S2]).
  rewrite py_bind_eq, get_frame_eq in E. cbn [fst snd] in E.
  rewrite V2 in E. cbn [default from_option id] in E.
  rewrite E1 in *.
  destruct (dedupe_df parse_dt de (dedupe_df parse_dt df (entropy m)).2).1
    as [|r0 E0] eqn:HE.
  - py_step E. rewrite Vf in E. cbn [default from_option id] in E.
    py_step E. subst res'. cbn [fst snd]. split_and!; try done.
    by etrans.
  - py_step E. rewrite Vf in E. cbn [default from_option id] in E.
    do 5 py_step E. rewrite py_bind_eq in E.
    match type of E with
    | context [dedupe_df_obj _ ?t ?M] =>
        pose proof (dedupe_df_obj_spec t M _ (lookup_insert_eq _ _ _)) as H;
        destruct (dedupe_df_obj parse_dt t M) as [tot m5]
    end.
    destruct H as (S5 & F5 & V5 & E5). cbn [fst snd heap entropy] in *.
    rewrite py_ret_eq in E. subst res'. cbn [fst snd].
    rewrite E2 in E5, V5. split_and!; try done.
    + etrans; [|exact S5].
      do 2 apply extends_new. apply extends_set; [by etrans | exact F1].
    + eapply lookup_weaken_None; [exact F5|].
      do 2 apply extends_new. apply extends_set; [by etrans | exact F1].
Qed.

(** C10: [normalize_ids], [dedupe_df] and [merge_new] do not change the
    frames they are given.  Called in any store, each leaves every frame
    object of that store as it is (in particular its arguments), and
    returns a new object that holds the value computed by the function on
    rows; an assignment inside these functions only ever reaches an object
    allocated by the call. *)
Theorem arguments_not_mutated (m : Mem) (existing freshly : nat)
    (de df : DataFrame) :
  heap m !! existing = Some de -> heap m !! freshly = Some df ->
  let n := normalize_ids_obj freshly m in
  let d := dedupe_df_obj parse_dt freshly m in
  let g := merge_new_obj parse_dt existing freshly m in
  (heap m ⊆ heap n.2 ∧ heap n.2 !! freshly = Some df
   ∧ heap m !! n.1 = None
   ∧ heap n.2 !! n.1 = Some (normalize_ids df (entropy m)).1)
  ∧ (heap m ⊆ heap d.2 ∧ heap d.2 !! freshly = Some df
     ∧ heap m !! d.1 = None
     ∧ heap d.2 !! d.1 = Some (dedupe_df parse_dt df (entropy m)).1)
  ∧ (heap m ⊆ heap g.2
     ∧ heap g.2 !! existing = Some de ∧ heap g.2 !! freshly = Some df
     ∧ heap m !! g.1.1 = None
     ∧ heap g.2 !! g.1.1 = Some (merge_new parse_dt de df (entropy m)).1.1
     ∧ g.1.2 = (merge_new parse_dt de df (entropy m)).1.2).
Proof.
  intros He Hf n d g.
  destruct (normalize_ids_obj_spec freshly m df Hf) as (Sn & Fn & Vn & _).
  destruct (dedupe_df_obj_spec freshly m df Hf) as (Sd & Fd & Vd & _).
  destruct (merge_new_obj_spec existing freshly m de df He Hf)
    as (Sg & Fg & Vg & Ng & _).
  split_and!; try done.
  - by apply (lookup_weaken (heap m)).
  - by apply (lookup_weaken (heap m)).
  - by apply (lookup_weaken (heap m)).
  - by apply (lookup_weaken (heap m)).
Qed.
End ObjectFacts.

(** ** Further properties of the pipeline *)

Lemma backfill_normalized_from (r : Row) (e : Entropy) :
  normalized_from r (backfill (fillna_row r) e).1.
Proof.
  unfold backfill, normalized_from.
  destruct (blank (article_id (fillna_row r))) eqn:Hb.
  - rewrite rand_bind_eq. cbn [mret rand_ret fst].
    cbn [article_id set_article_id]. split_and!.
    + by destruct r.
    + destruct (url (fillna_row r)) as [[|c u]|].
      * rewrite rand_bind_eq. apply blank_str_uuid.
      * apply gen_article_id_not_blank.
      * rewrite rand_bind_eq. apply blank_str_uuid.
    + done.
    + intros c u _ Hu.
      assert (Hu' : url (fillna_row r) = Some (String c u))
        by (destruct r; cbn in *; by rewrite Hu).
      by rewrite Hu'.
  - cbn [mret rand_ret fst]. split_and!; [by destruct r | done | done | done].
Qed.

Lemma mapM_backfill_normalized_from (l : DataFrame) (e : Entropy) :
  Forall2 normalized_from l (mapM backfill (fillna_row <$> l) e).1.
Proof.
  revert e. induction l as [|r l IH]; intros e; [constructor|].
  rewrite fmap_cons, mapM_rand_cons. cbn [fst].
  constructor; [apply backfill_normalized_from | apply IH].
Qed.

Lemma normalize_ids_Forall2 (df : DataFrame) (e : Entropy) :
  Forall2 normalized_from df (normalize_ids df e).1.
Proof.
  destruct df as [|r df]; [constructor|].
  apply (mapM_backfill_normalized_from (r :: df)).
Qed.

Lemma normalize_ids_length (df : DataFrame) (e : Entropy) :
  length (normalize_ids df e).1 = length df.
Proof. symmetry. eapply Forall2_length, normalize_ids_Forall2. Qed.

(** [normalize_ids] returns one row per row of its input, in order: the
    missing values filled with the empty text, a non-blank id kept exactly
    as it is (not even stripped), a blank or whitespace-only id replaced by
    a non-blank one, which is the name-based id of the URL when the row has
    a URL.  No other field is touched. *)
Theorem normalize_ids_rows (df : DataFrame) (e : Entropy) :
  Forall2 normalized_from df (normalize_ids df e).1
  ∧ length (normalize_ids df e).1 = length df.
Proof.
  split; [apply normalize_ids_Forall2 | apply normalize_ids_length].
Qed.

(** [normalize_ids] is idempotent: applied to its own result it returns it
    and draws no entropy, whatever the state of the entropy source. *)
Theorem normalize_ids_idempotent (df : DataFrame) (e e' : Entropy) :
  normalize_ids (normalize_ids df e).1 e' = ((normalize_ids df e).1, e').
Proof. apply normalize_ids_fixed, normalize_ids_clean. Qed.

Lemma drop_duplicates_seen_first (seen : gset cell) (df : DataFrame) (r : Row) :
  r ∈ drop_duplicates_seen seen df ->
  ∃ l1 l2, df = l1 ++ r :: l2 ∧ article_id r ∉ article_id <$> l1.
Proof.
  revert seen. induction df as [|x df IH]; intros seen; cbn.
  - intros H. by apply elem_of_nil in H.
  - case_decide as Hx.
    + intros H. destruct (IH _ H) as (l1 & l2 & -> & Hn).
      destruct (decide (article_id r = article_id x)) as [Heq|Hne].
      * exfalso.
        assert (Hr : article_id r ∈ article_id <$> drop_duplicates_seen seen (l1 ++ r :: l2))
          by by apply list_elem_of_fmap_2.
        apply drop_duplicates_seen_ids in Hr as [_ Hr]. apply Hr. by rewrite Heq.
      * exists (x :: l1), l2. split; [done|].
        rewrite fmap_cons. intros [?|?]%elem_of_cons; done.
    + intros [->|H]%elem_of_cons.
      * exists [], df. split; [done|]. apply not_elem_of_nil.
      * destruct (IH _ H) as (l1 & l2 & -> & Hn).
        assert (Hr : article_id r ∈ article_id <$> drop_duplicates_seen ({[article_id x]} ∪ seen) (l1 ++ r :: l2))
          by by apply list_elem_of_fmap_2.
        apply drop_duplicates_seen_ids in Hr as [_ Hr].
        exists (x :: l1), l2. split; [done|].
        rewrite fmap_cons. intros [Heq|?]%elem_of_cons; [|done].
        apply Hr. rewrite Heq. apply elem_of_union_l. by apply elem_of_singleton.
Qed.

Section PipelineMore.
Variable parse_dt : list cell -> cell -> option Z.

(** The frame [dedupe_df] returns has pairwise distinct ids, the same ids
    as the normalised input, at most as many rows as the input, and rows
    without a missing value or a blank id. *)
Theorem dedupe_df_unique_ids (df : DataFrame) (e : Entropy) :
  let out : DataFrame := (dedupe_df parse_dt df e).1 in
  NoDup (article_id <$> out)
  ∧ (∀ c : cell,
       c ∈ article_id <$> out ↔ c ∈ article_id <$> (normalize_ids df e).1)
  ∧ (length out <= length df)%nat
  ∧ Forall clean out.
Proof.
  intros out. subst out. split_and!.
  - apply dedupe_df_NoDup.
  - intros c. rewrite dedupe_df_ids_perm. unfold deduped.
    apply drop_duplicates_ids.
  - rewrite <- (length_fmap article_id), dedupe_df_ids_perm, length_fmap.
    unfold deduped.
    etrans; [apply sublist_length, drop_duplicates_sublist|].
    by rewrite normalize_ids_length.
  - apply dedupe_df_clean.
Qed.

(** on a normalised frame every row returned is a row of the frame with
    the published time printed again *)
Lemma dedupe_df_elem_clean (df : DataFrame) (e : Entropy) (r' : Row) :
  Forall clean df -> r' ∈ (dedupe_df parse_dt df e).1 ->
  ∃ (t : string) (r : Row),
    r ∈ df ∧ r' = set_published_time_utc (Some t) r.
Proof.
  intros Hc. rewrite dedupe_df_eq. cbn [fst]. intros H.
  apply list_elem_of_fmap in H as ([k r] & -> & H).
  rewrite sorted_perm in H. unfold keyed in H.
  apply list_elem_of_fmap in H as (r0 & [= -> ->] & H).
  unfold deduped in H. rewrite (normalize_ids_fixed df e Hc) in H.
  cbn [fst] in H.
  eexists _, r0. split; [|reflexivity].
  eapply elem_of_sublist; [exact H | apply drop_duplicates_sublist].
Qed.

(** Duplicates are resolved in favour of the first occurrence: every row
    [dedupe_df] returns is the first row of the normalised input with its
    id, with the published time printed again and every other field as in
    that row. *)
Theorem dedupe_df_keeps_first (df : DataFrame) (e : Entropy) (r' : Row) :
  r' ∈ (dedupe_df parse_dt df e).1 ->
  ∃ (k : option Z) (l1 : DataFrame) (r : Row) (l2 : DataFrame),
    (normalize_ids df e).1 = l1 ++ r :: l2
    ∧ article_id r ∉ article_id <$> l1
    ∧ r' = set_published_time_utc (Some (default "" (strftime <$> k))) r.
Proof.
  rewrite dedupe_df_eq. cbn [fst]. intros H.
  apply list_elem_of_fmap in H as ([k r] & -> & H).
  rewrite sorted_perm in H. unfold keyed in H.
  apply list_elem_of_fmap in H as (r0 & [= -> ->] & H).
  unfold deduped, drop_duplicates in H.
  destruct (drop_duplicates_seen_first _ _ _ H) as (l1 & l2 & Hd & Hn).
  by exists (parse_dt (published_time_utc <$> deduped df e)
            (published_time_utc r0)), l1, r0, l2.
Qed.

Lemma merge_new_ids_difference (existing freshly : DataFrame) (e : Entropy) :
  (merge_new parse_dt existing freshly e).1.2
  = id_set (merge_fresh parse_dt freshly e)
    ∖ id_set (merge_existing parse_dt existing freshly e).
Proof.
  rewrite merge_new_eq.
  pose proof (id_set_added parse_dt existing freshly e) as Ha.
  destruct (merge_existing parse_dt existing freshly e) as [|r0 E0] eqn:HE;
    cbn [fst snd]; [|done].
  unfold id_set at 2. cbn. by rewrite difference_empty_L.
Qed.

Lemma merge_new_total_ids (existing freshly : DataFrame) (e : Entropy)
    (c : cell) :
  c ∈ article_id <$> (merge_new parse_dt existing freshly e).1.1
  ↔ c ∈ article_id <$> merge_existing parse_dt existing freshly e
    ∨ c ∈ article_id <$> merge_fresh parse_dt freshly e.
Proof.
  rewrite merge_new_eq.
  pose proof (merged_clean parse_dt existing freshly e) as Hc.
  destruct (merge_existing parse_dt existing freshly e) as [|r0 E0] eqn:HE;
    cbn [fst].
  - rewrite fmap_nil, elem_of_nil. naive_solver.
  - rewrite dedupe_df_ids_clean by done.
    rewrite fmap_app, elem_of_app. unfold merge_added. rewrite HE.
    rewrite !list_elem_of_fmap. setoid_rewrite list_elem_of_filter.
    split.
    + intros [H|(r & -> & _ & Hr)]; [by left | right; by exists r].
    + intros [H|(r & -> & Hr)]; [by left|].
      destruct (decide (article_id r ∈ id_set (r0 :: E0))) as [Hin|Hout].
      * left. unfold id_set in Hin. apply elem_of_list_to_set in Hin.
        by apply list_elem_of_fmap in Hin.
      * right. by exists r.
Qed.

Lemma merge_new_total_NoDup (existing freshly : DataFrame) (e : Entropy) :
  NoDup (article_id <$> (merge_new parse_dt existing freshly e).1.1).
Proof.
  rewrite merge_new_eq.
  destruct (merge_existing parse_dt existing freshly e); cbn [fst];
    apply dedupe_df_NoDup.
Qed.

(** The combined frame of [merge_new] holds exactly the ids of the
    normalised existing frame and of the normalised fresh frame, each once:
    a merge never drops an id and never duplicates one; its rows have no
    missing value and no blank id. *)
Theorem merge_new_combined_ids (existing freshly : DataFrame) (e : Entropy) :
  let total : DataFrame := (merge_new parse_dt existing freshly e).1.1 in
  (∀ c : cell,
     c ∈ article_id <$> total
     ↔ c ∈ article_id <$> merge_existing parse_dt existing freshly e
       ∨ c ∈ article_id <$> merge_fresh parse_dt freshly e)
  ∧ NoDup (article_id <$> total)
  ∧ Forall clean total.
Proof.
  intros total. split_and!.
  - apply merge_new_total_ids.
  - apply merge_new_total_NoDup.
  - apply merge_new_clean.
Qed.

Lemma merge_new_ids_sub (existing freshly : DataFrame) (e : Entropy)
    (c : cell) :
  c ∈ (merge_new parse_dt existing freshly e).1.2 ->
  c ∈ article_id <$> (merge_new parse_dt existing freshly e).1.1.
Proof.
  intros Hc. rewrite merge_new_ids_difference in Hc.
  apply elem_of_difference in Hc as [Hc _].
  apply merge_new_total_ids. right.
  unfold id_set in Hc. by apply elem_of_list_to_set in Hc.
Qed.

Lemma to_write_rows (total : DataFrame) (new_ids : gset cell) (c : cell) :
  (∀ c, c ∈ new_ids -> c ∈ article_id <$> total) ->
  c ∈ new_ids ↔ ∃ r, r ∈ to_write total new_ids ∧ article_id r = c.
Proof.
  intros Hsub. unfold to_write. case_decide as He.
  - subst new_ids. split; [by intros ?%not_elem_of_empty|].
    intros (r & Hr & _). by apply elem_of_nil in Hr.
  - split.
    + intros Hc. pose proof (Hsub c Hc) as Hin.
      apply list_elem_of_fmap in Hin as (r & -> & Hr).
      exists r. split; [|done]. by apply list_elem_of_filter.
    + intros (r & Hr & <-). by apply list_elem_of_filter in Hr as [Hr _].
Qed.

Lemma to_write_length (total : DataFrame) (new_ids : gset cell) :
  (∀ c, c ∈ new_ids -> c ∈ article_id <$> total) ->
  NoDup (article_id <$> total) ->
  length (to_write total new_ids) = size new_ids.
Proof.
  intros Hsub Hnd.
  assert (Hn : NoDup (article_id <$> to_write total new_ids)).
  { unfold to_write. case_decide; [constructor|].
    eapply sublist_NoDup; [exact Hnd|]. apply fmap_sublist, sublist_filter. }
  rewrite <- (length_fmap article_id), <- (size_list_to_set (C:=gset cell)) by done.
  f_equal. apply set_eq. intros c.
  rewrite elem_of_list_to_set, (to_write_rows total new_ids c Hsub).
  rewrite list_elem_of_fmap. naive_solver.
Qed.

(** Every new id has its row in the combined frame, so that the lookup
    [combined.loc[combined["article_id"] == aid].iloc[0]] of [poll_once]
    finds one; and the frame handed to the database has exactly one row per
    new id. *)
Theorem merge_new_new_ids_have_rows (existing freshly : DataFrame)
    (e : Entropy) :
  let total : DataFrame := (merge_new parse_dt existing freshly e).1.1 in
  let new_ids : gset cell := (merge_new parse_dt existing freshly e).1.2 in
  (∀ c : cell, c ∈ new_ids ↔
     (∃ r : Row, r ∈ to_write total new_ids ∧ article_id r = c))
  ∧ (∀ r : Row, r ∈ to_write total new_ids -> r ∈ total)
  ∧ length (to_write total new_ids) = size new_ids.
Proof.
  intros total new_ids.
  assert (Hsub : ∀ c, c ∈ new_ids -> c ∈ article_id <$> total)
    by apply merge_new_ids_sub.
  split_and!.
  - intros c. by apply to_write_rows.
  - intros r. unfold to_write. case_decide; [by intros ?%elem_of_nil|].
    by intros [_ ?]%list_elem_of_filter.
  - apply to_write_length; [done | apply merge_new_total_NoDup].
Qed.

(** Merging a frame that was just merged brings nothing new: for a fresh
    frame that is already normalised (as every frame of [fetch_all_feeds]
    is), a second [merge_new] of it into the combined frame returns no new
    id, whatever the state of the entropy source. *)
Theorem merge_new_again_no_new_ids (existing freshly : DataFrame)
    (e e' : Entropy) :
  Forall clean freshly ->
  let total : DataFrame := (merge_new parse_dt existing freshly e).1.1 in
  (merge_new parse_dt total freshly e').1.2 = ∅.
Proof.
  intros Hc total. rewrite merge_new_ids_difference.
  apply set_eq. intros c. rewrite elem_of_difference.
  split; [|by intros ?%not_elem_of_empty]. intros [Hf Ht]. exfalso. apply Ht.
  unfold id_set in *. rewrite elem_of_list_to_set in *.
  unfold merge_existing, merge_fresh in *.
  rewrite dedupe_df_ids_clean in Hf by done.
  rewrite dedupe_df_ids_clean by apply merge_new_clean.
  apply merge_new_total_ids. right. unfold merge_fresh.
  by rewrite dedupe_df_ids_clean.
Qed.
End PipelineMore.

(** ** Further properties of the durable store *)

Lemma substring_length_le (n : nat) (t : string) :
  (String.length (String.substring 0 n t) <= n)%nat.
Proof.
  revert t. induction n as [|n IH]; intros [|c t]; cbn; try lia.
  specialize (IH t). lia.
Qed.

Lemma or_None_not_empty (c : cell) : or_None c ≠ Some "".
Proof. by destruct c as [[|? ?]|]. Qed.

Lemma mapM_io_length {A B} (g : A -> Io B) (l : list A) (w : Sys) :
  length (mapM g l w).1 = length l.
Proof.
  revert w. induction l as [|x l IH]; intros w; [done|].
  rewrite mapM_io_cons. cbn. by rewrite IH.
Qed.

Lemma mapM_io_Forall {A B} (g : A -> Io B) (P : B -> Prop) (l : list A)
    (w : Sys) :
  (∀ x w', P (g x w').1) -> Forall P (mapM g l w).1.
Proof.
  intros H. revert w. induction l as [|x l IH]; intros w; [constructor|].
  rewrite mapM_io_cons. cbn [fst]. constructor; [apply H | apply IH].
Qed.

Lemma filter_key_absent {A} (key : A -> Z) (l : list A) (k : Z) :
  k ∉ key <$> l -> filter (fun y => key y = k) l = [].
Proof.
  induction l as [|y l IH]; intros Hk; [done|].
  rewrite fmap_cons in Hk. apply not_elem_of_cons in Hk as [Hy Hk].
  rewrite filter_cons, decide_False by done. by apply IH.
Qed.

Lemma filter_key_NoDup {A} (key : A -> Z) (l : list A) (x : A) :
  NoDup (key <$> l) -> x ∈ l ->
  filter (fun y => key y = key x) l = [x].
Proof.
  induction l as [|y l IH]; intros Hnd Hx; [by apply elem_of_nil in Hx|].
  rewrite fmap_cons in Hnd. apply NoDup_cons in Hnd as [Hy Hnd].
  rewrite filter_cons. apply elem_of_cons in Hx as [->|Hx].
  - rewrite decide_True by done. f_equal. by apply filter_key_absent.
  - rewrite decide_False; [by apply IH|].
    intros Hk. apply Hy. rewrite Hk. by apply list_elem_of_fmap_2.
Qed.

Section StoreMore.
Variable parse_dt : list cell -> cell -> option Z.
Variable UUID_of_text : string -> option Z.

Lemma df_to_rows_length (df : DataFrame) (w : Sys) :
  length (df_to_rows parse_dt UUID_of_text df w).1 = length df.
Proof.
  destruct df as [|r df]; [done|]. unfold df_to_rows, to_datetime.
  rewrite mapM_io_length, !length_zip, !length_fmap. lia.
Qed.

(** From a frame whose cells all hold text, as [normalize_ids] leaves
    them, [df_to_rows] builds one tuple per row (none for the empty frame);
    in every tuple the title has at most 10000 characters, and an empty
    text of an optional column is stored as [NULL], never as the empty
    text.  (On a [NaN] title the slice [(r["title"] or "")[:10000]] raises
    in Python: the statement is for frames of text, where the embedding
    and the code agree.) *)
Theorem df_to_rows_shape (df : DataFrame) (w : Sys) :
  Forall filled df ->
  let rows := (df_to_rows parse_dt UUID_of_text df w).1 in
  length rows = length df
  ∧ Forall (fun row => (String.length (db_title row) <= 10000)%nat) rows
  ∧ Forall no_empty_text rows.
Proof.
  intros _ rows. subst rows. split_and!.
  - apply df_to_rows_length.
  - destruct df as [|r df]; [constructor|]. unfold df_to_rows.
    apply mapM_io_Forall. intros [[x p] f] w'. unfold db_row.
    rewrite !io_bind_eq. cbn [fst snd mret io_ret db_title].
    apply substring_length_le.
  - destruct df as [|r df]; [constructor|]. unfold df_to_rows.
    apply mapM_io_Forall. intros [[x p] f] w'. unfold db_row, no_empty_text.
    rewrite !io_bind_eq.
    cbn [fst snd mret io_ret db_author db_description db_url db_image_url
         db_source_name db_source_feed_url].
    split_and!; apply or_None_not_empty.
Qed.

Lemma execute_values_snoc (rows : list DbRow) (row : DbRow)
    (db : gmap Z DbRow) :
  execute_values (rows ++ [row]) db
  = <[db_article_id row := row]> (execute_values rows db).
Proof. unfold execute_values. by rewrite foldl_app. Qed.

Lemma execute_values_lookup (rows : list DbRow) (db : gmap Z DbRow) (k : Z) :
  execute_values rows db !! k
  = match last (with_key k rows) with
    | Some row => Some row
    | None => db !! k
    end.
Proof.
  induction rows as [|row rows IH] using rev_ind; [done|].
  rewrite execute_values_snoc. unfold with_key in *.
  rewrite filter_app, filter_cons, filter_nil.
  case_decide as Hk.
  - subst k. by rewrite lookup_insert_eq, last_snoc.
  - rewrite lookup_insert_ne by done. by rewrite app_nil_r.
Qed.

Lemma execute_values_dom (rows : list DbRow) (db : gmap Z DbRow) :
  dom db ⊆ dom (execute_values rows db).
Proof.
  intros k [row Hk]%elem_of_dom. apply elem_of_dom.
  rewrite execute_values_lookup. destruct (last _); [done|by rewrite Hk].
Qed.

(** [UPSERT_SQL] keyed by [article_id], for a batch whose keys are
    distinct (a statement that touches a key twice is rejected by the
    database): afterwards the table holds every row of the batch under its
    key, every other key is as it was before, and submitting the same batch
    again changes nothing. *)
Theorem execute_values_upsert (rows : list DbRow) (db : gmap Z DbRow) :
  NoDup (db_article_id <$> rows) ->
  (∀ row : DbRow,
     row ∈ rows -> execute_values rows db !! db_article_id row = Some row)
  ∧ (∀ k : Z,
       k ∉ db_article_id <$> rows -> execute_values rows db !! k = db !! k)
  ∧ execute_values rows (execute_values rows db) = execute_values rows db.
Proof.
  intros Hnd. split_and!.
  - intros row Hrow. rewrite execute_values_lookup. unfold with_key.
    by rewrite (filter_key_NoDup db_article_id rows row Hnd Hrow).
  - intros k Hk. rewrite execute_values_lookup. unfold with_key.
    by rewrite (filter_key_absent db_article_id rows k Hk).
  - apply map_eq. intros k. rewrite !execute_values_lookup.
    by destruct (last (with_key k rows)).
Qed.
End StoreMore.

(** ** Generated ids as database keys *)

Lemma hex_digit_char (d : Z) : hex_digit (hex_char d) = Some (d mod 16).
Proof.
  unfold hex_char.
  assert (H : (Z.to_nat (d mod 16) < 16)%nat)
    by (pose proof (Z.mod_pos_bound d 16); lia).
  rewrite <- (Z2Nat.id (d mod 16)) at 2 by (apply Z.mod_pos_bound; lia).
  revert H. generalize (Z.to_nat (d mod 16)). intros n H.
  do 16 (destruct n as [|n]; [reflexivity|]). lia.
Qed.

Lemma hex_number_digits (n : nat) (x acc : Z) :
  hex_number acc (hex_digits n x)
  = Some (acc * 16 ^ Z.of_nat n + x mod 16 ^ Z.of_nat n).
Proof.
  revert acc. induction n as [|n IH]; intros acc.
  - cbn [hex_digits hex_number]. rewrite Z.mod_1_r. f_equal. cbn. lia.
  - cbn [hex_digits hex_number]. rewrite hex_digit_char, IH. f_equal.
    rewrite Z.shiftr_div_pow2 by lia.
    replace (2 ^ (4 * Z.of_nat n)) with (16 ^ Z.of_nat n)
      by (rewrite Z.pow_mul_r by lia; reflexivity).
    rewrite Nat2Z.inj_succ, Z.pow_succ_r by lia.
    rewrite (Z.mul_comm 16 (16 ^ Z.of_nat n)).
    rewrite (Z.rem_mul_r x (16 ^ Z.of_nat n) 16) by lia. lia.
Qed.

Lemma UUID_canonical_str_uuid (x : Z) :
  UUID_canonical (str_uuid x) = Some (x mod 2 ^ 128).
Proof.
  pose proof (hex_number_digits 32 x 0) as Hn.
  rewrite <- undash_str_uuid in Hn. unfold UUID_canonical.
  replace (16 ^ Z.of_nat 32) with (2 ^ 128) in Hn by reflexivity.
  rewrite Z.mul_0_l, Z.add_0_l in Hn. rewrite Hn.
  unfold str_uuid. pose proof (hex_digits_length 32 x) as H.
  generalize dependent (hex_digits 32 x). intros hex H.
  do 32 (destruct hex as [|? hex]; [discriminate H|]).
  destruct hex; [reflexivity | discriminate H].
Qed.

Lemma hex_digits_eq (n : nat) (x y : Z) :
  x mod 16 ^ Z.of_nat n = y mod 16 ^ Z.of_nat n ->
  hex_digits n x = hex_digits n y.
Proof.
  intros H.
  pose proof (hex_number_digits n x 0) as Hx.
  pose proof (hex_number_digits n y 0) as Hy.
  rewrite H in Hx. rewrite <- Hy in Hx. clear Hy H.
  revert Hx. generalize 0 at 1 2. 
  induction n as [|n IH]; intros acc Hx; [done|].
  cbn [hex_digits hex_number] in *. rewrite !hex_digit_char in Hx.
  rewrite !hex_number_digits in Hx. injection Hx as Hx.
  assert (Hb := Z.mod_pos_bound x (16 ^ Z.of_nat n) ltac:(lia)).
  assert (Hc := Z.mod_pos_bound y (16 ^ Z.of_nat n) ltac:(lia)).
  assert (Hd := Z.mod_pos_bound (Z.shiftr x (4 * Z.of_nat n)) 16 ltac:(lia)).
  assert (He := Z.mod_pos_bound (Z.shiftr y (4 * Z.of_nat n)) 16 ltac:(lia)).
  assert (Z.shiftr x (4 * Z.of_nat n) mod 16 = Z.shiftr y (4 * Z.of_nat n) mod 16
          ∧ x mod 16 ^ Z.of_nat n = y mod 16 ^ Z.of_nat n) as [Hh Ht].
  { apply (Z.div_mod_unique (16 ^ Z.of_nat n)); [lia..|].
    revert Hx. generalize (16 ^ Z.of_nat n). intros P Hx. lia. }
  f_equal.
  - unfold hex_char. by rewrite Hh.
  - apply (IH 0). by rewrite !hex_number_digits, Ht.
Qed.

Lemma str_uuid_mod (x y : Z) :
  x mod 2 ^ 128 = y mod 2 ^ 128 -> str_uuid x = str_uuid y.
Proof.
  intros H. unfold str_uuid. by rewrite (hex_digits_eq 32 x y H).
Qed.

Lemma fmap_zip3 {A B C D} (g : A -> D) (l : list A) (p : list B)
    (f : list C) :
  length p = length l -> length f = length l ->
  (fun x : A * B * C => g x.1.1) <$> zip (zip l p) f = g <$> l.
Proof.
  revert p f. induction l as [|a l IH]; intros [|b p] [|c f] Hp Hf;
    try done.
  cbn. f_equal. apply IH; cbn in *; lia.
Qed.

Section KeyFacts.
Variable parse_dt : list cell -> cell -> option Z.

Lemma mapM_db_row_key_list (l : list (Row * option Z * option Z))
    (w : Sys) :
  Forall (wf_id UUID_canonical) l ->
  db_article_id
    <$> (mapM (fun rpf => db_row UUID_canonical rpf.1.1 rpf.1.2 rpf.2) l w).1
  = (fun rpf => key_of (article_id rpf.1.1)) <$> l
  ∧ (mapM (fun rpf => db_row UUID_canonical rpf.1.1 rpf.1.2 rpf.2) l w).2.1
    = w.1.
Proof.
  intros H. revert w.
  induction H as [|[[r p] f] l [u Hu] _ IH]; intros w; [done|].
  rewrite !mapM_io_cons. cbn [fst snd fmap list_fmap].
  destruct (db_row_key UUID_canonical r p f w u Hu) as [-> E1].
  destruct (IH (db_row UUID_canonical r p f w).2) as [-> ->].
  unfold key_of. cbn [fst] in *. by rewrite Hu.
Qed.

Lemma generated_wf (df : DataFrame) :
  Forall generated_id df -> well_formed_ids UUID_canonical df.
Proof.
  unfold well_formed_ids. intros H. eapply Forall_impl; [exact H|].
  intros r [x Hx].
  rewrite Hx. cbn [str_cell]. by rewrite UUID_canonical_str_uuid.
Qed.

Lemma or_None_idemp (c : cell) : or_None (or_None c) = or_None c.
Proof. by destruct c as [[|? ?]|]. Qed.

Lemma mapM_db_row_rows (l : list (Row * option Z * option Z)) (w : Sys) :
  Forall (wf_id UUID_canonical) l ->
  Forall2 (fun rpf row => db_article_id row = key_of (article_id rpf.1.1)
                          ∧ tuple_of rpf.1.1 row)
    l (mapM (fun rpf => db_row UUID_canonical rpf.1.1 rpf.1.2 rpf.2) l w).1.
Proof.
  intros H. revert w.
  induction H as [|[[r p] f] l [u Hu] _ IH]; intros w; [constructor|].
  rewrite !mapM_io_cons. cbn [fst snd]. constructor; [|apply IH].
  split.
  - destruct (db_row_key UUID_canonical r p f w u Hu) as [-> _].
    unfold key_of. cbn [fst] in *. by rewrite Hu.
  - unfold db_row, tuple_of. rewrite !io_bind_eq.
    cbn [fst snd mret io_ret db_title db_author db_description db_url
         db_image_url db_source_name db_source_feed_url].
    by rewrite !or_None_idemp.
Qed.

Lemma Forall2_zip3 {A B C D} (P : A -> D -> Prop) (l : list A) (p : list B)
    (f : list C) (k : list D) :
  length p = length l -> length f = length l ->
  Forall2 (fun x : A * B * C => P x.1.1) (zip (zip l p) f) k ->
  Forall2 P l k.
Proof.
  revert p f k. induction l as [|a l IH]; intros [|b p] [|c f] k Hp Hf H;
    try done.
  - by inversion H.
  - cbn in H. inversion H as [|? y ? k' Hy Hk]; subst. constructor; [done|].
    eapply IH; [| |exact Hk]; cbn in *; lia.
Qed.

Lemma Forall2_elem_l {A B} (P : A -> B -> Prop) (l : list A) (k : list B)
    (x : A) :
  Forall2 P l k -> x ∈ l -> ∃ y, y ∈ k ∧ P x y.
Proof.
  induction 1 as [|a b l k Hab _ IH]; [by intros ?%elem_of_nil|].
  intros [->|Hx]%elem_of_cons.
  - exists b. split; [by left | done].
  - destruct (IH Hx) as (y & Hy & HP). exists y. split; [by right | done].
Qed.

(** under generated ids: the tuples row by row, their keys, no entropy *)
Lemma df_to_rows_rows (df : DataFrame) (w : Sys) :
  Forall generated_id df ->
  Forall2 (fun r row => db_article_id row = key_of (article_id r)
                        ∧ tuple_of r row)
    df (df_to_rows parse_dt UUID_canonical df w).1.
Proof.
  intros Hg. destruct df as [|r df]; [constructor|]. unfold df_to_rows.
  set (pub := to_datetime parse_dt (published_time_utc <$> r :: df)).
  set (fet := to_datetime parse_dt (fetched_at_utc <$> r :: df)).
  pose proof (zip_wf_id UUID_canonical (r :: df) pub fet (generated_wf _ Hg))
    as Hz.
  apply (Forall2_zip3 _ (r :: df) pub fet);
    [subst pub; unfold to_datetime; by rewrite !length_fmap
    |subst fet; unfold to_datetime; by rewrite !length_fmap|].
  by apply mapM_db_row_rows.
Qed.

Lemma df_to_rows_key_list (df : DataFrame) (w : Sys) :
  Forall generated_id df ->
  db_article_id <$> (df_to_rows parse_dt UUID_canonical df w).1
  = (fun r => key_of (article_id r)) <$> df
  ∧ (df_to_rows parse_dt UUID_canonical df w).2.1 = w.1.
Proof.
  intros Hg. destruct df as [|r df]; [done|]. unfold df_to_rows.
  set (pub := to_datetime parse_dt (published_time_utc <$> r :: df)).
  set (fet := to_datetime parse_dt (fetched_at_utc <$> r :: df)).
  pose proof (zip_wf_id UUID_canonical (r :: df) pub fet (generated_wf _ Hg))
    as Hz.
  destruct (mapM_db_row_key_list _ w Hz) as [-> ->]. split; [|done].
  apply (fmap_zip3 (fun r => key_of (article_id r)));
    subst pub fet; unfold to_datetime; by rewrite !length_fmap.
Qed.

Lemma key_of_generated_inj (df : DataFrame) :
  Forall generated_id df -> NoDup (article_id <$> df) ->
  NoDup ((fun r => key_of (article_id r)) <$> df).
Proof.
  intros Hg Hnd. rewrite (list_fmap_compose article_id key_of).
  apply NoDup_fmap_2_strong; [|done].
  intros c d [r [-> Hr]]%list_elem_of_fmap [r' [-> Hr']]%list_elem_of_fmap.
  rewrite Forall_forall in Hg.
  destruct (Hg r Hr) as [x ->]. destruct (Hg r' Hr') as [y ->].
  unfold key_of. cbn [str_cell]. rewrite !UUID_canonical_str_uuid.
  cbn [default]. intros H. f_equal. by apply str_uuid_mod.
Qed.

(** The ids [gen_article_id] writes are kept as database keys.  For a
    frame whose ids are all the text of a UUID as [str] spells it,
    [df_to_rows] submits for each row the UUID its id spells and never
    falls back to a random one (no entropy is drawn); when the ids of the
    frame are distinct, so are the keys of the batch. *)
Theorem df_to_rows_keys_of_generated_ids (df : DataFrame) (w : Sys) :
  Forall generated_id df ->
  let rows := (df_to_rows parse_dt UUID_canonical df w).1 in
  db_article_id <$> rows = (fun r => key_of (article_id r)) <$> df
  ∧ (df_to_rows parse_dt UUID_canonical df w).2.1 = w.1
  ∧ (NoDup (article_id <$> df) -> NoDup (db_article_id <$> rows)).
Proof.
  intros Hg rows. subst rows.
  destruct (df_to_rows_key_list df w Hg) as [Hk He].
  split_and!; [done..|].
  intros Hnd. rewrite Hk. by apply key_of_generated_inj.
Qed.
End KeyFacts.

(** ** Where the fetched rows come from *)

Lemma or_else_fallback (a : string) : or_else a SOURCE_FALLBACK ≠ "".
Proof. by destruct a. Qed.

Lemma from_entry_set_published (netloc : string -> string)
    (u fetched_at : string) (feed_title : cell) (en : Entry) (v : cell)
    (r : Row) :
  from_entry netloc u fetched_at feed_title en r ->
  from_entry netloc u fetched_at feed_title en (set_published_time_utc v r).
Proof. by destruct r. Qed.

Section Provenance.
Variable parse_dt : list cell -> cell -> option Z.
Variable netloc : string -> string.
Variable feedparser_parse : string -> Fetched.

Lemma entry_row_from_entry (u fetched_at : string) (feed_title : cell)
    (en : Entry) (e : Entropy) :
  let name := or_else (or_else (s feed_title) (netloc u)) SOURCE_FALLBACK in
  from_entry netloc u fetched_at feed_title en
    (entry_row name u fetched_at en e).1
  ∧ clean (entry_row name u fetched_at en e).1.
Proof.
  intros name. unfold entry_row. rewrite rand_bind_eq.
  cbn [mret rand_ret fst]. split.
  - unfold from_entry, generated_id.
    cbn [article_id title author description url image_url source_name
         source_feed_url fetched_at_utc].
    split_and!; try done.
    + unfold gen_article_id. destruct (entry_link en) as [[|c l]|].
      * rewrite rand_bind_eq. by eexists.
      * by eexists.
      * rewrite rand_bind_eq. by eexists.
    + intros c l ->. done.
  - split; [done|]. unfold has_id. cbn [article_id].
    apply gen_article_id_not_blank.
Qed.

Lemma mapM_entry_row_from (u fetched_at : string) (feed_title : cell)
    (entries : list Entry) (e : Entropy) :
  let name := or_else (or_else (s feed_title) (netloc u)) SOURCE_FALLBACK in
  Forall (fun r => clean r
                   ∧ ∃ en, en ∈ entries
                           ∧ from_entry netloc u fetched_at feed_title en r)
         (mapM (entry_row name u fetched_at) entries e).1.
Proof.
  intros name. revert e. induction entries as [|en entries IH]; intros e;
    [constructor|].
  rewrite mapM_rand_cons. cbn [fst]. constructor.
  - destruct (entry_row_from_entry u fetched_at feed_title en e) as [Hf Hc].
    split; [done|]. exists en. split; [by left | done].
  - eapply Forall_impl; [apply IH|]. intros r (Hc & en' & Hin & Hf).
    split; [done|]. exists en'. split; [by right | done].
Qed.

Lemma fetch_feed_rows_from (u : string) (e : Entropy) (df : DataFrame) :
  (fetch_feed_rows parse_dt netloc feedparser_parse u e).1 = Ok df ->
  Forall (fetched_from netloc feedparser_parse [u]) df.
Proof.
  unfold fetch_feed_rows.
  destruct (feedparser_parse u) as [|fetched_at feed_title entries] eqn:Hu;
    [done|].
  rewrite !rand_bind_eq. cbn [mret rand_ret fst]. intros [= <-].
  pose proof (mapM_entry_row_from u fetched_at feed_title entries e) as Hrows.
  cbv zeta in Hrows.
  apply Forall_forall. intros r' Hr'.
  apply dedupe_df_elem_clean in Hr' as (t & r & Hr & ->);
    [|eapply Forall_impl; [exact Hrows|]; by intros ? [? _]].
  rewrite Forall_forall in Hrows.
  destruct (Hrows r Hr) as (_ & en & Hen & Hf).
  exists u, fetched_at, feed_title, entries, en.
  split_and!; [by left | done | done |].
  by apply from_entry_set_published.
Qed.

Lemma fetched_from_more (urls urls' : list string) (r : Row) :
  urls ⊆ urls' ->
  fetched_from netloc feedparser_parse urls r ->
  fetched_from netloc feedparser_parse urls' r.
Proof.
  intros Hs (u & fa & ft & ens & en & Hu & H). exists u, fa, ft, ens, en.
  split; [by apply Hs | done].
Qed.

Lemma fetch_frames_from (urls : list string) (e : Entropy) :
  Forall (Forall (fetched_from netloc feedparser_parse urls))
         (fetch_frames parse_dt netloc feedparser_parse urls e).1.
Proof.
  revert e. induction urls as [|u urls IH]; intros e; [constructor|].
  rewrite fetch_frames_cons. cbn [fst].
  assert (Hrest : Forall (Forall (fetched_from netloc feedparser_parse (u :: urls)))
            (fetch_frames parse_dt netloc feedparser_parse urls
               (fetch_feed_rows parse_dt netloc feedparser_parse u e).2).1).
  { eapply Forall_impl; [apply IH|]. intros df Hdf.
    eapply Forall_impl; [exact Hdf|]. intros r.
    apply fetched_from_more. set_solver. }
  destruct (fetch_feed_rows parse_dt netloc feedparser_parse u e).1 as [df|]
    eqn:Hdf; [|done].
  constructor; [|done].
  eapply Forall_impl; [exact (fetch_feed_rows_from u e df Hdf)|].
  intros r. apply fetched_from_more. set_solver.
Qed.

Lemma fetch_all_feeds_from (urls : list string) (e : Entropy) :
  ∃ df : DataFrame,
    (fetch_all_feeds parse_dt netloc feedparser_parse urls e).1 = Ok df
    ∧ Forall (fetched_from netloc feedparser_parse urls) df
    ∧ Forall clean df.
Proof.
  rewrite fetch_all_feeds_eq. cbn [fst]. eexists. split; [reflexivity|].
  split; [|apply dedupe_df_clean].
  apply Forall_forall. intros r' Hr'.
  apply dedupe_df_elem_clean in Hr' as (t & r & Hr & ->);
    [|apply Forall_concat, fetch_frames_clean].
  pose proof (fetch_frames_from urls e) as Hfrom.
  apply Forall_concat in Hfrom. rewrite Forall_forall in Hfrom.
  destruct (Hfrom r Hr) as (u & fa & ft & ens & en & Hu & Hp & Hen & Hf).
  exists u, fa, ft, ens, en. split_and!; [done..|].
  by apply from_entry_set_published.
Qed.

(** Nothing is invented by the fetch.  Every row [fetch_all_feeds] returns
    comes from an entry of a feed of the list whose fetch did not raise: it
    carries the URL of that feed, the time of that fetch and the title, the
    author, the description, the link and the image URL of the entry; its
    id is the text of a UUID, the name-based one of the link when the entry
    has a link; and its source name is never empty (the title of the feed,
    else the host of the feed URL, else the fallback name). *)
Theorem fetch_all_feeds_provenance (urls : list string) (e : Entropy) :
  ∃ df : DataFrame,
    (fetch_all_feeds parse_dt netloc feedparser_parse urls e).1 = Ok df
    ∧ Forall (fetched_from netloc feedparser_parse urls) df
    ∧ Forall generated_id df
    ∧ Forall (fun r => source_name r ≠ Some "" ∧ source_name r ≠ None) df.
Proof.
  destruct (fetch_all_feeds_from urls e) as (df & Hdf & H & _).
  exists df. split; [exact Hdf|].
  split_and!; [exact H|..].
  - eapply Forall_impl; [exact H|].
    intros r (u & fa & ft & ens & en & _ & _ & _ & Hf). apply Hf.
  - eapply Forall_impl; [exact H|].
    intros r (u & fa & ft & ens & en & _ & _ & _ & Hf).
    destruct Hf as (_ & _ & _ & _ & _ & _ & _ & Hn & _). rewrite Hn.
    split; [|done]. intros [= Hs]. by apply or_else_fallback in Hs.
Qed.
End Provenance.

(** ** The media of an entry *)

Lemma first_truthy_app (l k : list cell) :
  first_truthy (l ++ k)
  = match first_truthy l with
    | Some url => Some url
    | None => first_truthy k
    end.
Proof.
  induction l as [|c l IH]; [done|]. cbn [app first_truthy].
  destruct (truthy c) eqn:Hc; [|done]. by destruct c as [[|? ?]|].
Qed.

Lemma first_truthy_spec (l : list cell) :
  match first_truthy l with
  | Some url =>
      url ≠ ""
      ∧ ∃ l1 l2, l = l1 ++ Some url :: l2
                 ∧ Forall (fun c => truthy c = false) l1
  | None => Forall (fun c => truthy c = false) l
  end.
Proof.
  induction l as [|c l IH]; [constructor|]. cbn [first_truthy].
  destruct (truthy c) eqn:Hc.
  - destruct c as [[|a t]|]; try discriminate Hc.
    split; [done|]. by exists [], l.
  - destruct (first_truthy l) as [url|].
    + destruct IH as (Hne & l1 & l2 & -> & Hl1). split; [done|].
      exists (c :: l1), l2. split; [done|]. by constructor.
    + by constructor.
Qed.

(** [first_media_url] returns the first non-empty URL among those of
    [media_content], then those of [media_thumbnail], then those of the
    enclosures ([href] before [url]): a URL it returns is never empty and
    every candidate before it is missing or empty; it returns [None] only
    when every candidate is. *)
Theorem first_media_url_first_non_empty (entry : MediaEntry) :
  match first_media_url entry with
  | Some url =>
      url ≠ ""
      ∧ ∃ l1 l2, media_candidates entry = l1 ++ Some url :: l2
                 ∧ Forall (fun c => truthy c = false) l1
  | None => Forall (fun c => truthy c = false) (media_candidates entry)
  end.
Proof.
  assert (H : first_media_url entry = first_truthy (media_candidates entry)).
  { unfold first_media_url, media_candidates.
    by rewrite !first_truthy_app. }
  rewrite H. apply first_truthy_spec.
Qed.

(** ** The list of feeds *)

Lemma uniq_seen_spec (seen : gset string) (l : list string) :
  NoDup (uniq_seen seen l)
  ∧ (∀ a, a ∈ uniq_seen seen l ↔ a ∈ l ∧ a ∉ seen)
  ∧ sublist (uniq_seen seen l) l.
Proof.
  revert seen. induction l as [|a l IH]; intros seen; cbn [uniq_seen].
  - split_and!; [constructor | | done].
    intros a. rewrite elem_of_nil. naive_solver.
  - case_decide as Ha.
    + destruct (IH seen) as (Hn & He & Hs). split_and!; [done| |].
      * intros b. rewrite He, elem_of_cons. naive_solver.
      * by apply sublist_cons.
    + destruct (IH ({[a]} ∪ seen)) as (Hn & He & Hs). split_and!.
      * apply NoDup_cons. split; [|done]. rewrite He. set_solver.
      * intros b. rewrite !elem_of_cons, He. 
        destruct (decide (b = a)) as [->|Hb]; set_solver.
      * by apply sublist_skip.
Qed.

(** [discover_feed_urls] never raises and returns every feed link of the
    page once, in the order of the page; when the request or the parse
    fails it returns the empty list. *)
Theorem discover_feed_urls_unique (links : Result (list string)) :
  let found := discover_feed_urls links in
  NoDup found
  ∧ (∀ a : string, a ∈ found ↔ ∃ l, links = Ok l ∧ a ∈ l)
  ∧ (∀ l, links = Ok l -> sublist found l)
  ∧ (links = Raise -> found = []).
Proof.
  destruct links as [l|]; cbn [discover_feed_urls]; unfold uniq.
  - destruct (uniq_seen_spec ∅ l) as (Hn & He & Hs). split_and!.
    + done.
    + intros a. rewrite He. split.
      * intros [Ha _]. by exists l.
      * intros (l' & [= <-] & Ha). split; [done | apply not_elem_of_empty].
    + by intros l' [= <-].
    + done.
  - split_and!; [constructor| |done..].
    intros a. split; [by intros ?%elem_of_nil|]. by intros (l & ? & _).
Qed.

Lemma load_feeds_nonempty (file : FeedsFile) : (load_feeds file).1 ≠ [].
Proof.
  destruct file as [| |data]; cbn; try done. by destruct (omap id data).
Qed.

Section SourcesFacts.
Variable feedparser_parse : string -> Fetched.
Variable page_links : string -> Result (list string).

Lemma append_feed_ok (u : string) (st : Sources) :
  u ∉ feed_urls st ->
  feed_urls (append_feed u st) ≠ []
  ∧ (NoDup (feed_urls st) -> NoDup (feed_urls (append_feed u st)))
  ∧ FEEDS_JSON (append_feed u st) = save_feeds (feed_urls (append_feed u st))
  ∧ feed_urls st `prefix_of` feed_urls (append_feed u st).
Proof.
  intros Hu. cbn [append_feed feed_urls FEEDS_JSON]. split_and!.
  - by destruct (feed_urls st).
  - intros Hn. apply NoDup_app. split_and!; [done| |apply NoDup_singleton].
    intros x Hx ->%list_elem_of_singleton. done.
  - done.
  - by eexists.
Qed.

Lemma find_choice_fresh (st : Sources) (found : list string) (c : string)
    (rest : list string) :
  filter (fun f => f ∉ feed_urls st) found = c :: rest -> c ∉ feed_urls st.
Proof.
  intros H.
  assert (Hc : c ∈ filter (fun f => f ∉ feed_urls st) found)
    by (rewrite H; by left).
  by apply list_elem_of_filter in Hc as [Hc _].
Qed.

(** one action on the sources tab: the list stays free of duplicates, it
    does not become empty, and it is either untouched, the file with it, or
    saved to the file as it now is *)
Lemma source_step_ok (st : Sources) (a : SourceAction) :
  let st' := source_step feedparser_parse page_links st a in
  (feed_urls st ≠ [] -> feed_urls st' ≠ [])
  ∧ (NoDup (feed_urls st) -> NoDup (feed_urls st'))
  ∧ (st' = st ∨ FEEDS_JSON st' = save_feeds (feed_urls st')).
Proof.
  destruct a as [text|text|sel]; cbn [source_step].
  - unfold add_feed. destruct (strip (s text)) as [|c u] eqn:Hu; [by auto|].
    destruct (seems_like_feed_url (String c u)); cbn [negb]; [|by auto].
    case_bool_decide as Hin; [by auto|].
    destruct (feedparser_parse (String c u)) as [|fa ft [|en ens]];
      [by auto..|].
    destruct (append_feed_ok (String c u) st Hin) as (H1 & H2 & H3 & _).
    by auto.
  - unfold find_feed_on_page.
    destruct (strip (s text)) as [|c u] eqn:Hu; [by auto|].
    destruct (filter _ _) as [|choice rest] eqn:Hf; [by auto|].
    apply find_choice_fresh in Hf.
    destruct (append_feed_ok choice st Hf) as (H1 & H2 & H3 & _).
    by auto.
  - unfold remove_selected_feed. destruct sel as [|idx sel]; [by auto|].
    destruct (feed_urls st !! idx) as [url|] eqn:Hidx; [|by auto].
    destruct (length (feed_urls st) =? 1)%nat eqn:Hlen; [by auto|].
    cbn [feed_urls FEEDS_JSON]. split_and!; [| |by right].
    + intros _ Hd. apply Nat.eqb_neq in Hlen.
      apply (f_equal length) in Hd. rewrite length_delete in Hd by eauto.
      cbn in Hd. apply lookup_lt_Some in Hidx. lia.
    + intros Hn. eapply sublist_NoDup; [exact Hn|]. apply sublist_delete.
Qed.

(** The list of feeds is never empty: whatever [feeds.json] holds at
    start-up and whatever the user then does on the sources tab (adding a
    feed, discovering one on a page, removing the selected one), there is
    at least one feed to poll. *)
Theorem feeds_never_empty (file : FeedsFile) (actions : list SourceAction) :
  feed_urls (sources_run feedparser_parse page_links file actions) ≠ [].
Proof.
  unfold sources_run.
  assert (H0 : feed_urls {| feed_urls := (load_feeds file).1;
                            FEEDS_JSON := (load_feeds file).2 |} ≠ [])
    by apply load_feeds_nonempty.
  revert H0. generalize {| feed_urls := (load_feeds file).1;
                           FEEDS_JSON := (load_feeds file).2 |}.
  induction actions as [|a actions IH]; intros st Hst; [done|].
  cbn [foldl]. apply IH. by apply source_step_ok.
Qed.

(** An action on the sources tab never introduces a duplicate feed, and
    what it changes it saves: after the action the list is either exactly
    as before, the file untouched, or the file holds the list as it now
    is. *)
Theorem source_step_saves (st : Sources) (a : SourceAction) :
  NoDup (feed_urls st) ->
  let st' := source_step feedparser_parse page_links st a in
  NoDup (feed_urls st')
  ∧ (st' = st ∨ FEEDS_JSON st' = save_feeds (feed_urls st')).
Proof.
  intros Hn st'. destruct (source_step_ok st a) as (_ & H2 & H3). by auto.
Qed.
End SourcesFacts.

(** ** The table of the window *)

Lemma clean_id (r : Row) :
  clean r -> ∃ (c : ascii) (t : string), article_id r = Some (String c t).
Proof.
  intros [Hf Hi]. apply filled_cells in Hf as [Hf _].
  unfold has_id in Hi. destruct (article_id r) as [[|c t]|]; [| |done].
  - by vm_compute in Hi.
  - by exists c, t.
Qed.

Lemma clean_sid (df : DataFrame) :
  Forall clean df ->
  Forall (fun r => s (article_id r) ≠ "") df
  ∧ article_id <$> df = (fun r => Some (s (article_id r))) <$> df.
Proof.
  induction 1 as [|r df Hr _ [IH1 IH2]]; [done|].
  destruct (clean_id r Hr) as (c & t & Hid). split.
  - constructor; [by rewrite Hid | done].
  - rewrite !fmap_cons, IH2. by rewrite Hid.
Qed.

Lemma uniq_seen_fixed (seen : gset string) (l : list string) :
  NoDup l -> (∀ a, a ∈ l -> a ∉ seen) -> uniq_seen seen l = l.
Proof.
  revert seen. induction l as [|a l IH]; intros seen Hn Hs; [done|].
  apply NoDup_cons in Hn as [Ha Hn]. cbn [uniq_seen].
  rewrite decide_False by (apply Hs; by left). f_equal. apply IH; [done|].
  intros b Hb. apply not_elem_of_union. split.
  - intros ->%elem_of_singleton. done.
  - apply Hs. by right.
Qed.

Lemma tree_iid_true_id (i : nat) (true_id : string) (seen : gset string)
    (e : Entropy) :
  true_id ≠ "" -> true_id ∉ seen -> tree_iid i true_id seen e = (true_id, e).
Proof.
  intros Hne Hs. unfold tree_iid. rewrite rand_bind_eq.
  destruct true_id as [|c t]; [done|]. cbn [mret rand_ret fst snd].
  by rewrite decide_False.
Qed.

Lemma populate_rows_ok (new_ids : gset cell) (rows : DataFrame) (i : nat)
    (seen : gset string) (inserted : list string) (acc : Tree)
    (e : Entropy) :
  Forall (fun r => s (article_id r) ≠ "") rows ->
  NoDup ((fun r => s (article_id r)) <$> rows) ->
  (∀ r, r ∈ rows ->
        s (article_id r) ∉ seen ∧ s (article_id r) ∉ inserted) ->
  populate_rows i rows new_ids seen inserted acc e
  = (Ok {| tree_items :=
             tree_items acc
             ++ ((fun r => (s (article_id r), r,
                            bool_decide (Some (s (article_id r)) ∈ new_ids)))
                   <$> rows);
           iid_to_article_id :=
             foldl (fun m r => <[s (article_id r) := s (article_id r)]> m)
                   (iid_to_article_id acc) rows |}, e).
Proof.
  revert i seen inserted acc.
  induction rows as [|r rows IH]; intros i seen inserted acc Hne Hnd Hout.
  - cbn. rewrite app_nil_r. by destruct acc.
  - apply Forall_cons in Hne as [Hr Hne]. rewrite fmap_cons in Hnd.
    apply NoDup_cons in Hnd as [Hfresh Hnd].
    destruct (Hout r ltac:(by left)) as [Hs Hi].
    cbn [populate_rows]. rewrite rand_bind_eq.
    rewrite (tree_iid_true_id i _ seen e Hr Hs). cbn [fst snd].
    rewrite decide_False by done.
    rewrite IH; [|done|done|].
    + cbn [tree_items iid_to_article_id foldl fmap list_fmap].
      by rewrite <- app_assoc.
    + intros r' Hr'.
      assert (Hd : s (article_id r') ≠ s (article_id r)).
      { intros Heq. apply Hfresh. rewrite <- Heq.
        by apply (list_elem_of_fmap_2 (fun r => s (article_id r))). }
      destruct (Hout r' ltac:(by right)) as [Hs' Hi']. split.
      * apply not_elem_of_union. split; [|done].
        by intros ?%elem_of_singleton.
      * rewrite elem_of_app, list_elem_of_singleton. naive_solver.
Qed.

Lemma foldl_insert_lookup (rows : DataFrame) (m : gmap string string)
    (k : string) :
  foldl (fun m r => <[s (article_id r) := s (article_id r)]> m) m rows !! k
  = if decide (k ∈ (fun r => s (article_id r)) <$> rows) then Some k
    else m !! k.
Proof.
  revert m. induction rows as [|r rows IH]; intros m; [done|].
  cbn [foldl]. rewrite IH, fmap_cons.
  destruct (decide (k = s (article_id r))) as [->|Hk].
  - rewrite lookup_insert_eq, (decide_True (P := _ ∈ _ :: _)) by by left.
    by case_decide.
  - rewrite lookup_insert_ne by done.
    case_decide as Hin.
    + rewrite decide_True; [done|]. by right.
    + rewrite decide_False; [done|].
      intros [?|?]%elem_of_cons; done.
Qed.

Lemma tree_of_lookup (df : DataFrame) (new_ids : gset cell) (k : string) :
  iid_to_article_id (tree_of df new_ids) !! k
  = if decide (k ∈ (fun r => s (article_id r)) <$> df) then Some k else None.
Proof.
  unfold tree_of. cbn [iid_to_article_id].
  induction df as [|r df IH]; [done|].
  rewrite !fmap_cons. cbn [list_to_map foldr fst snd].
  destruct (decide (k = s (article_id r))) as [->|Hk].
  - rewrite lookup_insert_eq, decide_True; [done|by left].
  - rewrite lookup_insert_ne by done. rewrite IH.
    case_decide as Hin.
    + rewrite decide_True; [done|]. by right.
    + rewrite decide_False; [done|].
      intros [?|?]%elem_of_cons; done.
Qed.

Lemma get_selection_ids_tree_of (df : DataFrame) (new_ids : gset cell)
    (sel_iids : list string) :
  Forall (fun r => s (article_id r) ≠ "") df ->
  NoDup sel_iids ->
  (∀ iid, iid ∈ sel_iids -> iid ∈ (fun r => s (article_id r)) <$> df) ->
  get_selection_ids (tree_of df new_ids) sel_iids = sel_iids.
Proof.
  intros Hne Hn Hin. unfold get_selection_ids, uniq.
  assert (Hmap : (fun iid => default iid
                    (iid_to_article_id (tree_of df new_ids) !! iid))
                 <$> sel_iids = sel_iids).
  { clear Hn. induction sel_iids as [|a l IH]; [done|].
    rewrite fmap_cons. f_equal.
    - rewrite tree_of_lookup, decide_True; [done|]. apply Hin. by left.
    - apply IH. intros iid Hi. apply Hin. by right. }
  rewrite Hmap.
  assert (Hflt : filter (fun aid : string => aid ≠ "") sel_iids = sel_iids).
  { clear Hmap Hn. induction sel_iids as [|a l IH]; [done|].
    rewrite filter_cons, decide_True.
    - f_equal. apply IH. intros iid Hi. apply Hin. by right.
    - specialize (Hin a ltac:(by left)).
      apply list_elem_of_fmap in Hin as (r & -> & Hr).
      rewrite Forall_forall in Hne. by apply Hne. }
  rewrite Hflt. apply uniq_seen_fixed; [done|].
  intros a _. apply not_elem_of_empty.
Qed.

Section TableFacts.
Variable parse_dt : list cell -> cell -> option Z.

Lemma shown_sid (df : DataFrame) (e : Entropy) :
  Forall (fun r => s (article_id r) ≠ "") (dedupe_df parse_dt df e).1
  ∧ NoDup ((fun r => s (article_id r)) <$> (dedupe_df parse_dt df e).1).
Proof.
  destruct (clean_sid _ (dedupe_df_clean parse_dt df e)) as [H1 H2].
  split; [done|].
  pose proof (dedupe_df_NoDup parse_dt df e) as Hn. rewrite H2 in Hn.
  rewrite (list_fmap_compose (fun r => s (article_id r)) Some) in Hn.
  by apply NoDup_fmap in Hn; [|apply _].
Qed.

(** [populate_table] never falls back to a made-up item id: it shows the
    frame [dedupe_df] returns, the item of each row is filed under the
    article id of the row itself, [iid_to_article_id] maps exactly these
    ids to themselves, no two items share an id (so that the tree never
    raises), and no entropy is drawn beyond what [dedupe_df] draws. *)
Theorem populate_table_item_ids (df : DataFrame) (new_ids : gset cell)
    (e : Entropy) :
  let shown : DataFrame := (dedupe_df parse_dt df e).1 in
  populate_table parse_dt df new_ids e
  = ((shown, Ok (tree_of shown new_ids)), (dedupe_df parse_dt df e).2)
  ∧ NoDup ((fun it : string * Row * bool => it.1.1)
             <$> tree_items (tree_of shown new_ids))
  ∧ (∀ k v : string,
       iid_to_article_id (tree_of shown new_ids) !! k = Some v
       ↔ v = k ∧ Some k ∈ article_id <$> shown).
Proof.
  intros shown. destruct (shown_sid df e) as [Hne Hnd]. fold shown in Hne, Hnd.
  split_and!.
  - unfold populate_table. rewrite rand_bind_eq. fold shown.
    rewrite rand_bind_eq.
    rewrite (populate_rows_ok new_ids shown 0 ∅ []); [|done|done|].
    + cbn [fst snd mret rand_ret tree_items iid_to_article_id app].
      do 2 f_equal. unfold tree_of. f_equal. f_equal.
      apply map_eq. intros k.
      rewrite foldl_insert_lookup, lookup_empty.
      pose proof (tree_of_lookup shown new_ids k) as Ht.
      unfold tree_of in Ht. cbn [iid_to_article_id] in Ht. by rewrite Ht.
    + intros r _. split; [apply not_elem_of_empty | apply not_elem_of_nil].
  - unfold tree_of. cbn [tree_items]. rewrite <- list_fmap_compose.
    exact Hnd.
  - intros k v. rewrite tree_of_lookup.
    destruct (clean_sid _ (dedupe_df_clean parse_dt df e)) as [_ H2].
    fold shown in H2. rewrite H2.
    rewrite (list_fmap_compose (fun r => s (article_id r)) Some).
    rewrite (list_elem_of_fmap_inj Some).
    case_decide; naive_solver.
Qed.

(** [get_selection_ids] gives the article ids of the selected rows: its
    result never holds a duplicate or an empty id, and on the tree
    [populate_table] builds, for a selection of distinct items of the tree,
    it is the selection itself, in its order. *)
Theorem get_selection_ids_selected (df : DataFrame) (new_ids : gset cell)
    (e : Entropy) (tree : Tree) (sel_iids : list string) :
  let shown : DataFrame := (dedupe_df parse_dt df e).1 in
  NoDup (get_selection_ids tree sel_iids)
  ∧ "" ∉ get_selection_ids tree sel_iids
  ∧ (NoDup sel_iids ->
     (∀ iid, iid ∈ sel_iids -> Some iid ∈ article_id <$> shown) ->
     get_selection_ids (tree_of shown new_ids) sel_iids = sel_iids).
Proof.
  intros shown. unfold get_selection_ids, uniq. split_and!.
  - apply uniq_seen_spec.
  - intros H. apply uniq_seen_spec in H as [H _].
    by apply list_elem_of_filter in H as [H _].
  - intros Hn Hsel.
    destruct (clean_sid _ (dedupe_df_clean parse_dt df e)) as [Hne H2].
    fold shown in Hne, H2.
    assert (Hin : ∀ iid, iid ∈ sel_iids ->
              iid ∈ (fun r => s (article_id r)) <$> shown).
    { intros iid Hi. specialize (Hsel iid Hi). rewrite H2 in Hsel.
      rewrite (list_fmap_compose (fun r => s (article_id r)) Some) in Hsel.
      by apply (list_elem_of_fmap_inj_2 Some). }
    by apply get_selection_ids_tree_of.
Qed.
End TableFacts.

(** ** The Excel export *)



(** ** Further properties of a polling cycle *)

Section PollFacts.
Variable parse_dt : list cell -> cell -> option Z.
Variable UUID_of_text : string -> option Z.
Variable netloc : string -> string.

(** the fetch of the model never raises: a cycle always reaches the merge *)
Lemma poll_merge_inv (cy : Cycle) (st : State) (e : Entropy) :
  ∃ (fresh : DataFrame) (e1 : Entropy),
    (poll_merge parse_dt netloc cy st e).1
    = Ok (merge_new parse_dt (current_df st) fresh e1).1
    ∧ Forall clean fresh.
Proof.
  unfold poll_merge. rewrite rand_bind_eq, fetch_all_feeds_eq. cbn [fst snd].
  rewrite rand_bind_eq. cbn [fst]. eexists _, _. split; [reflexivity|].
  apply dedupe_df_clean.
Qed.

Lemma poll_once_db_fields (cy : Cycle) (st : State) (w : Sys)
    (combined : DataFrame) (new_ids : gset cell) :
  (poll_merge parse_dt netloc cy st w.1).1 = Ok (combined, new_ids) ->
  let w1 : Sys := ((poll_merge parse_dt netloc cy st w.1).2, w.2) in
  let up := (upsert_articles parse_dt UUID_of_text (db_available cy)
               (to_write combined new_ids) (database st) w1).1 in
  let st' := (poll_once parse_dt UUID_of_text netloc cy st w).1 in
  database st' = up.2
  ∧ db_errors st' = match up.1 with
                    | Raise => S (db_errors st)
                    | Ok _ => db_errors st
                    end.
Proof.
  intros Hm w1 up st'. subst st' up w1. unfold poll_once.
  rewrite io_bind_eq, with_entropy_eq. cbn [fst snd]. rewrite Hm.
  rewrite io_bind_eq.
  destruct (prefetch_raises cy st combined new_ids); [done|].
  case_decide; rewrite !io_bind_eq; done.
Qed.

Lemma upsert_articles_eq (available : bool) (df : DataFrame)
    (db : gmap Z DbRow) (w : Sys) :
  let rows := (df_to_rows parse_dt UUID_of_text df w).1 in
  (upsert_articles parse_dt UUID_of_text available df db w).1
  = match rows with
    | [] => (Ok 0%nat, db)
    | _ => if available then (Ok (length rows), execute_values rows db)
           else (Raise, db)
    end.
Proof.
  intros rows. subst rows. unfold upsert_articles. rewrite io_bind_eq.
  destruct (df_to_rows parse_dt UUID_of_text df w).1; [done|].
  by destruct available.
Qed.

(** What a cycle does to the database, whether or not it later fails in
    the image prefetch.  Without a new id the database is not touched, not
    even connected to, so that a database that is down goes unnoticed.
    With new ids and the database reachable, the batch of the new rows is
    upserted and nothing else changes; with the database down the table is
    as before and one error is reported. *)
Theorem poll_once_database (cy : Cycle) (st : State) (w : Sys)
    (combined : DataFrame) (new_ids : gset cell) :
  (poll_merge parse_dt netloc cy st w.1).1 = Ok (combined, new_ids) ->
  let w1 : Sys := ((poll_merge parse_dt netloc cy st w.1).2, w.2) in
  let rows :=
    (df_to_rows parse_dt UUID_of_text (to_write combined new_ids) w1).1 in
  let st' := (poll_once parse_dt UUID_of_text netloc cy st w).1 in
  length rows = size new_ids
  ∧ (new_ids = ∅ ->
     database st' = database st ∧ db_errors st' = db_errors st)
  ∧ (new_ids ≠ ∅ -> db_available cy = true ->
     database st' = execute_values rows (database st)
     ∧ db_errors st' = db_errors st)
  ∧ (new_ids ≠ ∅ -> db_available cy = false ->
     database st' = database st ∧ db_errors st' = S (db_errors st)).
Proof.
  intros Hm w1 rows st'.
  destruct (poll_once_db_fields cy st w combined new_ids Hm) as [Hd He].
  fold w1 st' in Hd, He. rewrite upsert_articles_eq in Hd, He.
  fold rows in Hd, He.
  assert (Hlen : length rows = size new_ids).
  { subst rows. rewrite df_to_rows_length.
    destruct (poll_merge_inv cy st w.1) as (fresh & e1 & Hi & _).
    rewrite Hm in Hi. injection Hi as Hi.
    destruct (merge_new parse_dt (current_df st) fresh e1) as [[c n] e2] eqn:E.
    cbn [fst] in Hi. injection Hi as -> ->.
    pose proof (merge_new_ids_sub parse_dt (current_df st) fresh e1) as Hs.
    pose proof (merge_new_total_NoDup parse_dt (current_df st) fresh e1) as Hn.
    rewrite E in Hs, Hn. cbn [fst snd] in Hs, Hn.
    by apply to_write_length. }
  split; [exact Hlen|].
  split_and!.
  - intros ->. rewrite size_empty in Hlen.
    destruct rows; [done | discriminate Hlen].
  - intros Hne Ha. rewrite Ha in Hd, He.
    destruct rows as [|row rows']; [|done].
    exfalso. apply Hne. symmetry in Hlen. apply size_empty_inv in Hlen.
    by apply leibniz_equiv.
  - intros Hne Ha. rewrite Ha in Hd, He.
    destruct rows as [|row rows']; [|done].
    exfalso. apply Hne. symmetry in Hlen. apply size_empty_inv in Hlen.
    by apply leibniz_equiv.
Qed.


(** The frame shown is kept normalised, and a cycle never drops an article
    from it.  If the rows shown have no missing value, no blank id and
    pairwise distinct ids, the same holds after the cycle, and every id
    shown before is shown after. *)
Theorem poll_once_keeps_articles (cy : Cycle) (st : State) (w : Sys) :
  Forall clean (current_df st) -> NoDup (article_id <$> current_df st) ->
  let st' := (poll_once parse_dt UUID_of_text netloc cy st w).1 in
  Forall clean (current_df st')
  ∧ NoDup (article_id <$> current_df st')
  ∧ (∀ c : cell,
       c ∈ article_id <$> current_df st -> c ∈ article_id <$> current_df st').
Proof.
  intros Hc Hn st'. subst st'. unfold poll_once.
  rewrite io_bind_eq, with_entropy_eq. cbn [fst snd].
  destruct (poll_merge_inv cy st w.1) as (fresh & e1 & Hi & Hf).
  rewrite Hi.
  pose proof (merge_new_clean parse_dt (current_df st) fresh e1) as Hcl.
  pose proof (merge_new_total_ids parse_dt (current_df st) fresh e1) as Hids.
  destruct (merge_new parse_dt (current_df st) fresh e1) as [[combined new_ids] e2].
  cbn [fst snd] in *.
  rewrite io_bind_eq.
  assert (Hshown : ∀ e,
    Forall clean (dedupe_df parse_dt combined e).1
    ∧ NoDup (article_id <$> (dedupe_df parse_dt combined e).1)
    ∧ ∀ c, c ∈ article_id <$> current_df st ->
           c ∈ article_id <$> (dedupe_df parse_dt combined e).1).
  { intros e. split_and!; [apply dedupe_df_clean | apply dedupe_df_NoDup|].
    intros c Hin. rewrite dedupe_df_ids_clean by done.
    apply Hids. left. unfold merge_existing.
    by rewrite dedupe_df_ids_clean. }
  destruct (prefetch_raises cy st combined new_ids); [done|].
  case_decide; rewrite !io_bind_eq, !with_entropy_eq; cbn [fst snd current_df];
    apply Hshown.
Qed.
End PollFacts.

Section PollStore.
Variable parse_dt : list cell -> cell -> option Z.
Variable netloc : string -> string.

(** the new ids of a cycle are ids the fetch generated *)
Lemma poll_merge_generated (cy : Cycle) (st : State) (e : Entropy)
    (combined : DataFrame) (new_ids : gset cell) :
  (poll_merge parse_dt netloc cy st e).1 = Ok (combined, new_ids) ->
  (∀ c, c ∈ new_ids -> ∃ x : Z, c = Some (str_uuid x))
  ∧ (∀ c, c ∈ new_ids -> c ∈ article_id <$> combined)
  ∧ NoDup (article_id <$> combined).
Proof.
  unfold poll_merge. rewrite rand_bind_eq.
  destruct (fetch_all_feeds_from parse_dt netloc (feedparser_parse cy)
              (feeds st) e) as (fresh & Hfresh & Hfrom & Hcl).
  destruct (fetch_all_feeds parse_dt netloc (feedparser_parse cy) (feeds st) e)
    as [res e1]. cbn [fst snd] in *. subst res.
  rewrite rand_bind_eq. cbn [fst mret rand_ret]. intros [= Hm].
  pose proof (merge_new_ids_sub parse_dt (current_df st) fresh e1) as Hs.
  pose proof (merge_new_total_NoDup parse_dt (current_df st) fresh e1) as Hn.
  pose proof (merge_new_ids_difference parse_dt (current_df st) fresh e1) as Hd.
  rewrite Hm in Hs, Hn, Hd. cbn [fst snd] in Hs, Hn, Hd.
  split_and!; [|done..].
  intros c Hc. rewrite Hd in Hc. apply elem_of_difference in Hc as [Hc _].
  unfold id_set, merge_fresh in Hc. apply elem_of_list_to_set in Hc.
  rewrite dedupe_df_ids_clean in Hc by done.
  apply list_elem_of_fmap in Hc as (r & -> & Hr).
  rewrite Forall_forall in Hfrom.
  destruct (Hfrom r Hr) as (u & fa & ft & ens & en & _ & _ & _ & Hf).
  apply Hf.
Qed.

(** From the feed to the table.  In a cycle with the database reachable,
    every new article is in the table afterwards: under the UUID its id
    spells there is the tuple of its row in the combined frame, with the
    texts of that row.  The keys of the batch are distinct, no id was
    replaced by a random one, and a key that is not the one of a new id is
    as it was before.  This holds even when the cycle later fails in the
    image prefetch. *)
Theorem poll_once_stores_new_articles (cy : Cycle) (st : State) (w : Sys)
    (combined : DataFrame) (new_ids : gset cell) :
  (poll_merge parse_dt netloc cy st w.1).1 = Ok (combined, new_ids) ->
  db_available cy = true ->
  let st' := (poll_once parse_dt UUID_canonical netloc cy st w).1 in
  (∀ c : cell, c ∈ new_ids ->
     ∃ (r : Row) (row : DbRow),
       r ∈ combined ∧ article_id r = c
       ∧ database st' !! key_of c = Some row
       ∧ db_article_id row = key_of c ∧ tuple_of r row)
  ∧ (∀ k : Z,
       k ∉ (key_of <$> elements new_ids) ->
       database st' !! k = database st !! k)
  ∧ db_errors st' = db_errors st.
Proof.
  intros Hm Ha st'.
  destruct (poll_merge_generated cy st w.1 combined new_ids Hm)
    as (Hgen & Hsub & Hnd).
  destruct (poll_once_db_fields parse_dt UUID_canonical netloc cy st w
              combined new_ids Hm) as [Hd He].
  fold st' in Hd, He. rewrite upsert_articles_eq, Ha in Hd, He.
  set (w1 := ((poll_merge parse_dt netloc cy st w.1).2, w.2)) in *.
  set (tw := to_write combined new_ids) in *.
  assert (Htw : ∀ r, r ∈ tw -> r ∈ combined ∧ article_id r ∈ new_ids).
  { intros r. subst tw. unfold to_write.
    case_decide; [by intros ?%elem_of_nil|].
    intros [? ?]%list_elem_of_filter. done. }
  assert (Hg : Forall generated_id tw).
  { apply Forall_forall. intros r Hr. destruct (Htw r Hr) as [_ Hin].
    destruct (Hgen _ Hin) as [x Hx]. by exists x. }
  assert (Hntw : NoDup (article_id <$> tw)).
  { subst tw. unfold to_write. case_decide; [constructor|].
    eapply sublist_NoDup; [exact Hnd|]. apply fmap_sublist, sublist_filter. }
  pose proof (df_to_rows_rows parse_dt tw w1 Hg) as Hrows.
  destruct (df_to_rows_key_list parse_dt tw w1 Hg) as [Hkeys _].
  pose proof (key_of_generated_inj tw Hg Hntw) as Hknd.
  rewrite <- Hkeys in Hknd.
  set (rows := (df_to_rows parse_dt UUID_canonical tw w1).1) in *.
  assert (Hdb : database st' = execute_values rows (database st)
                ∧ db_errors st' = db_errors st).
  { destruct rows; [|done]. rewrite Hd, He. done. }
  destruct Hdb as [Hdb Herr]. split_and!; [| |exact Herr].
  - intros c Hc.
    destruct (proj1 (to_write_rows combined new_ids c Hsub) Hc)
      as (r & Hr & <-). fold tw in Hr.
    destruct (Forall2_elem_l _ _ _ r Hrows Hr) as (row & Hrow & Hkey & Htup).
    exists r, row. split_and!; [by apply Htw | done | | done | done].
    rewrite Hdb, <- Hkey, execute_values_lookup. unfold with_key.
    by rewrite (filter_key_NoDup db_article_id rows row Hknd Hrow).
  - intros k Hk. rewrite Hdb, execute_values_lookup. unfold with_key.
    rewrite (filter_key_absent db_article_id rows k); [done|].
    rewrite Hkeys. intros Hin. apply Hk.
    apply list_elem_of_fmap in Hin as (r & -> & Hr).
    apply list_elem_of_fmap. exists (article_id r). split; [done|].
    apply elem_of_elements. by apply Htw.
Qed.
End PollStore.

(** ** The manual upserts *)

Lemma tuple_of_set_published (v : cell) (r : Row) (row : DbRow) :
  tuple_of (set_published_time_utc v r) row ↔ tuple_of r row.
Proof. by destruct r. Qed.

Section ManualUpsertFacts.
Variable parse_dt : list cell -> cell -> option Z.

(** the upsert of a frame with generated, distinct ids *)
Lemma upsert_frame_stores (D : DataFrame) (db : gmap Z DbRow) (w : Sys) :
  Forall generated_id D -> NoDup (article_id <$> D) ->
  let rows := (df_to_rows parse_dt UUID_canonical D w).1 in
  (∀ r, r ∈ D ->
     ∃ row, execute_values rows db !! key_of (article_id r) = Some row
            ∧ db_article_id row = key_of (article_id r) ∧ tuple_of r row)
  ∧ (∀ k, k ∉ (fun r => key_of (article_id r)) <$> D ->
          execute_values rows db !! k = db !! k)
  ∧ length rows = length D.
Proof.
  intros Hg Hnd rows.
  pose proof (df_to_rows_rows parse_dt D w Hg) as Hrows.
  destruct (df_to_rows_key_list parse_dt D w Hg) as [Hkeys _].
  pose proof (key_of_generated_inj D Hg Hnd) as Hknd.
  rewrite <- Hkeys in Hknd. fold rows in Hrows, Hkeys, Hknd.
  split_and!.
  - intros r Hr.
    destruct (Forall2_elem_l _ _ _ r Hrows Hr) as (row & Hrow & Hkey & Htup).
    exists row. split_and!; [|done..].
    rewrite <- Hkey, execute_values_lookup. unfold with_key.
    by rewrite (filter_key_NoDup db_article_id rows row Hknd Hrow).
  - intros k Hk. rewrite execute_values_lookup. unfold with_key.
    rewrite (filter_key_absent db_article_id rows k); [done|].
    by rewrite Hkeys.
  - subst rows. apply df_to_rows_length.
Qed.

Lemma dedupe_df_clean_length (df : DataFrame) (e : Entropy) :
  Forall clean df -> NoDup (article_id <$> df) ->
  length (dedupe_df parse_dt df e).1 = length df.
Proof.
  intros Hc Hn. rewrite <- (length_fmap article_id), dedupe_df_ids_perm.
  unfold deduped. rewrite (normalize_ids_fixed df e Hc). cbn [fst].
  by rewrite drop_duplicates_fixed, length_fmap.
Qed.

Lemma dedupe_df_clean_row (df : DataFrame) (e : Entropy) (r : Row) :
  Forall clean df -> NoDup (article_id <$> df) -> r ∈ df ->
  ∃ t, set_published_time_utc (Some t) r ∈ (dedupe_df parse_dt df e).1.
Proof.
  intros Hc Hn Hr.
  assert (Hid : article_id r ∈ article_id <$> (dedupe_df parse_dt df e).1).
  { rewrite dedupe_df_ids_clean by done. by apply list_elem_of_fmap_2. }
  apply list_elem_of_fmap in Hid as (r' & Heq & Hr').
  destruct (dedupe_df_elem_clean parse_dt df e r' Hc Hr') as (t & r0 & Hr0 & ->).
  cbn [article_id set_published_time_utc] in Heq.
  assert (r = r0) as <- by by eapply NoDup_fmap_eq.
  by exists t.
Qed.

Lemma upsert_dataframe_stores (df : DataFrame) (db : gmap Z DbRow)
    (w : Sys) :
  Forall clean df -> Forall generated_id df -> NoDup (article_id <$> df) ->
  let res := (upsert_dataframe parse_dt UUID_canonical true df db w).1 in
  (∀ r, r ∈ df ->
     ∃ row, res.2 !! key_of (article_id r) = Some row
            ∧ db_article_id row = key_of (article_id r) ∧ tuple_of r row)
  ∧ (∀ k, k ∉ (fun r => key_of (article_id r)) <$> df -> res.2 !! k = db !! k)
  ∧ res.1 = match df with [] => NoRows | _ => Written (length df) end.
Proof.
  intros Hc Hg Hnd res. subst res. unfold upsert_dataframe.
  rewrite io_bind_eq, with_entropy_eq. cbn [fst snd].
  set (D := (dedupe_df parse_dt df w.1).1).
  set (w1 := ((dedupe_df parse_dt df w.1).2, w.2)).
  assert (HD : Forall generated_id D ∧ NoDup (article_id <$> D)).
  { split; [|apply dedupe_df_NoDup].
    apply Forall_forall. intros r' Hr'.
    destruct (dedupe_df_elem_clean parse_dt df w.1 r' Hc Hr')
      as (t & r0 & Hr0 & ->).
    rewrite Forall_forall in Hg. destruct (Hg r0 Hr0) as [x Hx].
    by exists x. }
  destruct HD as [HgD HnD].
  destruct (upsert_frame_stores D db w1 HgD HnD) as (Hst & Hun & Hlen).
  pose proof (dedupe_df_clean_length df w.1 Hc Hnd) as HlenD. fold D in HlenD.
  assert (Hup : (upsert_articles parse_dt UUID_canonical true D db w1).1
                = match D with
                  | [] => (Ok 0%nat, db)
                  | _ => (Ok (length D),
                          execute_values
                            (df_to_rows parse_dt UUID_canonical D w1).1 db)
                  end).
  { rewrite upsert_articles_eq.
    destruct (df_to_rows parse_dt UUID_canonical D w1).1 eqn:E.
    - destruct D; [done | discriminate Hlen].
    - rewrite Hlen. destruct D; [discriminate Hlen | done]. }
  destruct D as [|d D'] eqn:ED.
  - destruct df; [|discriminate HlenD].
    cbn [mret io_ret fst snd]. split_and!; [|done..].
    by intros r ?%elem_of_nil.
  - rewrite io_bind_eq, Hup. cbn [mret io_ret fst snd]. split_and!.
    + intros r Hr.
      destruct (dedupe_df_clean_row df w.1 r Hc Hnd Hr) as (t & Ht).
      fold D in Ht. rewrite ED in Ht.
      destruct (Hst _ Ht) as (row & H1 & H2 & H3).
      exists row. split_and!; [done..|]. by apply tuple_of_set_published in H3.
    + intros k Hk. apply Hun. intros Hin. apply Hk.
      apply list_elem_of_fmap in Hin as (r' & -> & Hr').
      assert (Hr'' : r' ∈ (dedupe_df parse_dt df w.1).1)
        by (fold D; by rewrite ED).
      destruct (dedupe_df_elem_clean parse_dt df w.1 r' Hc Hr'')
        as (t & r0 & Hr0 & ->).
      cbn [article_id set_published_time_utc].
      by apply (list_elem_of_fmap_2 (fun r => key_of (article_id r))).
    + rewrite <- HlenD. by destruct df.
Qed.

(** "Upsert all listed", with the database reachable, for a frame shown
    that is normalised with distinct ids which the program generated:
    afterwards every article shown is in the table under the UUID its id
    spells, with the texts of its row; every other key is as before, and
    the count reported is the number of rows shown. *)
Theorem upsert_all_listed_stores (current_df : DataFrame)
    (db : gmap Z DbRow) (w : Sys) :
  Forall clean current_df -> Forall generated_id current_df ->
  NoDup (article_id <$> current_df) ->
  let res :=
    (upsert_all_listed parse_dt UUID_canonical true current_df db w).1 in
  (∀ r, r ∈ current_df ->
     ∃ row, res.2 !! key_of (article_id r) = Some row
            ∧ db_article_id row = key_of (article_id r) ∧ tuple_of r row)
  ∧ (∀ k, k ∉ (fun r => key_of (article_id r)) <$> current_df ->
          res.2 !! k = db !! k)
  ∧ res.1 = match current_df with
            | [] => NoRows
            | _ => Written (length current_df)
            end.
Proof.
  intros Hc Hg Hn. unfold upsert_all_listed.
  by apply upsert_dataframe_stores.
Qed.

End ManualUpsertFacts.

(** ** Images *)






Section ImagesFacts.
Variable requests_get requests_get' : string -> option (list Z).

End ImagesFacts.

(** ** Identity *)



(** test vectors, from Python's [uuid] module *)
Example uuid5_example_1 :
  (gen_article_id (Some "http://a") demo_entropy).1
  = "bcf7b280-b0ac-52cf-aa46-68920fe34ea0".
Proof. vm_compute. reflexivity. Qed.

Example uuid5_example_2 :
  str_uuid (uuid5 NAMESPACE_URL
    "https://www.vrt.be/vrtnws/nl/2024/01/01/een-heel-lang-artikel-over-iets-dat-gebeurd-is-in-belgie-vandaag/")
  = "5774d672-bcf8-5737-ab2d-50f4fb0ebdbf".
Proof. vm_compute. reflexivity. Qed.

Example uuid4_example :
  (gen_article_id None demo_entropy).1 = "01234567-89ab-4def-8123-456789abcdef".
Proof. vm_compute. reflexivity. Qed.

Example uuid5_example_latin1 :
  str_uuid (uuid5 NAMESPACE_URL ("http://a/" +:+ String (chr 233) ""))
  = "02d6165d-b0ff-5834-b19a-b8311506d27d".
Proof. vm_compute. reflexivity. Qed.

(** ** The theorems at the example frames *)

Lemma dedupe_df_idempotent_witness :
  let Y := (dedupe_df iso demo_fresh demo_entropy).1 in
  let e' := (dedupe_df iso demo_fresh demo_entropy).2 in
  dedupe_df iso Y e' = (Y, e').
Proof.
  apply (dedupe_df_idempotent iso demo_fresh demo_entropy).
  vm_compute. reflexivity.
Defined.

Lemma merge_new_new_ids_exact_witness :
  (merge_new iso [] demo_fresh demo_entropy).1.1
  = merge_fresh iso demo_fresh demo_entropy
  ∧ (merge_new iso [] demo_fresh demo_entropy).1.2
    = id_set (merge_fresh iso demo_fresh demo_entropy).
Proof.
  apply (proj2 (proj2 (proj2
           (merge_new_new_ids_exact iso [] demo_fresh demo_entropy)))).
  reflexivity.
Defined.

Lemma merge_new_insert_only_witness :
  let total := (merge_new iso demo_existing demo_fresh demo_entropy).1.1 in
  demo_old ∈ total
  ∧ (∀ r' : Row, r' ∈ total -> article_id r' = article_id demo_old ->
                 r' = demo_old)
  ∧ (∀ f : Row, article_id f = article_id demo_old ->
                title f ≠ title demo_old -> f ∉ total).
Proof.
  apply (merge_new_insert_only iso demo_existing demo_fresh demo_entropy
           demo_old).
  - apply (bool_decide_eq_true_1 _). vm_compute. reflexivity.
  - apply (bool_decide_eq_true_1 _). vm_compute. reflexivity.
Defined.

(** the scenario of the specification: "Old" is kept, "New" is not taken,
    and the new ids are those of the two other fresh rows *)
Example merge_new_scenario :
  title <$> (merge_new iso demo_existing demo_fresh demo_entropy).1.1
  = [Some "D"; Some "Old"; Some "No link"]
  ∧ elements (merge_new iso demo_existing demo_fresh demo_entropy).1.2
    = [Some "477a5c57-c7f4-580c-ad44-86af0826896f";
       Some "01234567-89ab-4def-8123-456789abcdef"].
Proof. split; vm_compute; reflexivity. Qed.

(** C5, as stated, fails: started without a snapshot file, a cycle in
    which the feed brings nothing new runs to completion and writes no
    snapshot. *)
Lemma poll_once_no_new_ids_counterexample :
  let st' := (poll_once iso UUID_canonical demo_netloc quiet_cycle
                initial_state demo_sys).1 in
  status st' = StatusNoNew 0
  ∧ files st' !! CSV_OUT = None
  ∧ files st' !! CSV_OUT ≠ Some (csv_lines (current_df st')).
Proof. vm_compute. split_and!; [reflexivity | reflexivity | discriminate]. Qed.

Lemma poll_once_snapshot_witness :
  let st' := (poll_once iso UUID_canonical demo_netloc demo_cycle
                demo_state demo_sys).1 in
  files st' !! CSV_OUT = Some (csv_lines (current_df st'))
  ∧ length (current_df st') = 2%nat
  ∧ db_errors st' = 1%nat.
Proof.
  set (m := (poll_merge iso demo_netloc demo_cycle demo_state demo_sys.1).1).
  set (combined := match m with Ok x => x.1 | Raise => [] end).
  set (new_ids := match m with Ok x => x.2 | Raise => ∅ end).
  assert (Hm : m = Ok (combined, new_ids)) by (vm_compute; reflexivity).
  assert (Hp : prefetch_raises demo_cycle demo_state combined new_ids = false)
    by (vm_compute; reflexivity).
  assert (Hn : new_ids ≠ ∅)
    by (apply (bool_decide_eq_true_1 _); vm_compute; reflexivity).
  destruct (poll_once_snapshot iso UUID_canonical demo_netloc demo_cycle
              demo_state demo_sys combined new_ids Hm Hp) as [H _].
  destruct (H Hn) as (Hf & Hc & Hs).
  split_and!.
  - rewrite Hf, Hc. apply lookup_insert_eq.
  - rewrite Hc. vm_compute. reflexivity.
  - vm_compute. reflexivity.
Defined.

Lemma save_csv_not_atomic_witness :
  let fs : gmap string (list Line) := {[ CSV_OUT := csv_lines [demo_old] ]} in
  let ops := (save_csv iso demo_fresh demo_entropy).1 in
  ∃ mid : gmap string (list Line),
    mid ∈ fs_trace ops fs
    ∧ mid !! CSV_OUT = Some []
    ∧ mid !! CSV_OUT ≠ Some (csv_lines [demo_old])
    ∧ mid !! CSV_OUT ≠ Some (csv_lines (dedupe_df iso demo_fresh demo_entropy).1).
Proof.
  apply (save_csv_not_atomic iso demo_fresh demo_entropy
           {[ CSV_OUT := csv_lines [demo_old] ]} (csv_lines [demo_old])).
  - reflexivity.
  - discriminate.
Defined.

Lemma arguments_not_mutated_witness :
  let g := merge_new_obj iso 0 1 demo_mem in
  heap g.2 !! 0%nat = Some demo_existing
  ∧ heap g.2 !! 1%nat = Some demo_fresh
  ∧ heap demo_mem !! g.1.1 = None.
Proof.
  destruct (arguments_not_mutated iso demo_mem 0 1 demo_existing demo_fresh)
    as (_ & _ & _ & H0 & H1 & H2 & _); [reflexivity | reflexivity |].
  split_and!; [exact H0 | exact H1 | exact H2].
Defined.

(** ** The further properties on the examples *)

Lemma generated_id_checked (df : DataFrame) :
  forallb generated_id_check df = true -> Forall generated_id df.
Proof.
  intros H. apply Forall_forall. intros r Hr.
  rewrite forallb_forall in H. apply list_elem_of_In in Hr.
  specialize (H r Hr). unfold generated_id_check in H.
  destruct (article_id r) as [t|] eqn:Ht; [|done].
  destruct (UUID_canonical t) as [x|]; [|done].
  apply bool_decide_eq_true_1 in H. exists x. by rewrite H.
Qed.

Lemma dedupe_df_keeps_first_witness :
  let r' := default demo_old (head demo_shown) in
  ∃ (k : option Z) (l1 : DataFrame) (r : Row) (l2 : DataFrame),
    (normalize_ids demo_fresh demo_entropy).1 = l1 ++ r :: l2
    ∧ article_id r ∉ article_id <$> l1
    ∧ r' = set_published_time_utc (Some (default "" (strftime <$> k))) r.
Proof.
  apply (dedupe_df_keeps_first iso demo_fresh demo_entropy).
  apply (bool_decide_eq_true_1 _). vm_compute. reflexivity.
Defined.

Lemma merge_new_again_no_new_ids_witness :
  let total := (merge_new iso demo_existing demo_shown demo_entropy).1.1 in
  (merge_new iso total demo_shown demo_entropy).1.2 = ∅.
Proof.
  apply (merge_new_again_no_new_ids iso demo_existing demo_shown
           demo_entropy demo_entropy).
  apply (bool_decide_eq_true_1 _). vm_compute. reflexivity.
Defined.

Lemma df_to_rows_shape_witness :
  let rows := (df_to_rows iso UUID_canonical demo_shown demo_sys).1 in
  length rows = length demo_shown
  ∧ Forall (fun row => (String.length (db_title row) <= 10000)%nat) rows
  ∧ Forall no_empty_text rows.
Proof.
  apply (df_to_rows_shape iso UUID_canonical demo_shown demo_sys).
  apply (bool_decide_eq_true_1 _). vm_compute. reflexivity.
Defined.

Lemma execute_values_upsert_witness :
  let rows := (df_to_rows iso UUID_canonical demo_shown demo_sys).1 in
  let db : gmap Z DbRow := ∅ in
  (∀ row : DbRow,
     row ∈ rows -> execute_values rows db !! db_article_id row = Some row)
  ∧ (∀ k : Z,
       k ∉ db_article_id <$> rows -> execute_values rows db !! k = db !! k)
  ∧ execute_values rows (execute_values rows db) = execute_values rows db.
Proof.
  apply (execute_values_upsert
           (df_to_rows iso UUID_canonical demo_shown demo_sys).1 ∅).
  apply (bool_decide_eq_true_1 _). vm_compute. reflexivity.
Defined.

Lemma df_to_rows_keys_of_generated_ids_witness :
  let rows := (df_to_rows iso UUID_canonical demo_shown demo_sys).1 in
  db_article_id <$> rows = (fun r => key_of (article_id r)) <$> demo_shown
  ∧ (df_to_rows iso UUID_canonical demo_shown demo_sys).2.1 = demo_sys.1
  ∧ (NoDup (article_id <$> demo_shown) -> NoDup (db_article_id <$> rows)).
Proof.
  apply (df_to_rows_keys_of_generated_ids iso demo_shown demo_sys).
  apply generated_id_checked. vm_compute. reflexivity.
Defined.

Lemma poll_once_database_witness :
  let st' := (poll_once iso UUID_canonical demo_netloc demo_cycle
                demo_state demo_sys).1 in
  database st' = database demo_state
  ∧ db_errors st' = S (db_errors demo_state).
Proof.
  set (m := (poll_merge iso demo_netloc demo_cycle demo_state demo_sys.1).1).
  set (combined := match m with Ok x => x.1 | Raise => [] end).
  set (new_ids := match m with Ok x => x.2 | Raise => ∅ end).
  assert (Hm : m = Ok (combined, new_ids)) by (vm_compute; reflexivity).
  assert (Hn : new_ids ≠ ∅)
    by (apply (bool_decide_eq_true_1 _); vm_compute; reflexivity).
  destruct (poll_once_database iso UUID_canonical demo_netloc demo_cycle
              demo_state demo_sys combined new_ids Hm) as (_ & _ & _ & H).
  apply (H Hn). reflexivity.
Defined.


Lemma poll_once_keeps_articles_witness :
  let st' := (poll_once iso UUID_canonical demo_netloc demo_cycle
                demo_state demo_sys).1 in
  Forall clean (current_df st')
  ∧ NoDup (article_id <$> current_df st')
  ∧ (∀ c : cell,
       c ∈ article_id <$> current_df demo_state ->
       c ∈ article_id <$> current_df st').
Proof.
  apply (poll_once_keeps_articles iso UUID_canonical demo_netloc demo_cycle
           demo_state demo_sys).
  - apply (bool_decide_eq_true_1 _). vm_compute. reflexivity.
  - apply (bool_decide_eq_true_1 _). vm_compute. reflexivity.
Defined.

Lemma source_step_saves_witness :
  let st' := source_step (feedparser_parse demo_cycle) (fun _ => Ok [])
               demo_sources (RemoveSelectedFeed [0%nat]) in
  NoDup (feed_urls st')
  ∧ (st' = demo_sources ∨ FEEDS_JSON st' = save_feeds (feed_urls st')).
Proof.
  apply (source_step_saves (feedparser_parse demo_cycle) (fun _ => Ok [])
           demo_sources (RemoveSelectedFeed [0%nat])).
  apply (bool_decide_eq_true_1 _). vm_compute. reflexivity.
Defined.

Lemma poll_once_stores_new_articles_witness :
  let m := (poll_merge iso demo_netloc media_cycle demo_state demo_sys.1).1 in
  let new_ids : gset cell := match m with Ok x => x.2 | Raise => ∅ end in
  let st' := (poll_once iso UUID_canonical demo_netloc media_cycle
                demo_state demo_sys).1 in
  (∀ c : cell, c ∈ new_ids ->
     ∃ (r : Row) (row : DbRow),
       article_id r = c ∧ database st' !! key_of c = Some row
       ∧ tuple_of r row)
  ∧ status st' = StatusPollingError
  ∧ db_errors st' = db_errors demo_state.
Proof.
  intros m new_ids st'.
  set (combined := match m with Ok x => x.1 | Raise => [] end).
  assert (Hm : m = Ok (combined, new_ids)) by (vm_compute; reflexivity).
  destruct (poll_once_stores_new_articles iso demo_netloc media_cycle
              demo_state demo_sys combined new_ids Hm eq_refl)
    as (H1 & _ & H3).
  split; [|split; [vm_compute; reflexivity | exact H3]].
  intros c Hc. destruct (H1 c Hc) as (r & row & _ & Hid & Hdb & _ & Ht).
  exists r, row. split; [exact Hid|]. split; [exact Hdb | exact Ht].
Defined.

Lemma upsert_all_listed_stores_witness :
  let db : gmap Z DbRow := ∅ in
  let res := (upsert_all_listed iso UUID_canonical true demo_shown db
                demo_sys).1 in
  (∀ r, r ∈ demo_shown ->
     ∃ row, res.2 !! key_of (article_id r) = Some row
            ∧ db_article_id row = key_of (article_id r) ∧ tuple_of r row)
  ∧ (∀ k, k ∉ (fun r => key_of (article_id r)) <$> demo_shown ->
          res.2 !! k = db !! k)
  ∧ res.1 = match demo_shown with
            | [] => NoRows
            | _ => Written (length demo_shown)
            end.
Proof.
  apply (upsert_all_listed_stores iso demo_shown ∅ demo_sys).
  - apply (bool_decide_eq_true_1 _). vm_compute. reflexivity.
  - apply generated_id_checked. vm_compute. reflexivity.
  - apply (bool_decide_eq_true_1 _). vm_compute. reflexivity.
Defined.

